(** * Firefox Global Media Controller: coordinator, media agent and popup

    A shallow embedding of the three scripts of the extension:

    - [Background]: [background.js], class [MediaSessionManager]
      (the session registry, the active-session pointer, the broadcast
      throttle);
    - [Agent]: [mediaAgent.js], class [MediaAgent] (scoring and discovery
      of media elements, the time-string parser, attach and detach);
    - [Popup]: [popup.js], class [MediaControllerPopup] (optimistic toggle,
      reconciliation of broadcasts, drag-to-seek).

    Conventions.  [Date.now()] is an integer number of milliseconds, a [Z].
    A JavaScript number that holds a media time, a volume or a score is a
    [jsnum]: an exact rational or one of the three special values; rounding
    of doubles and the sign of zero are not modelled.  A JavaScript [Map] whose
    iteration order is observed is an association list in insertion order;
    a [Map] that is only looked up is a [gmap].  Every handler runs to
    completion (the scripts are single-threaded), so a handler is a function
    from the state before to the state after together with the messages it
    posts. *)

From Stdlib Require Import ZArith QArith Qround Bool List Sorted Ascii String Lia.
From stdpp Require Import base option list gmap strings pretty.
Import ListNotations.

Local Open Scope Z_scope.

(** ** JavaScript numbers *)

Module JS.

Inductive jsnum : Type :=
| Fin (q : Q)
| PInf
| NInf
| NaN.

Definition num (z : Z) : jsnum := Fin (inject_Z z).

(** [!!x] for a number: [0] and [NaN] are falsy. *)
Definition truthy (x : jsnum) : bool :=
  match x with
  | Fin q => negb (Qeq_bool q 0)
  | PInf | NInf => true
  | NaN => false
  end.

Definition isNaN (x : jsnum) : bool :=
  match x with NaN => true | _ => false end.

(** [x || y] on numbers. *)
Definition or_else (x y : jsnum) : jsnum := if truthy x then x else y.

Definition Qlt_bool (a b : Q) : bool := negb (Qle_bool b a).

(** [a < b]; every comparison with [NaN] is false. *)
Definition lt (a b : jsnum) : bool :=
  match a, b with
  | NaN, _ | _, NaN => false
  | Fin x, Fin y => Qlt_bool x y
  | NInf, NInf => false
  | NInf, _ => true
  | _, PInf => match a with PInf => false | _ => true end
  | _, _ => false
  end.

Definition gt (a b : jsnum) : bool := lt b a.

(** [a <= b]. *)
Definition le (a b : jsnum) : bool :=
  match a, b with
  | NaN, _ | _, NaN => false
  | Fin x, Fin y => Qle_bool x y
  | NInf, _ => true
  | _, PInf => true
  | _, _ => false
  end.

Definition ge (a b : jsnum) : bool := le b a.

Definition add (a b : jsnum) : jsnum :=
  match a, b with
  | NaN, _ | _, NaN => NaN
  | Fin x, Fin y => Fin (x + y)
  | PInf, NInf | NInf, PInf => NaN
  | PInf, _ | _, PInf => PInf
  | NInf, _ | _, NInf => NInf
  end.

Definition neg (a : jsnum) : jsnum :=
  match a with
  | Fin x => Fin (- x)
  | PInf => NInf
  | NInf => PInf
  | NaN => NaN
  end.

Definition sub (a b : jsnum) : jsnum := add a (neg b).

(** Sign of a number as a comparison with zero; [None] for [NaN]. *)
Definition sign (a : jsnum) : option comparison :=
  match a with
  | Fin x => Some (x ?= 0)%Q
  | PInf => Some Gt
  | NInf => Some Lt
  | NaN => None
  end.

Definition signed_inf (s1 s2 : comparison) : jsnum :=
  match s1, s2 with
  | Eq, _ | _, Eq => NaN
  | Gt, Gt | Lt, Lt => PInf
  | _, _ => NInf
  end.

Definition mul (a b : jsnum) : jsnum :=
  match a, b with
  | Fin x, Fin y => Fin (x * y)
  | _, _ =>
      match sign a, sign b with
      | Some s1, Some s2 => signed_inf s1 s2
      | _, _ => NaN
      end
  end.

Definition div (a b : jsnum) : jsnum :=
  match a, b with
  | NaN, _ | _, NaN => NaN
  | Fin x, Fin y =>
      if Qeq_bool y 0 then signed_inf (x ?= 0)%Q Gt else Fin (x / y)
  | Fin _, _ => Fin 0
  | _, Fin y => match sign a with
                | Some s => signed_inf s (if Qeq_bool y 0 then Gt else (y ?= 0)%Q)
                | None => NaN
                end
  | _, _ => NaN
  end.

(** [Math.min] and [Math.max]: [NaN] if either argument is. *)
Definition min (a b : jsnum) : jsnum :=
  match a, b with
  | NaN, _ | _, NaN => NaN
  | _, _ => if le a b then a else b
  end.

Definition max (a b : jsnum) : jsnum :=
  match a, b with
  | NaN, _ | _, NaN => NaN
  | _, _ => if le a b then b else a
  end.

(** A number that is finite or minus infinity: what a score can be. *)
Definition below_inf (x : jsnum) : Prop :=
  match x with Fin _ | NInf => True | _ => False end.

End JS.

(** ** background.js: the coordinator *)

Module Background.

Import JS.

(** [state] of a snapshot, as built by the agent's [sendUpdate]. *)
Record PlaybackState : Type := {
  paused : bool;
  muted : bool;
  volume : jsnum;
  currentTime : jsnum;
  duration : jsnum;
  canSeek : bool;
  ended : bool
}.

(** The [data] of a [SESSION_UPDATE] message.  [sd_state] is [None] when
    the message carries no [state] object. *)
Record SessionData : Type := {
  sd_title : string;
  sd_artworkUrl : option string;
  sd_state : option PlaybackState
}.

(** What [browserAPI.tabs.get] resolves to, as far as it is read. *)
Record Tab : Type := {
  tab_title : string;
  tab_url : string;
  tab_favIconUrl : option string
}.

Record Session : Type := {
  id : string;
  tabId : Z;
  frameId : Z;
  title : string;
  url : string;
  favIconUrl : option string;
  artworkUrl : option string;
  state : PlaybackState;
  lastActiveAt : Z
}.

Definition set_lastActiveAt (s : Session) (t : Z) : Session :=
  {| id := id s; tabId := tabId s; frameId := frameId s; title := title s;
     url := url s; favIconUrl := favIconUrl s; artworkUrl := artworkUrl s;
     state := state s; lastActiveAt := t |}.

Inductive Message : Type :=
| SESSION_UPDATED (session : Session)
| SESSION_REMOVED (sessionId : string).

(** A JavaScript [Map] with string keys, in insertion order. *)
Definition JsMap (V : Type) : Type := list (string * V).

Fixpoint map_get {V} (k : string) (m : JsMap V) : option V :=
  match m with
  | [] => None
  | (k', v) :: m' => if String.eqb k k' then Some v else map_get k m'
  end.

(** [Map.prototype.set]: an existing key keeps its place. *)
Fixpoint map_set {V} (k : string) (v : V) (m : JsMap V) : JsMap V :=
  match m with
  | [] => [(k, v)]
  | (k', v') :: m' =>
      if String.eqb k k' then (k, v) :: m' else (k', v') :: map_set k v m'
  end.

Definition map_has {V} (k : string) (m : JsMap V) : bool :=
  match map_get k m with Some _ => true | None => false end.

(** [Map.prototype.delete]: the map without the key. *)
Definition map_delete {V} (k : string) (m : JsMap V) : JsMap V :=
  List.filter (fun kv => negb (String.eqb k (fst kv))) m.

Definition map_values {V} (m : JsMap V) : list V := map snd m.

Record Manager : Type := {
  sessions : JsMap Session;
  lastActiveSessionId : option string;
  lastBroadcastTimestamps : gmap string Z
}.

(** The manager as the constructor leaves it. *)
Definition initial : Manager :=
  {| sessions := []; lastActiveSessionId := None; lastBroadcastTimestamps := ∅ |}.

(** The template string [`${tabId}:${frameId}`]. *)
Definition sessionIdOf (tabId frameId : Z) : string :=
  pretty tabId +:+ ":" +:+ pretty frameId.

(** [a || b] on strings: the empty string is falsy. *)
Definition str_or (a b : string) : string :=
  match a with EmptyString => b | _ => a end.

(** The callback that [updateSession] passes to [tabs.get(tabId).then];
    the result is the new manager and the messages handed to
    [broadcastToPopups].  Reading [session.state.paused] of a snapshot
    without [state] throws, the [catch] swallows it, and nothing has been
    written at that point. *)
Definition updateSession (m : Manager) (sessionData : SessionData)
    (tabId frameId : Z) (tab : Tab) (now : Z) : Manager * list Message :=
  let sessionId := sessionIdOf tabId frameId in
  match sd_state sessionData with
  | None => (m, [])
  | Some st =>
      let prev := map_get sessionId (sessions m) in
      let lastActiveAt :=
        match prev with Some p => lastActiveAt p | None => now end in
      let session :=
        {| id := sessionId; tabId := tabId; frameId := frameId;
           title := str_or (sd_title sessionData) (tab_title tab);
           url := tab_url tab; favIconUrl := tab_favIconUrl tab;
           artworkUrl := sd_artworkUrl sessionData;
           state := st; lastActiveAt := lastActiveAt |} in
      let '(session, active) :=
        match prev with
        | Some p =>
            if paused (state p) && negb (paused st)
            then (set_lastActiveAt session now, Some sessionId)
            else (session, lastActiveSessionId m)
        | None =>
            if negb (paused st)
            then (set_lastActiveAt session now, Some sessionId)
            else (session, lastActiveSessionId m)
        end in
      let lastBroadcast := default 0 (lastBroadcastTimestamps m !! sessionId) in
      let isStateChange :=
        match prev with
        | None => true
        | Some p => negb (Bool.eqb (paused (state p)) (paused st))
        end in
      let throttleMs := 300 in
      let shouldBroadcast :=
        isStateChange || (throttleMs <=? now - lastBroadcast)
        || negb (bool_decide (is_Some prev)) in
      let sessions' := map_set sessionId session (sessions m) in
      if shouldBroadcast
      then ({| sessions := sessions'; lastActiveSessionId := active;
               lastBroadcastTimestamps :=
                 <[sessionId := now]> (lastBroadcastTimestamps m) |},
            [SESSION_UPDATED session])
      else ({| sessions := sessions'; lastActiveSessionId := active;
               lastBroadcastTimestamps := lastBroadcastTimestamps m |},
            [])
  end.

(** The loop of [findMostRecentActiveSession]: the pair is
    [(mostRecent, mostRecentTime)]. *)
Definition mostRecentStep (acc : option string * Z) (session : Session)
    : option string * Z :=
  if snd acc <? lastActiveAt session
  then (Some (id session), lastActiveAt session)
  else acc.

Definition findMostRecentActiveSession (m : JsMap Session) : option string :=
  fst (fold_left mostRecentStep (map_values m) (None, 0)).

Definition removeSession (m : Manager) (sessionId : string)
    : Manager * list Message :=
  if map_has sessionId (sessions m)
  then
    let sessions' := map_delete sessionId (sessions m) in
    let active :=
      if bool_decide (lastActiveSessionId m = Some sessionId)
      then findMostRecentActiveSession sessions'
      else lastActiveSessionId m in
    ({| sessions := sessions'; lastActiveSessionId := active;
        lastBroadcastTimestamps := lastBroadcastTimestamps m |},
     [SESSION_REMOVED sessionId])
  else (m, []).

(** *** Runs of the coordinator *)

(** A run of the coordinator: snapshots and removals handled one at a
    time, in arrival order. *)
Inductive Event : Type :=
| Update (d : SessionData) (tabId frameId : Z) (tab : Tab) (now : Z)
| Remove (sessionId : string).

Definition step (m : Manager) (ev : Event) : Manager :=
  match ev with
  | Update d tabId frameId tab now => fst (updateSession m d tabId frameId tab now)
  | Remove sid => fst (removeSession m sid)
  end.

Definition run (m : Manager) (evs : list Event) : Manager := fold_left step evs m.


(** The stored time lies in [[0, duration]] when the duration is a finite,
    non-zero number ([sendUpdate] reports an unknown duration as [0]). *)
Definition time_in_range (st : PlaybackState) : bool :=
  match duration st with
  | Fin d =>
      if Qeq_bool d 0 then true
      else le (num 0) (currentTime st) && le (currentTime st) (Fin d)
  | _ => true
  end.

(** Whether [updateSession] broadcasts a snapshot with state [st], read off
    the registry before the update. *)
Definition broadcastDue (m : Manager) (sid : string) (st : PlaybackState)
    (now : Z) : bool :=
  match map_get sid (sessions m) with
  | None => true
  | Some p =>
      negb (Bool.eqb (paused (state p)) (paused st))
      || (300 <=? now - default 0 (lastBroadcastTimestamps m !! sid))
  end.

(** Every record is stored under its own id and was last active at a
    positive clock reading ([Date.now()] counts from 1970). *)
Definition registry_wf (m : Manager) : Prop :=
  forall k s, In (k, s) (sessions m) -> id s = k /\ 0 < lastActiveAt s.

Definition clock_positive (ev : Event) : Prop :=
  match ev with
  | Update _ _ _ _ now => 0 < now
  | Remove _ => True
  end.

Definition snapshot_ok (ev : Event) : Prop :=
  match ev with
  | Update d _ _ _ _ =>
      match sd_state d with
      | Some st => time_in_range st = true
      | None => True
      end
  | Remove _ => True
  end.

Definition registry_ok (m : Manager) : Prop :=
  forall k s, In (k, s) (sessions m) -> time_in_range (state s) = true.

(** *** Bulk removal and command routing *)

(** The second loop of [removeSessionsForTab]: [removeSession] for every
    collected id, the broadcasts in order. *)
Definition removeAll (m : Manager) (toRemove : list string)
    : Manager * list Message :=
  fold_left
    (fun acc sessionId =>
       (fst (removeSession (fst acc) sessionId),
        snd acc ++ snd (removeSession (fst acc) sessionId)))
    toRemove (m, []).

Definition removeSessionsForTab (m : Manager) (tab : Z) : Manager * list Message :=
  let toRemove :=
    map fst (List.filter (fun kv => tabId (snd kv) =? tab) (sessions m)) in
  removeAll m toRemove.

(** A [CONTROL_COMMAND]: the session, the verb and the remaining
    properties of the command object. *)
Record ControlCommand : Type := {
  cc_sessionId : string;
  cc_cmd : string;
  cc_params : list (string * jsnum)
}.

(** The [MEDIA_CONTROL] message handed to [tabs.sendMessage(tabId, ...)]. *)
Record TabMessage : Type := {
  tm_tabId : Z;
  tm_frameId : Z;
  tm_cmd : string;
  tm_params : list (string * jsnum)
}.

(** [forwardControlCommand] up to the [await]: the message sent, if any. *)
Definition forwardControlCommand (m : Manager) (command : ControlCommand)
    : option TabMessage :=
  match map_get (cc_sessionId command) (sessions m) with
  | None => None
  | Some session =>
      Some {| tm_tabId := tabId session; tm_frameId := frameId session;
              tm_cmd := cc_cmd command; tm_params := cc_params command |}
  end.

(** The [catch] of [forwardControlCommand], run when the send is rejected. *)
Definition deliveryFailed (m : Manager) (command : ControlCommand)
    : Manager * list Message :=
  removeSession m (cc_sessionId command).

(** [handleCommand] for a keyboard shortcut: the message sent, if any. *)
Definition handleCommand (m : Manager) (command : string) : option TabMessage :=
  let session :=
    match lastActiveSessionId m with
    | Some EmptyString | None => None
    | Some sid => map_get sid (sessions m)
    end in
  match session, lastActiveSessionId m with
  | Some _, Some active =>
      if String.eqb command "toggle-play"
      then forwardControlCommand m
             {| cc_sessionId := active; cc_cmd := "toggle"; cc_params := [] |}
      else if String.eqb command "seek-forward"
      then forwardControlCommand m
             {| cc_sessionId := active; cc_cmd := "seek";
                cc_params := [("delta", num 10)] |}
      else if String.eqb command "seek-backward"
      then forwardControlCommand m
             {| cc_sessionId := active; cc_cmd := "seek";
                cc_params := [("delta", num (-10))] |}
      else None
  | _, _ => None
  end.

(** [handlePopupConnection]: the [sessions] of the [SESSIONS_INIT] message
    posted to the new port, [Array.from(this.sessions.values())]. *)
Definition handlePopupConnection (m : Manager) : list Session :=
  map_values (sessions m).

(** Everything that changes the registry. *)
Inductive Op : Type :=
| OpUpdate (d : SessionData) (tabId frameId : Z) (tab : Tab) (now : Z)
| OpRemove (sessionId : string)
| OpRemoveTab (tab : Z)
| OpDeliveryFailed (command : ControlCommand).

Definition apply_op (m : Manager) (op : Op) : Manager :=
  match op with
  | OpUpdate d tabId frameId tab now => fst (updateSession m d tabId frameId tab now)
  | OpRemove sid => fst (removeSession m sid)
  | OpRemoveTab tab => fst (removeSessionsForTab m tab)
  | OpDeliveryFailed command => fst (deliveryFailed m command)
  end.

Definition apply_ops (m : Manager) (ops : list Op) : Manager :=
  fold_left apply_op ops m.

Definition op_clock_positive (op : Op) : Prop :=
  match op with
  | OpUpdate _ _ _ _ now => 0 < now
  | _ => True
  end.

(** The active pointer is [null] or the id of a stored session. *)
Definition pointer_ok (m : Manager) : Prop :=
  match lastActiveSessionId m with
  | None => True
  | Some sid => map_has sid (sessions m) = true
  end.

Definition keys_unique (m : Manager) : Prop := NoDup (map fst (sessions m)).

Definition keys_nonempty (m : Manager) : Prop :=
  forall k, In k (map fst (sessions m)) -> k <> EmptyString.

Definition coordinator_inv (m : Manager) : Prop :=
  registry_wf m /\ keys_unique m /\ pointer_ok m /\ keys_nonempty m.

(** No stored activity time lies after the clock reading [now]. *)
Definition clock_bounded (m : Manager) (now : Z) : Prop :=
  forall k s, In (k, s) (sessions m) -> lastActiveAt s <= now.

End Background.

(** ** mediaAgent.js: the per-frame agent *)

Module Agent.

Import JS.

(** A [<video>] or [<audio>] element as the agent reads it.  [node] is the
    identity of the DOM node; the other fields are the properties at the
    moment the agent looks. *)
Record MediaElement : Type := {
  node : nat;
  tagName : string;
  disableRemotePlayback : bool;
  readyState : Z;
  paused : bool;
  muted : bool;
  volume : jsnum;
  currentTime : jsnum;
  duration : jsnum;
  offsetWidth : Z;
  offsetHeight : Z;
  src : string;
  childrenLength : nat;
  seekableLength : nat;
  ended : bool
}.

(** [scoreMediaElement].  The sum is exact, where the script rounds
    [duration / 60] and every partial sum to a double. *)
Definition scoreMediaElement (element : MediaElement) : jsnum :=
  let score := num 0 in
  if disableRemotePlayback element then num (-1) else
  let score := if readyState element =? 0 then sub score (num 10) else score in
  let score := if negb (paused element) then add score (num 100) else score in
  let score := if gt (currentTime element) (num 0)
               then add score (num 50) else score in
  let score := if truthy (duration element) && negb (isNaN (duration element))
               then add score (min (div (duration element) (num 60)) (num 30))
               else score in
  let score := if (0 <? offsetWidth element) && (0 <? offsetHeight element)
               then add score (num 20) else score in
  let score := if String.eqb (tagName element) "VIDEO"
               then add score (num 10) else score in
  let score := if negb (muted element) then add score (num 10) else score in
  let score := if negb (String.eqb (src element) "")
                  || (0 <? childrenLength element)%nat
               then add score (num 5) else score in
  score.

(** The body of the [for ... of mediaElements] loop of
    [findAndAttachMedia]; the pair is [(bestElement, bestScore)]. *)
Definition bestStep (acc : option MediaElement * jsnum)
    (element : MediaElement) : option MediaElement * jsnum :=
  let score := scoreMediaElement element in
  if gt score (snd acc) then (Some element, score) else acc.

Definition findBest (mediaElements : list MediaElement)
    : option MediaElement * jsnum :=
  fold_left bestStep mediaElements (None, num (-1)).

(** What one run of [findAndAttachMedia] decides to do. *)
Inductive Discovery : Type :=
| CreateVirtual
| AttachTo (element : MediaElement)
| RetryLater
| GiveUp.

Definition discover (mediaElements : list MediaElement) (isSpotify : bool)
    (retryCount : nat) : Discovery :=
  if (length mediaElements =? 0)%nat && isSpotify then CreateVirtual else
  match findBest mediaElements with
  | (Some bestElement, bestScore) =>
      if ge bestScore (num 0) then AttachTo bestElement
      else if (retryCount <? 5)%nat then RetryLater else GiveUp
  | (None, _) => if (retryCount <? 5)%nat then RetryLater else GiveUp
  end.

(** *** parseTimeString *)

Definition is_digit (c : ascii) : bool :=
  let n := nat_of_ascii c in ((48 <=? n) && (n <=? 57))%nat.

Definition is_colon (c : ascii) : bool := Ascii.eqb c ":"%char.

(** White space of the ASCII range, as [trim] and [parseInt] skip it. *)
Definition is_space (c : ascii) : bool :=
  let n := nat_of_ascii c in ((n =? 32) || ((9 <=? n) && (n <=? 13)))%nat.

Fixpoint trimStart (s : string) : string :=
  match s with
  | String c s' => if is_space c then trimStart s' else s
  | EmptyString => EmptyString
  end.

Fixpoint trimEnd (s : string) : string :=
  match s with
  | EmptyString => EmptyString
  | String c s' =>
      match trimEnd s' with
      | EmptyString => if is_space c then EmptyString else String c EmptyString
      | t => String c t
      end
  end.

Definition trim (s : string) : string := trimEnd (trimStart s).

Fixpoint filter_chars (keep : ascii -> bool) (s : string) : string :=
  match s with
  | EmptyString => EmptyString
  | String c s' =>
      if keep c then String c (filter_chars keep s') else filter_chars keep s'
  end.

(** [s.replace(/[^\d:]/g, '')] *)
Definition keepDigitsAndColons (s : string) : string :=
  filter_chars (fun c => is_digit c || is_colon c) s.

(** [s.split(sep)] for a one-character separator. *)
Fixpoint split (sep : ascii) (s : string) : list string :=
  match s with
  | EmptyString => [EmptyString]
  | String c s' =>
      if Ascii.eqb c sep then EmptyString :: split sep s'
      else match split sep s' with
           | h :: t => String c h :: t
           | [] => [String c EmptyString]
           end
  end.

(** The longest prefix of decimal digits, read as a number ([acc] is the
    value so far, [seen] whether a digit was read). *)
Fixpoint digitsValue (s : string) (acc : Z) (seen : bool) : option Z :=
  match s with
  | String c s' =>
      if is_digit c
      then digitsValue s' (10 * acc + Z.of_nat (nat_of_ascii c - 48)) true
      else if seen then Some acc else None
  | EmptyString => if seen then Some acc else None
  end.

(** [parseInt(s, 10)]; [None] is [NaN]. *)
Definition parseInt10 (s : string) : option Z :=
  match trimStart s with
  | String "-" s' => Z.opp <$> digitsValue s' 0 false
  | String "+" s' => digitsValue s' 0 false
  | s' => digitsValue s' 0 false
  end.

(** [parseInt(s, 10) || 0] *)
Definition parseIntOr0 (s : string) : Z := default 0 (parseInt10 s).

(** [timeStr] is [None] for [null] or [undefined]. *)
Definition parseTimeString (timeStr : option string) : Z :=
  match timeStr with
  | None | Some EmptyString => 0
  | Some str =>
      let cleanStr := keepDigitsAndColons (trim str) in
      match split ":" cleanStr with
      | [p0; p1] =>
          let minutes := parseIntOr0 p0 in
          let seconds := parseIntOr0 p1 in
          minutes * 60 + seconds
      | [p0; p1; p2] =>
          let hours := parseIntOr0 p0 in
          let minutes := parseIntOr0 p1 in
          let seconds := parseIntOr0 p2 in
          hours * 3600 + minutes * 60 + seconds
      | _ => 0
      end
  end.

(** Whether a string holds a decimal digit, and how many colons it holds. *)
Fixpoint has_digit (s : string) : bool :=
  match s with
  | EmptyString => false
  | String c s' => is_digit c || has_digit s'
  end.

Fixpoint countColons (s : string) : nat :=
  match s with
  | EmptyString => 0
  | String c s' => if is_colon c then S (countColons s') else countColons s'
  end.

(** *** The Spotify virtual element *)

(** The shadow state of the object built by [createSpotifyVirtualElement];
    a field that has never been assigned is [None]. *)
Record VirtualElement : Type := {
  v_paused : bool;
  v_currentTime : option jsnum;   (* _currentTime *)
  v_duration : jsnum;
  v_volume : option jsnum;        (* _volume *)
  v_muted : option bool           (* _muted *)
}.

Definition newVirtualElement : VirtualElement :=
  {| v_paused := true; v_currentTime := None; v_duration := num 0;
     v_volume := None; v_muted := None |}.

(** What the agent reads from the page. *)
Record Page : Type := {
  elements : list MediaElement;        (* the media element objects, in document order *)
  documentTitle : string;
  metadata : option (string * list string);  (* mediaSession.metadata: title, artwork srcs *)
  isSpotify : bool;
  trackName : option string;           (* the texts found for the track and the artist, *)
  artistName : option string;          (* before the fallback: [None] is [undefined] *)
  pauseButton : bool;                  (* a play/pause control labelled "Pause" exists *)
  playButton : bool;
  progressTimeText : option string;    (* textContent of the elapsed-time element *)
  durationTimeText : option string
}.

(** The part of [checkSpotifyState] that derives the play state and the
    times (the volume and mute detection that follows it in the source
    touches [_volume] and [_muted] only). *)
Definition checkSpotifyState (page : Page) (v : VirtualElement) : VirtualElement :=
  let isPaused := playButton page in
  let currentTime :=
    match progressTimeText page with
    | Some (String c t) => parseTimeString (Some (String c t))
    | _ => 0
    end in
  let duration :=
    match durationTimeText page with
    | Some (String c t) => parseTimeString (Some (String c t))
    | _ => 0
    end in
  {| v_paused := isPaused; v_currentTime := Some (num currentTime);
     v_duration := num duration; v_volume := v_volume v; v_muted := v_muted v |}.

(** The [sessionData] that [sendSpotifyUpdate] builds. *)
Definition spotifySessionData (page : Page) (v : VirtualElement)
    : Background.SessionData :=
  let isPlaying := pauseButton page in
  let currentTime := or_else (default NaN (v_currentTime v)) (num 0) in
  let duration := or_else (v_duration v) (num 0) in
  let volume := or_else (default NaN (v_volume v)) (num 1) in
  let muted := default false (v_muted v) in
  {| Background.sd_title :=
       Background.str_or (default EmptyString (trackName page)) "Unknown Track"
       +:+ " - "
       +:+ Background.str_or (default EmptyString (artistName page)) "Unknown Artist";
     Background.sd_artworkUrl := None;
     Background.sd_state := Some
       {| Background.paused := negb isPlaying;
          Background.muted := muted;
          Background.volume := volume;
          Background.currentTime := currentTime;
          Background.duration := duration;
          Background.canSeek := gt duration (num 0);
          Background.ended := false |} |}.

(** The [sessionData] that [sendUpdate] builds for a native element. *)
Definition nativeSessionData (page : Page) (element : MediaElement)
    : Background.SessionData :=
  let state :=
    {| Background.paused := paused element;
       Background.muted := muted element;
       Background.volume := volume element;
       Background.currentTime := or_else (currentTime element) (num 0);
       Background.duration := or_else (duration element) (num 0);
       Background.canSeek := (0 <? seekableLength element)%nat;
       Background.ended := ended element |} in
  let title :=
    match metadata page with
    | Some (t, _) => Background.str_or t (documentTitle page)
    | None => documentTitle page
    end in
  let artworkUrl :=
    match metadata page with
    | Some (_, a :: _) => Some a
    | _ => None
    end in
  {| Background.sd_title := title; Background.sd_artworkUrl := artworkUrl;
     Background.sd_state := Some state |}.

(** *** Attaching and detaching *)

Inductive EventType : Type :=
| play | pause | timeupdate | durationchange | volumechange | seeked
| emptied | ended_event.

Global Instance EventType_eq_dec : EqDecision EventType.
Proof. solve_decision. Defined.

Inductive Method : Type := handleMediaEvent_m | handleTimeUpdate_m.

(** A function object made by [this.method.bind(this)]: every call of
    [bind] makes a new object, [fn_id] is its identity. *)
Record BoundFn : Type := { fn_id : nat; fn_method : Method }.

(** One entry of an element's listener list. *)
Record Listener : Type := {
  on_node : nat;
  on_type : EventType;
  callback : BoundFn
}.

Inductive TimerAction : Type :=
| ThrottledSend        (* the 250ms callback of handleTimeUpdate *)
| RetryDiscovery.      (* the 2000ms callback of findAndAttachMedia *)

Inductive Handle : Type :=
| Native (n : nat)
| Virtual.

Record AgentState : Type := {
  mediaElement : option Handle;
  virtualElement : VirtualElement;
  updateThrottle : option nat;
  retryCount : nat;
  isVirtual : bool;
  seekInProgress : bool;              (* _seekInProgress *)
  listeners : list Listener;          (* listeners registered on media elements *)
  timers : list (nat * TimerAction);  (* pending timeouts *)
  nextId : nat;                       (* next fresh function or timer identity *)
  sent : list Background.SessionData  (* SESSION_UPDATE messages, oldest first *)
}.

Definition newAgent : AgentState :=
  {| mediaElement := None; virtualElement := newVirtualElement;
     updateThrottle := None; retryCount := 0; isVirtual := false;
     seekInProgress := false; listeners := []; timers := []; nextId := 0;
     sent := [] |}.

Definition set_mediaElement (st : AgentState) (h : option Handle) : AgentState :=
  {| mediaElement := h; virtualElement := virtualElement st;
     updateThrottle := updateThrottle st; retryCount := retryCount st;
     isVirtual := isVirtual st; seekInProgress := seekInProgress st;
     listeners := listeners st; timers := timers st; nextId := nextId st;
     sent := sent st |}.

Definition set_throttle (st : AgentState) (t : option nat)
    (tm : list (nat * TimerAction)) (next : nat) : AgentState :=
  {| mediaElement := mediaElement st; virtualElement := virtualElement st;
     updateThrottle := t; retryCount := retryCount st;
     isVirtual := isVirtual st; seekInProgress := seekInProgress st;
     listeners := listeners st; timers := tm; nextId := next;
     sent := sent st |}.

Definition set_listeners (st : AgentState) (ls : list Listener) (next : nat)
    : AgentState :=
  {| mediaElement := mediaElement st; virtualElement := virtualElement st;
     updateThrottle := updateThrottle st; retryCount := retryCount st;
     isVirtual := isVirtual st; seekInProgress := seekInProgress st;
     listeners := ls; timers := timers st; nextId := next;
     sent := sent st |}.

Definition push_sent (st : AgentState) (d : Background.SessionData) : AgentState :=
  {| mediaElement := mediaElement st; virtualElement := virtualElement st;
     updateThrottle := updateThrottle st; retryCount := retryCount st;
     isVirtual := isVirtual st; seekInProgress := seekInProgress st;
     listeners := listeners st; timers := timers st; nextId := nextId st;
     sent := sent st ++ [d] |}.

Definition same_listener (n : nat) (ty : EventType) (f : BoundFn) (l : Listener)
    : bool :=
  (on_node l =? n)%nat && bool_decide (on_type l = ty)
  && (fn_id (callback l) =? fn_id f)%nat.

(** [element.addEventListener(type, fn)]: a callback already registered
    for the type is not added twice. *)
Definition addEventListener (ls : list Listener) (n : nat) (ty : EventType)
    (f : BoundFn) : list Listener :=
  if existsb (same_listener n ty f) ls then ls
  else ls ++ [{| on_node := n; on_type := ty; callback := f |}].

(** [element.removeEventListener(type, fn)]: removes the entry whose
    callback is the very object [fn]. *)
Definition removeEventListener (ls : list Listener) (n : nat) (ty : EventType)
    (f : BoundFn) : list Listener :=
  List.filter (fun l => negb (same_listener n ty f l)) ls.

Definition find_element (page : Page) (n : nat) : option MediaElement :=
  List.find (fun e => (node e =? n)%nat) (elements page).

Definition sendSpotifyUpdate (st : AgentState) (page : Page) : AgentState :=
  let sessionData := spotifySessionData page (virtualElement st) in
  if seekInProgress st then st else push_sent st sessionData.

(** [page] lists every media element object, so the lookup of an attached
    element succeeds. *)
Definition sendUpdate (st : AgentState) (page : Page) : AgentState :=
  match mediaElement st with
  | None => st
  | Some h =>
      if seekInProgress st then st
      else if isVirtual st then sendSpotifyUpdate st page
      else match h with
           | Native n =>
               match find_element page n with
               | Some element => push_sent st (nativeSessionData page element)
               | None => st
               end
           | Virtual => st
           end
  end.

Definition detachFromElement (st : AgentState) : AgentState :=
  let st :=
    match mediaElement st with
    | Some (Native n) =>
        let f1 := {| fn_id := nextId st; fn_method := handleMediaEvent_m |} in
        let ls := removeEventListener (listeners st) n play f1 in
        let f2 := {| fn_id := S (nextId st); fn_method := handleMediaEvent_m |} in
        let ls := removeEventListener ls n pause f2 in
        set_listeners st ls (S (S (nextId st)))
    | _ => st
    end in
  let st := set_mediaElement st None in
  match updateThrottle st with
  | Some t =>
      set_throttle st None
        (List.filter (fun tm => negb (fst tm =? t)%nat) (timers st)) (nextId st)
  | None => st
  end.

(** The eight [addEventListener] calls of [attachToElement], each with a
    fresh bound function. *)
Definition subscriptions : list (EventType * Method) :=
  [ (play, handleMediaEvent_m); (pause, handleMediaEvent_m);
    (timeupdate, handleTimeUpdate_m); (durationchange, handleMediaEvent_m);
    (volumechange, handleMediaEvent_m); (seeked, handleMediaEvent_m);
    (emptied, handleMediaEvent_m); (ended_event, handleMediaEvent_m) ].

Definition subscribe (n : nat) (st : AgentState) (s : EventType * Method)
    : AgentState :=
  let f := {| fn_id := nextId st; fn_method := snd s |} in
  set_listeners st (addEventListener (listeners st) n (fst s) f) (S (nextId st)).

Definition attachToElement (st : AgentState) (page : Page) (element : Handle)
    : AgentState :=
  let st := detachFromElement st in
  let st := set_mediaElement st (Some element) in
  let st :=
    match element with
    | Native n => fold_left (subscribe n) subscriptions st
    | Virtual => st
    end in
  sendUpdate st page.

Definition handleMediaEvent (st : AgentState) (page : Page) : AgentState :=
  if isVirtual st then st else sendUpdate st page.

Definition handleTimeUpdate (st : AgentState) : AgentState :=
  match updateThrottle st with
  | Some _ => st
  | None =>
      if isVirtual st then st
      else set_throttle st (Some (nextId st))
             (timers st ++ [(nextId st, ThrottledSend)]) (S (nextId st))
  end.

Definition invoke (page : Page) (st : AgentState) (l : Listener) : AgentState :=
  match fn_method (callback l) with
  | handleMediaEvent_m => handleMediaEvent st page
  | handleTimeUpdate_m => handleTimeUpdate st
  end.

(** The browser fires an event of type [ty] on node [n]: the listeners
    registered for it run in order of registration. *)
Definition dispatchEvent (st : AgentState) (page : Page) (n : nat)
    (ty : EventType) : AgentState :=
  fold_left (invoke page)
    (List.filter (fun l => (on_node l =? n)%nat && bool_decide (on_type l = ty))
       (listeners st))
    st.

(** [findAndAttachMedia] on the agent's state.  Starting the Spotify
    monitor after the virtual element is attached is not part of the
    model. *)
Definition findAndAttachMedia (st : AgentState) (page : Page) : AgentState :=
  match discover (elements page) (isSpotify page) (retryCount st) with
  | CreateVirtual =>
      let st :=
        {| mediaElement := mediaElement st; virtualElement := newVirtualElement;
           updateThrottle := updateThrottle st; retryCount := retryCount st;
           isVirtual := true; seekInProgress := seekInProgress st;
           listeners := listeners st; timers := timers st; nextId := nextId st;
           sent := sent st |} in
      attachToElement st page Virtual
  | AttachTo bestElement => attachToElement st page (Native (node bestElement))
  | RetryLater =>
      {| mediaElement := mediaElement st; virtualElement := virtualElement st;
         updateThrottle := updateThrottle st; retryCount := S (retryCount st);
         isVirtual := isVirtual st; seekInProgress := seekInProgress st;
         listeners := listeners st;
         timers := timers st ++ [(nextId st, RetryDiscovery)];
         nextId := S (nextId st); sent := sent st |}
  | GiveUp => st
  end.

(** A timer of the agent fires. *)
Definition fireTimer (st : AgentState) (page : Page) (t : nat) : AgentState :=
  match List.find (fun tm => (fst tm =? t)%nat) (timers st) with
  | None => st
  | Some (_, action) =>
      let st := set_throttle st (updateThrottle st)
                  (List.filter (fun tm => negb (fst tm =? t)%nat) (timers st))
                  (nextId st) in
      match action with
      | ThrottledSend =>
          let st := sendUpdate st page in
          set_throttle st None (timers st) (nextId st)
      | RetryDiscovery => findAndAttachMedia st page
      end
  end.

(** The identities handed out so far are below [nextId]. *)
Definition ids_fresh (st : AgentState) : Prop :=
  forall l, In l (listeners st) -> (fn_id (callback l) < nextId st)%nat.

(** The listeners still registered on node [n]. *)
Definition listenersOn (st : AgentState) (n : nat) : list Listener :=
  List.filter (fun l => (on_node l =? n)%nat) (listeners st).

(** A page with two media elements, nodes 1 and 2. *)
Definition twoVideos : Page :=
  let video n playing :=
    {| node := n; tagName := "VIDEO"; disableRemotePlayback := false;
       readyState := 4; paused := negb playing; muted := false;
       volume := num 1; currentTime := num 5; duration := num 600;
       offsetWidth := 640; offsetHeight := 360; src := "movie.mp4";
       childrenLength := 0; seekableLength := 1; ended := false |} in
  {| elements := [video 1%nat false; video 2%nat true];
     documentTitle := "Videos"; metadata := None; isSpotify := false;
     trackName := None; artistName := None; pauseButton := false;
     playButton := false; progressTimeText := None; durationTimeText := None |}.

(** *** Commands and further events *)

Definition set_seekInProgress (st : AgentState) (b : bool) : AgentState :=
  {| mediaElement := mediaElement st; virtualElement := virtualElement st;
     updateThrottle := updateThrottle st; retryCount := retryCount st;
     isVirtual := isVirtual st; seekInProgress := b;
     listeners := listeners st; timers := timers st; nextId := nextId st;
     sent := sent st |}.

(** [handleControlCommand('beginSeek')]; like every command it is ignored
    while no element is attached. *)
Definition beginSeek (st : AgentState) : AgentState :=
  match mediaElement st with
  | None => st
  | Some _ => set_seekInProgress st true
  end.

(** [handleControlCommand('endSeek')] *)
Definition endSeek (st : AgentState) (page : Page) : AgentState :=
  match mediaElement st with
  | None => st
  | Some _ => sendUpdate (set_seekInProgress st false) page
  end.

(** The target of the [seek] command on a native element:
    [Math.max(0, Math.min(element.duration || Infinity,
    element.currentTime + delta))] with [delta = params.delta || 0]. *)
Definition seekTarget (element : MediaElement) (delta : jsnum) : jsnum :=
  let delta := or_else delta (num 0) in
  max (num 0) (min (or_else (duration element) PInf)
                   (add (currentTime element) delta)).

(** The target of the [setTime] command on a native element. *)
Definition setTimeTarget (element : MediaElement) (time : jsnum) : jsnum :=
  max (num 0) (min (or_else (duration element) PInf) time).

(** The volume that the [setVolume] command assigns to a native element. *)
Definition clampVolume (volume : jsnum) : jsnum :=
  max (num 0) (min (num 1) volume).

(** The volume detection of [checkSpotifyState]: [volInput] holds what
    [parseFloat] makes of the slider's [min], [max] and [value], and is
    [None] when the page has no volume slider. *)
Definition detectVolume (mn mx val : jsnum) : jsnum :=
  let mn := or_else mn (num 0) in
  let mx := or_else mx (num 100) in
  let detectedVolume := div (sub val mn) (or_else (sub mx mn) (num 1)) in
  max (num 0) (min (num 1) detectedVolume).

Definition detectSpotifyVolume (volInput : option (jsnum * jsnum * jsnum))
    (v : VirtualElement) : VirtualElement :=
  match volInput with
  | Some (mn, mx, val) =>
      {| v_paused := v_paused v; v_currentTime := v_currentTime v;
         v_duration := v_duration v;
         v_volume := Some (detectVolume mn mx val); v_muted := v_muted v |}
  | None => v
  end.


(** What happens to the agent, one event at a time. *)
Inductive AgentEvent : Type :=
| ElementEvent (n : nat) (ty : EventType)  (* a media event on node n *)
| TimerFired (t : nat)
| NodesAdded          (* the mutation observer saw a new media element *)
| BeginSeekCommand
| EndSeekCommand.

(** The callback of [observeMediaElements] when it found new media: a
    discovery run is scheduled unless the agent is in virtual mode. *)
Definition nodesAdded (st : AgentState) : AgentState :=
  if isVirtual st then st
  else set_throttle st (updateThrottle st)
         (timers st ++ [(nextId st, RetryDiscovery)]) (S (nextId st)).

Definition agent_step (st : AgentState) (ev : AgentEvent * Page) : AgentState :=
  match fst ev with
  | ElementEvent n ty => dispatchEvent st (snd ev) n ty
  | TimerFired t => fireTimer st (snd ev) t
  | NodesAdded => nodesAdded st
  | BeginSeekCommand => beginSeek st
  | EndSeekCommand => endSeek st (snd ev)
  end.

Definition agent_run (st : AgentState) (evs : list (AgentEvent * Page)) : AgentState :=
  fold_left agent_step evs st.

Definition not_endSeek (ev : AgentEvent * Page) : Prop :=
  match fst ev with EndSeekCommand => False | _ => True end.

(** The identities of the pending timers are below [nextId]. *)
Definition timers_fresh (st : AgentState) : Prop :=
  forall tm, In tm (timers st) -> (fst tm < nextId st)%nat.

(** All characters are decimal digits. *)
Fixpoint digits_only (s : string) : bool :=
  match s with
  | EmptyString => true
  | String c s' => is_digit c && digits_only s'
  end.

(** All characters are decimal digits or colons. *)
Fixpoint clock_text (s : string) : bool :=
  match s with
  | EmptyString => true
  | String c s' => (is_digit c || is_colon c) && clock_text s'
  end.

End Agent.

(** ** popup.js: the control surface *)

Module Popup.

Import JS.
Import Background (Session, PlaybackState, JsMap, map_get, map_set, map_delete,
                   map_values).

(** An entry of [optimisticStates]. *)
Record OptState : Type := { opt_paused : bool; opt_timestamp : Z }.

Inductive Verb : Type :=
| toggle
| seek (delta : Z)
| setTime (time : jsnum)
| setVolume (volume : jsnum)
| mute
| previousTrack
| nextTrack
| beginSeek
| endSeek.

(** The [data] of a [CONTROL_COMMAND] posted on the port. *)
Record Command : Type := { cmd_sessionId : string; cmd : Verb }.

(** What the background posts on the port. *)
Inductive Message : Type :=
| SESSIONS_INIT (sessions : list Session)
| SESSION_UPDATED (session : Session)
| SESSION_REMOVED (sessionId : string).

(** The progress part of a card: the [width] of [.progress-fill] and the
    [left] of [.progress-handle] as the percentage written ([None] while
    never written), and the two time labels. *)
Record Progress : Type := {
  fillWidth : option jsnum;
  handleLeft : option jsnum;
  currentTimeText : string;
  durationText : string
}.

(** A [.session-card] element, reduced to what the script writes and reads
    back (the site name, icon and artwork are written from the session and
    never read, and are left out).  [captured] is the session object that
    the card's listeners closed over in [createSessionCard]. *)
Record Card : Type := {
  sessionId : string;          (* dataset.sessionId *)
  captured : nat;
  titleText : string;
  artistText : string;
  playButtonShowsPlay : bool;  (* the toggle button shows the play icon *)
  sliderValue : jsnum;         (* .volume-slider value *)
  muteIconMuted : bool;
  progress : Progress;
  dragging : bool              (* .progress-bar has class dragging *)
}.

(** Session objects and card elements live in two heaps; a reference is an
    index.  [sessions] maps an id to a session object, [children] are the
    cards under [sessionsList] in document order.  [docListeners] holds,
    for every run of [startDrag] whose [onEnd] has not run, the identity of
    its pair of closures and the card they closed over. *)
Record State : Type := {
  heap : list Session;
  sessions : JsMap nat;
  optimisticStates : gmap string OptState;
  cardHeap : list Card;
  children : list nat;
  listHidden : bool;
  docListeners : list (nat * nat);
  nextClosure : nat;
  activeSlider : option nat;   (* the card whose volume slider has focus *)
  port : bool;                 (* this.port is set *)
  posted : list Command        (* port.postMessage log, oldest first *)
}.

Definition set_heap (P : State) (h : list Session) : State :=
  {| heap := h; sessions := sessions P; optimisticStates := optimisticStates P;
     cardHeap := cardHeap P; children := children P; listHidden := listHidden P;
     docListeners := docListeners P; nextClosure := nextClosure P;
     activeSlider := activeSlider P; port := port P; posted := posted P |}.

Definition set_sessions (P : State) (m : JsMap nat) : State :=
  {| heap := heap P; sessions := m; optimisticStates := optimisticStates P;
     cardHeap := cardHeap P; children := children P; listHidden := listHidden P;
     docListeners := docListeners P; nextClosure := nextClosure P;
     activeSlider := activeSlider P; port := port P; posted := posted P |}.

Definition set_optimisticStates (P : State) (o : gmap string OptState) : State :=
  {| heap := heap P; sessions := sessions P; optimisticStates := o;
     cardHeap := cardHeap P; children := children P; listHidden := listHidden P;
     docListeners := docListeners P; nextClosure := nextClosure P;
     activeSlider := activeSlider P; port := port P; posted := posted P |}.

Definition set_cardHeap (P : State) (c : list Card) : State :=
  {| heap := heap P; sessions := sessions P; optimisticStates := optimisticStates P;
     cardHeap := c; children := children P; listHidden := listHidden P;
     docListeners := docListeners P; nextClosure := nextClosure P;
     activeSlider := activeSlider P; port := port P; posted := posted P |}.

Definition set_children (P : State) (c : list nat) : State :=
  {| heap := heap P; sessions := sessions P; optimisticStates := optimisticStates P;
     cardHeap := cardHeap P; children := c; listHidden := listHidden P;
     docListeners := docListeners P; nextClosure := nextClosure P;
     activeSlider := activeSlider P; port := port P; posted := posted P |}.

Definition set_listHidden (P : State) (b : bool) : State :=
  {| heap := heap P; sessions := sessions P; optimisticStates := optimisticStates P;
     cardHeap := cardHeap P; children := children P; listHidden := b;
     docListeners := docListeners P; nextClosure := nextClosure P;
     activeSlider := activeSlider P; port := port P; posted := posted P |}.

Definition set_docListeners (P : State) (l : list (nat * nat)) (next : nat) : State :=
  {| heap := heap P; sessions := sessions P; optimisticStates := optimisticStates P;
     cardHeap := cardHeap P; children := children P; listHidden := listHidden P;
     docListeners := l; nextClosure := next;
     activeSlider := activeSlider P; port := port P; posted := posted P |}.

Definition set_posted (P : State) (l : list Command) : State :=
  {| heap := heap P; sessions := sessions P; optimisticStates := optimisticStates P;
     cardHeap := cardHeap P; children := children P; listHidden := listHidden P;
     docListeners := docListeners P; nextClosure := nextClosure P;
     activeSlider := activeSlider P; port := port P; posted := l |}.

Definition set_paused (st : PlaybackState) (b : bool) : PlaybackState :=
  {| Background.paused := b; Background.muted := Background.muted st;
     Background.volume := Background.volume st;
     Background.currentTime := Background.currentTime st;
     Background.duration := Background.duration st;
     Background.canSeek := Background.canSeek st;
     Background.ended := Background.ended st |}.

(** [session.state.paused = b] *)
Definition set_session_paused (s : Session) (b : bool) : Session :=
  {| Background.id := Background.id s; Background.tabId := Background.tabId s;
     Background.frameId := Background.frameId s;
     Background.title := Background.title s; Background.url := Background.url s;
     Background.favIconUrl := Background.favIconUrl s;
     Background.artworkUrl := Background.artworkUrl s;
     Background.state := set_paused (Background.state s) b;
     Background.lastActiveAt := Background.lastActiveAt s |}.

Definition sendControlCommand (P : State) (sessionId : string) (c : Verb) : State :=
  if port P
  then set_posted P (posted P ++ [{| cmd_sessionId := sessionId; cmd := c |}])
  else P.

(** *** Rendering helpers *)

Definition Qtrunc (q : Q) : Z := if Qle_bool 0 q then Qfloor q else Qceiling q.

(** [s.padStart(2, '0')] *)
Definition padStart2 (s : string) : string :=
  match s with
  | String c EmptyString => String "0" s
  | EmptyString => "00"
  | _ => s
  end.

(** [formatTime].  The minutes are printed digit by digit, as [toString]
    prints a whole number below [10^21]. *)
Definition formatTime (seconds : jsnum) : string :=
  if negb (truthy seconds) || isNaN seconds then "0:00" else
  match seconds with
  | Fin q =>
      let m := Qfloor (q / 60) in
      let s := Qfloor (q - 60 * inject_Z (Qtrunc (q / 60))) in
      pretty m +:+ ":" +:+ padStart2 (pretty s)
  | PInf => "Infinity:NaN"
  | NInf => "-Infinity:NaN"
  | NaN => "0:00"
  end.

Fixpoint drop_chars (n : nat) (s : string) : string :=
  match n, s with
  | S n', String _ s' => drop_chars n' s'
  | _, _ => s
  end.

(** The text before and after the first occurrence of [sep] in [s]. *)
Fixpoint splitFirst (sep s : string) : option (string * string) :=
  if String.prefix sep s then Some (EmptyString, drop_chars (String.length sep) s)
  else match s with
       | EmptyString => None
       | String c s' =>
           match splitFirst sep s' with
           | Some (a, b) => Some (String c a, b)
           | None => None
           end
       end.

(** [parseMetadata]: [parts[0]] and [parts.slice(1).join(separator)] are
    the text before and after the first separator. *)
Definition parseMetadata (title : string) : string * string :=
  match title with
  | EmptyString => ("Unknown Title", "Unknown Artist")
  | _ =>
      match splitFirst " - " title with
      | Some (t, a) => (t, a)
      | None => (title, EmptyString)
      end
  end.

(** Assigning the text [v + '%'] to a length of an element's style: a text
    that is no percentage ([NaN%], [Infinity%]) is refused and the property
    keeps the value [old]; [width] refuses a negative percentage too, [left]
    takes it. *)
Definition setPercent (signed : bool) (old : option jsnum) (v : jsnum)
    : option jsnum :=
  match v with
  | Fin q => if signed || Qle_bool 0 q then Some v else old
  | _ => old
  end.

Definition updateProgressBarVisuals (p : Progress) (state : PlaybackState) : Progress :=
  if negb (truthy (Background.duration state))
  then {| fillWidth := Some (num 0); handleLeft := Some (num 0);
          currentTimeText := currentTimeText p; durationText := durationText p |}
  else
    let pct := mul (div (Background.currentTime state) (Background.duration state))
                   (num 100) in
    {| fillWidth := setPercent false (fillWidth p) pct;
       handleLeft := setPercent true (handleLeft p) pct;
       currentTimeText := formatTime (Background.currentTime state);
       durationText := formatTime (Background.duration state) |}.

(** [updateSessionCardDOM] on the card element itself; [focused] says
    whether the card's volume slider is [document.activeElement]. *)
Definition renderCard (focused : bool) (card : Card) (session : Session) : Card :=
  let '(title, artist) := parseMetadata (Background.title session) in
  let isPaused := Background.paused (Background.state session) in
  {| sessionId := sessionId card; captured := captured card;
     titleText := title; artistText := artist;
     playButtonShowsPlay := isPaused;
     sliderValue := if focused then sliderValue card
                    else Background.volume (Background.state session);
     muteIconMuted := Background.muted (Background.state session);
     progress := if negb (dragging card)
                 then updateProgressBarVisuals (progress card) (Background.state session)
                 else progress card;
     dragging := dragging card |}.

Definition updateSessionCardDOM (P : State) (card session : nat) : State :=
  match cardHeap P !! card, heap P !! session with
  | Some c, Some s =>
      set_cardHeap P
        (<[card := renderCard (bool_decide (activeSlider P = Some card)) c s]>
           (cardHeap P))
  | _, _ => P
  end.

(** [sessionsList.querySelector('[data-session-id=...]')]: the first child
    card with that id. *)
Definition findCard (P : State) (sid : string) : option nat :=
  List.find
    (fun r => match cardHeap P !! r with
              | Some c => String.eqb (sessionId c) sid
              | None => false
              end)
    (children P).

(** The element [createSessionCard] builds from its HTML template, before
    [updateSessionCardDOM] fills it in (a range input from 0 to 1 starts
    in the middle). *)
Definition blankCard (sid : string) (session : nat) : Card :=
  {| sessionId := sid; captured := session;
     titleText := EmptyString; artistText := EmptyString;
     playButtonShowsPlay := false; sliderValue := Fin (1 # 2);
     muteIconMuted := false;
     progress := {| fillWidth := None; handleLeft := None;
                    currentTimeText := "0:00"; durationText := "0:00" |};
     dragging := false |}.

(** [createSessionCard]: the new card's reference and the state holding it. *)
Definition createSessionCard (P : State) (session : nat) : nat * State :=
  let sid := match heap P !! session with
             | Some s => Background.id s
             | None => EmptyString
             end in
  let card := length (cardHeap P) in
  let P := set_cardHeap P (cardHeap P ++ [blankCard sid session]) in
  (card, updateSessionCardDOM P card session).

Definition updateSessionCard (P : State) (session : nat) : State :=
  match heap P !! session with
  | Some s =>
      match findCard P (Background.id s) with
      | Some card => updateSessionCardDOM P card session
      | None => P
      end
  | None => P
  end.

(** The comparator of [renderSessions]: playing first, then the most
    recently active. *)
Definition compareSessions (a b : Session) : Z :=
  let aPlaying := if negb (Background.paused (Background.state a)) then 1 else 0 in
  let bPlaying := if negb (Background.paused (Background.state b)) then 1 else 0 in
  if negb (bPlaying =? aPlaying) then bPlaying - aPlaying
  else Background.lastActiveAt b - Background.lastActiveAt a.

Definition compareRefs (h : list Session) (a b : nat) : Z :=
  match h !! a, h !! b with
  | Some x, Some y => compareSessions x y
  | _, _ => 0
  end.

(** [Array.prototype.sort] is stable; a stable insertion sort stands for it. *)
Fixpoint insertSorted (cmp : nat -> nat -> Z) (x : nat) (l : list nat) : list nat :=
  match l with
  | [] => [x]
  | y :: t => if cmp x y <? 0 then x :: y :: t else y :: insertSorted cmp x t
  end.

Definition sortRefs (cmp : nat -> nat -> Z) (l : list nat) : list nat :=
  fold_left (fun acc x => insertSorted cmp x acc) l [].

Definition sessionIdOfRef (P : State) (r : nat) : string :=
  match heap P !! r with
  | Some s => Background.id s
  | None => EmptyString
  end.

(** The body of the last loop of [renderSessions]. *)
Definition renderOne (P : State) (session : nat) : State :=
  match findCard P (sessionIdOfRef P session) with
  | None =>
      let '(card, P) := createSessionCard P session in
      set_children P (children P ++ [card])
  | Some card =>
      let P := set_children P
                 (List.filter (fun r => negb (r =? card)%nat) (children P) ++ [card]) in
      updateSessionCardDOM P card session
  end.

Definition renderSessions (P : State) (sessions : list nat) : State :=
  let newIds := map (sessionIdOfRef P) sessions in
  let keep r := match cardHeap P !! r with
                | Some c => existsb (String.eqb (sessionId c)) newIds
                | None => false
                end in
  let P := set_children P (List.filter keep (children P)) in
  let sorted := sortRefs (compareRefs (heap P)) sessions in
  fold_left renderOne sorted P.

Definition updateDisplay (P : State) : State :=
  let sessionsToShow := map_values (sessions P) in
  match sessionsToShow with
  | [] => set_listHidden P true
  | _ => renderSessions (set_listHidden P false) sessionsToShow
  end.

(** [this.sessions.set(session.id, session)] for a session object that
    arrived in a message: the object is new. *)
Definition storeSession (P : State) (session : Session) : State :=
  let r := length (heap P) in
  set_sessions (set_heap P (heap P ++ [session]))
    (map_set (Background.id session) r (sessions P)).

(** [handleBackgroundMessage]; [now] is [Date.now()].  [popup.js] defines
    no [removeSessionCard], so the call in the [SESSION_REMOVED] case throws
    after the two deletions. *)
Definition handleBackgroundMessage (P : State) (message : Message) (now : Z) : State :=
  match message with
  | SESSIONS_INIT l =>
      let P := set_sessions P [] in
      updateDisplay (fold_left storeSession l P)
  | SESSION_UPDATED session =>
      let sid := Background.id session in
      let optState := optimisticStates P !! sid in
      let '(session, P) :=
        match optState with
        | Some o =>
            if now - opt_timestamp o <? 1000
            then (set_session_paused session (opt_paused o), P)
            else (session, set_optimisticStates P (delete sid (optimisticStates P)))
        | None => (session, set_optimisticStates P (delete sid (optimisticStates P)))
        end in
      let r := length (heap P) in
      let P := storeSession P session in
      let P := updateSessionCard P r in
      updateDisplay P
  | SESSION_REMOVED sid =>
      let P := set_sessions P (map_delete sid (sessions P)) in
      set_optimisticStates P (delete sid (optimisticStates P))
  end.

(** [handleToggle(session, btn)] for the toggle button of [card]. *)
Definition handleToggle (P : State) (card : nat) (now : Z) : State :=
  match cardHeap P !! card with
  | None => P
  | Some c =>
      match heap P !! captured c with
      | None => P
      | Some session =>
          let newPausedState := negb (Background.paused (Background.state session)) in
          let P := set_heap P (<[captured c := set_session_paused session newPausedState]>
                                 (heap P)) in
          let P := set_optimisticStates P
                     (<[Background.id session :=
                          {| opt_paused := newPausedState; opt_timestamp := now |}]>
                        (optimisticStates P)) in
          let P := updateSessionCardDOM P card (captured c) in
          sendControlCommand P (Background.id session) toggle
      end
  end.

(** *** Drag to seek *)

(** A pointer event as [onMove] reads it: [clientX] is [moveEvent.clientX]
    ([NaN] standing for [undefined], as on a touch event), [touchX] is
    [moveEvent.touches[0].clientX] ([None] when the event has no [touches],
    as on a mouse event); with them the bounding rectangle of each card's
    progress bar. *)
Record Pointer : Type := {
  clientX : jsnum;
  touchX : option jsnum;
  rectLeft : nat -> jsnum;
  rectWidth : nat -> jsnum
}.

(** [moveEvent.clientX || (moveEvent.touches && moveEvent.touches[0].clientX)]
    as a number: [undefined] is [NaN] in the subtraction that follows. *)
Definition pointerX (e : Pointer) : jsnum :=
  if truthy (clientX e) then clientX e else default NaN (touchX e).

Definition onMove (P : State) (card : nat) (e : Pointer) : State :=
  match cardHeap P !! card with
  | None => P
  | Some c =>
      match heap P !! captured c with
      | None => P
      | Some session =>
          let x := max (num 0) (min (sub (pointerX e) (rectLeft e card))
                                    (rectWidth e card)) in
          let pct := div x (rectWidth e card) in
          let time := mul pct (Background.duration (Background.state session)) in
          let p := {| fillWidth := setPercent false (fillWidth (progress c))
                                     (mul pct (num 100));
                      handleLeft := setPercent true (handleLeft (progress c))
                                      (mul pct (num 100));
                      currentTimeText := formatTime time;
                      durationText := durationText (progress c) |} in
          set_cardHeap P
            (<[card := {| sessionId := sessionId c; captured := captured c;
                          titleText := titleText c; artistText := artistText c;
                          playButtonShowsPlay := playButtonShowsPlay c;
                          sliderValue := sliderValue c;
                          muteIconMuted := muteIconMuted c;
                          progress := p; dragging := dragging c |}]> (cardHeap P))
      end
  end.

Definition set_dragging (c : Card) (b : bool) : Card :=
  {| sessionId := sessionId c; captured := captured c;
     titleText := titleText c; artistText := artistText c;
     playButtonShowsPlay := playButtonShowsPlay c; sliderValue := sliderValue c;
     muteIconMuted := muteIconMuted c; progress := progress c; dragging := b |}.

(** [startDrag]: [mousedown] or [touchstart] on the progress bar of [card]. *)
Definition startDrag (P : State) (card : nat) (e : Pointer) : State :=
  match cardHeap P !! card with
  | None => P
  | Some c =>
      match heap P !! captured c with
      | None => P
      | Some session =>
          if negb (truthy (Background.duration (Background.state session))) then P
          else
            let P := set_cardHeap P (<[card := set_dragging c true]> (cardHeap P)) in
            let P := sendControlCommand P (Background.id session) beginSeek in
            let P := set_docListeners P (docListeners P ++ [(nextClosure P, card)])
                       (S (nextClosure P)) in
            onMove P card e
      end
  end.

(** [onEnd] of the closure pair [k] made for [card]. *)
Definition onEnd (P : State) (k card : nat) : State :=
  match cardHeap P !! card with
  | None => P
  | Some c =>
      match heap P !! captured c with
      | None => P
      | Some session =>
          let P := set_cardHeap P (<[card := set_dragging c false]> (cardHeap P)) in
          let P := set_docListeners P
                     (List.filter (fun kc => negb (fst kc =? k)%nat) (docListeners P))
                     (nextClosure P) in
          let pct := div (default NaN (fillWidth (progress c))) (num 100) in
          let finalTime := mul pct (Background.duration (Background.state session)) in
          let P := sendControlCommand P (Background.id session) (setTime finalTime) in
          sendControlCommand P (Background.id session) endSeek
      end
  end.

(** [mousemove] or [touchmove] on the document: every registered [onMove] runs. *)
Definition documentMove (P : State) (e : Pointer) : State :=
  fold_left (fun P kc => onMove P (snd kc) e) (docListeners P) P.

(** [mouseup] or [touchend] on the document: every registered [onEnd] runs. *)
Definition documentEnd (P : State) : State :=
  fold_left (fun P kc => onEnd P (fst kc) (snd kc)) (docListeners P) P.

(** The popup once [init] has connected the port. *)
Definition connected : State :=
  {| heap := []; sessions := []; optimisticStates := ∅; cardHeap := [];
     children := []; listHidden := false; docListeners := []; nextClosure := 0;
     activeSlider := None; port := true; posted := [] |}.

(** A session as the background broadcasts it. *)
Definition song (paused : bool) (time : Z) : Session :=
  {| Background.id := "7:0"; Background.tabId := 7; Background.frameId := 0;
     Background.title := "Song - Band"; Background.url := "https://example.org/";
     Background.favIconUrl := None; Background.artworkUrl := None;
     Background.state :=
       {| Background.paused := paused; Background.muted := false;
          Background.volume := num 1; Background.currentTime := num time;
          Background.duration := num 200; Background.canSeek := true;
          Background.ended := false |};
     Background.lastActiveAt := 1000 |}.

(** *** Events of the popup *)

Inductive Event : Type :=
| Inbound (message : Message)          (* a message on the port *)
| ClickToggle (card : nat)             (* click on the toggle button of a card *)
| PointerDown (card : nat) (e : Pointer)  (* mousedown or touchstart on a progress bar *)
| PointerMove (e : Pointer)            (* mousemove or touchmove on the document *)
| PointerUp.                           (* mouseup or touchend on the document *)

(** Handling one event at clock reading [now]. *)
Definition step (P : State) (ev : Event * Z) : State :=
  match fst ev with
  | Inbound message => handleBackgroundMessage P message (snd ev)
  | ClickToggle card => handleToggle P card (snd ev)
  | PointerDown card e => startDrag P card e
  | PointerMove e => documentMove P e
  | PointerUp => documentEnd P
  end.

Definition run (P : State) (evs : list (Event * Z)) : State := fold_left step evs P.

(** Events that neither start nor end a drag. *)
Definition during_drag (ev : Event * Z) : Prop :=
  match fst ev with
  | PointerDown _ _ | PointerUp => False
  | _ => True
  end.

(** Events that leave the optimistic entry of session [sid], written at
    [t], in place: anything but the removal of [sid] and a broadcast for
    [sid] handled 1000ms or more after [t]. *)
Definition within_window (sid : string) (t : Z) (ev : Event * Z) : Prop :=
  match fst ev with
  | Inbound (SESSION_UPDATED m) => Background.id m = sid -> snd ev - t < 1000
  | Inbound (SESSION_REMOVED k) => k <> sid
  | Inbound (SESSIONS_INIT _) => True
  | ClickToggle _ => False
  | _ => True
  end.

(** The id of the session whose paused flag a click on the toggle button
    of [card] flips: that of the session object the card's listeners
    closed over. *)
Definition toggledSession (P : State) (card : nat) : option string :=
  match cardHeap P !! card with
  | Some c =>
      match heap P !! captured c with
      | Some session => Some (Background.id session)
      | None => None
      end
  | None => None
  end.

(** [ev], handled in state [P], is not a click on the toggle button of a
    card of session [sid]. *)
Definition no_toggle_of (sid : string) (P : State) (ev : Event * Z) : Prop :=
  match fst ev with
  | ClickToggle card => toggledSession P card <> Some sid
  | _ => True
  end.

(** [ev] is not the [SESSION_REMOVED] message of session [sid]. *)
Definition no_removal_of (sid : string) (ev : Event * Z) : Prop :=
  match fst ev with
  | Inbound (SESSION_REMOVED k) => k <> sid
  | _ => True
  end.

(** [ok] holds of every event of a run from [P], in the state in which
    the event is handled. *)
Fixpoint throughout (ok : State -> Event * Z -> Prop) (P : State)
    (evs : list (Event * Z)) : Prop :=
  match evs with
  | [] => True
  | ev :: evs' => ok P ev /\ throughout ok (step P ev) evs'
  end.

(** [b] has every field of [a] but, possibly, the paused flag. *)
Definition same_but_paused (a b : Session) : Prop :=
  Background.id b = Background.id a
  /\ Background.tabId b = Background.tabId a
  /\ Background.frameId b = Background.frameId a
  /\ Background.title b = Background.title a
  /\ Background.url b = Background.url a
  /\ Background.favIconUrl b = Background.favIconUrl a
  /\ Background.artworkUrl b = Background.artworkUrl a
  /\ Background.lastActiveAt b = Background.lastActiveAt a
  /\ Background.muted (Background.state b) = Background.muted (Background.state a)
  /\ Background.volume (Background.state b) = Background.volume (Background.state a)
  /\ Background.currentTime (Background.state b)
     = Background.currentTime (Background.state a)
  /\ Background.duration (Background.state b)
     = Background.duration (Background.state a)
  /\ Background.canSeek (Background.state b)
     = Background.canSeek (Background.state a)
  /\ Background.ended (Background.state b) = Background.ended (Background.state a).

(** [P'] differs from [P] in what is rendered only. *)
Definition same_core (P P' : State) : Prop :=
  heap P' = heap P /\ sessions P' = sessions P
  /\ optimisticStates P' = optimisticStates P
  /\ docListeners P' = docListeners P /\ nextClosure P' = nextClosure P
  /\ activeSlider P' = activeSlider P /\ port P' = port P
  /\ posted P' = posted P.

(** Every card of [P] is still a card of [P'], for the same session, with
    the same closures and the same dragging flag. *)
Definition cards_kept (P P' : State) : Prop :=
  forall r c, cardHeap P !! r = Some c ->
    exists c', cardHeap P' !! r = Some c'
      /\ sessionId c' = sessionId c /\ captured c' = captured c
      /\ dragging c' = dragging c.

(** Moreover the progress part of every card that is being dragged is
    untouched. *)
Definition cards_frozen (P P' : State) : Prop :=
  forall r c, cardHeap P !! r = Some c ->
    exists c', cardHeap P' !! r = Some c'
      /\ sessionId c' = sessionId c /\ captured c' = captured c
      /\ dragging c' = dragging c
      /\ (dragging c = true -> progress c' = progress c).

(** What every rendering function guarantees. *)
Definition rendered (P P' : State) : Prop := same_core P P' /\ cards_frozen P P'.

(** Every session object of [P] is still there in [P'], with the same id
    and duration. *)
Definition heap_kept (P P' : State) : Prop :=
  forall r s, heap P !! r = Some s ->
    exists s', heap P' !! r = Some s'
      /\ Background.id s' = Background.id s
      /\ Background.duration (Background.state s')
         = Background.duration (Background.state s).

(** What handling an inbound message guarantees: dragged progress bars
    are untouched, no session object or drag listener is lost, and nothing
    is posted. *)
Definition quiet (P P' : State) : Prop :=
  cards_frozen P P' /\ heap_kept P P'
  /\ docListeners P' = docListeners P /\ nextClosure P' = nextClosure P
  /\ port P' = port P /\ posted P' = posted P.

(** What every event other than the start and the end of a drag
    guarantees. *)
Definition drag_safe (P P' : State) : Prop :=
  cards_kept P P' /\ heap_kept P P'
  /\ docListeners P' = docListeners P /\ port P' = port P.

(** *** Reading the popup's state *)

(** The [data-session-id] of a card element. *)
Definition cardIdOf (P : State) (r : nat) : string :=
  match cardHeap P !! r with
  | Some c => sessionId c
  | None => EmptyString
  end.

(** The ids of the cards shown, top to bottom. *)
Definition shownIds (P : State) : list string := map (cardIdOf P) (children P).

(** The order [renderSessions] asks for: no paused session above a playing
    one, and among sessions in the same play state the more recently
    active first. *)
Definition ordered (h : list Session) (a b : nat) : Prop :=
  match h !! a, h !! b with
  | Some x, Some y =>
      (Background.paused (Background.state x) = true ->
       Background.paused (Background.state y) = true)
      /\ (Background.paused (Background.state x)
          = Background.paused (Background.state y) ->
          Background.lastActiveAt y <= Background.lastActiveAt x)
  | _, _ => True
  end.

(** The two commands that [onEnd] of a pending drag posts, read off the
    state in which the pointer is released. *)
Definition endCommands (P : State) (kc : nat * nat) : list Command :=
  match cardHeap P !! snd kc with
  | Some c =>
      match heap P !! captured c with
      | Some session =>
          [{| cmd_sessionId := Background.id session;
              cmd := setTime
                       (mul (div (default NaN (fillWidth (progress c))) (num 100))
                            (Background.duration (Background.state session))) |};
           {| cmd_sessionId := Background.id session; cmd := endSeek |}]
      | None => []
      end
  | None => []
  end.

(** Every pending drag closure refers to a card whose session object
    exists. *)
Definition drags_valid (P : State) : Prop :=
  forall kc, In kc (docListeners P) ->
    exists c s, cardHeap P !! snd kc = Some c /\ heap P !! captured c = Some s.

(** Every card of [P] is still a card of [P'], for the same session id. *)
Definition ids_kept (P P' : State) : Prop :=
  forall r c, cardHeap P !! r = Some c ->
    exists c', cardHeap P' !! r = Some c' /\ sessionId c' = sessionId c.

(** [P'] has the sessions and the list of cards of [P]. *)
Definition list_kept (P P' : State) : Prop :=
  sessions P' = sessions P /\ children P' = children P
  /\ ids_kept P P' /\ heap_kept P P'.

(** The popup's map has one entry per id, the entry of an id refers to a
    session object with that id, the children of the list are card
    elements, and no two of them carry the same [data-session-id]. *)
Definition popup_inv (P : State) : Prop :=
  NoDup (map fst (sessions P))
  /\ (forall k r, In (k, r) (sessions P) ->
        exists s, heap P !! r = Some s /\ Background.id s = k)
  /\ Forall (fun r => is_Some (cardHeap P !! r)) (children P)
  /\ NoDup (shownIds P).

(** Whether a string holds a hyphen. *)
Fixpoint has_hyphen (s : string) : bool :=
  match s with
  | EmptyString => false
  | String c s' => Ascii.eqb c "-" || has_hyphen s'
  end.

End Popup.

(** * Properties of the coordinator *)

Section BackgroundFacts.

Import JS Background.

Lemma map_get_set_eq {V} (k : string) (v : V) (m : JsMap V) :
  map_get k (map_set k v m) = Some v.
Proof.
  induction m as [|[k' v'] m IH]; simpl.
  - now rewrite String.eqb_refl.
  - destruct (String.eqb k k') eqn:E; simpl; rewrite ?E, ?String.eqb_refl; auto.
Qed.

Lemma map_get_set_ne {V} (k k' : string) (v : V) (m : JsMap V) :
  k ≠ k' -> map_get k' (map_set k v m) = map_get k' m.
Proof.
  intros Hne. induction m as [|[k0 v0] m IH]; simpl.
  - destruct (String.eqb_spec k' k); congruence.
  - destruct (String.eqb_spec k k0) as [->|Hk]; simpl.
    + destruct (String.eqb_spec k' k0); congruence.
    + destruct (String.eqb_spec k' k0); auto.
Qed.

Lemma map_set_In {V} (k : string) (v : V) (m : JsMap V) (k' : string) (v' : V) :
  In (k', v') (map_set k v m) -> (k' = k /\ v' = v) \/ In (k', v') m.
Proof.
  induction m as [|[k0 v0] m IH]; simpl.
  - intros [H|[]]. inversion H; auto.
  - destruct (String.eqb_spec k k0) as [->|Hk]; simpl.
    + intros [H|H]; [inversion H; auto | auto].
    + intros [H|H]; [auto | destruct (IH H); auto].
Qed.

Lemma map_delete_In {V} (k : string) (m : JsMap V) (kv : string * V) :
  In kv (map_delete k m) <-> In kv m /\ fst kv ≠ k.
Proof.
  unfold map_delete. rewrite filter_In.
  destruct (String.eqb_spec k (fst kv)); simpl; split; intros [H1 H2];
    split; auto; congruence.
Qed.

Lemma map_get_In {V} (k : string) (v : V) (m : JsMap V) :
  map_get k m = Some v -> In (k, v) m.
Proof.
  induction m as [|[k' v'] m IH]; simpl; [discriminate|].
  destruct (String.eqb_spec k k') as [->|Hk].
  - intros [= ->]. auto.
  - auto.
Qed.

Lemma map_get_None {V} (k : string) (m : JsMap V) :
  map_get k m = None -> forall v, ~ In (k, v) m.
Proof.
  induction m as [|[k' v'] m IH]; simpl; [tauto|].
  destruct (String.eqb_spec k k') as [->|Hk]; [discriminate|].
  intros H v [E|HIn]; [inversion E; congruence | exact (IH H v HIn)].
Qed.

Lemma map_delete_absent {V} (k : string) (m : JsMap V) :
  map_get k m = None -> map_delete k m = m.
Proof.
  induction m as [|[k' v'] m IH]; simpl; [reflexivity|].
  destruct (String.eqb_spec k k') as [->|Hk]; [discriminate|].
  intros H. unfold map_delete in *. simpl.
  destruct (String.eqb_spec k k'); [congruence|]. simpl. now rewrite IH.
Qed.

(** The new record that [updateSession] stores for a snapshot. *)
Lemma updateSession_stored m d st tabId frameId tab now :
  sd_state d = Some st ->
  exists s,
    map_get (sessionIdOf tabId frameId)
      (sessions (fst (updateSession m d tabId frameId tab now))) = Some s
    /\ id s = sessionIdOf tabId frameId
    /\ state s = st
    /\ title s = str_or (sd_title d) (tab_title tab)
    /\ artworkUrl s = sd_artworkUrl d.
Proof.
  intros Hst. unfold updateSession. rewrite Hst.
  destruct (map_get _ (sessions m)) as [p|] eqn:Hprev; simpl.
  - destruct (paused (state p) && negb (paused st));
      match goal with |- context [if ?b then _ else _] => destruct b end;
      simpl; rewrite map_get_set_eq; eexists; split; try reflexivity;
      simpl; auto.
  - destruct (negb (paused st)); simpl; rewrite map_get_set_eq;
      eexists; split; try reflexivity; simpl; auto.
Qed.

Lemma updateSession_other m d tabId frameId tab now k :
  k ≠ sessionIdOf tabId frameId ->
  map_get k (sessions (fst (updateSession m d tabId frameId tab now)))
  = map_get k (sessions m).
Proof.
  intros Hk. unfold updateSession.
  destruct (sd_state d) as [st|]; [|reflexivity].
  destruct (map_get _ (sessions m)) as [p|] eqn:Hprev; simpl.
  - destruct (paused (state p) && negb (paused st));
      match goal with |- context [if ?b then _ else _] => destruct b end;
      simpl; now rewrite map_get_set_ne.
  - destruct (negb (paused st)); simpl; now rewrite map_get_set_ne.
Qed.

Lemma updateSession_sessions m d st tabId frameId tab now :
  sd_state d = Some st ->
  exists s,
    sessions (fst (updateSession m d tabId frameId tab now))
    = map_set (sessionIdOf tabId frameId) s (sessions m)
    /\ state s = st.
Proof.
  intros Hst. unfold updateSession. rewrite Hst.
  destruct (map_get _ (sessions m)) as [p|] eqn:Hprev; simpl.
  - destruct (paused (state p) && negb (paused st));
      match goal with |- context [if ?b then _ else _] => destruct b end;
      simpl; eexists; split; try reflexivity; reflexivity.
  - destruct (negb (paused st)); simpl; eexists; split; try reflexivity;
      reflexivity.
Qed.

Lemma updateSession_malformed m d tabId frameId tab now :
  sd_state d = None -> updateSession m d tabId frameId tab now = (m, []).
Proof. intros H. unfold updateSession. now rewrite H. Qed.

Lemma removeSession_sessions m k :
  sessions (fst (removeSession m k)) = map_delete k (sessions m).
Proof.
  unfold removeSession, map_has.
  destruct (map_get k (sessions m)) eqn:E; simpl; [reflexivity|].
  now rewrite map_delete_absent.
Qed.

Lemma step_registry_ok m ev :
  snapshot_ok ev -> registry_ok m -> registry_ok (step m ev).
Proof.
  intros Hev Hm k s HIn. destruct ev as [d tabId frameId tab now|sid]; simpl in *.
  - destruct (sd_state d) as [st|] eqn:Hst.
    + destruct (updateSession_sessions m d st tabId frameId tab now Hst)
        as (s' & Hs & Hstate).
      rewrite Hs in HIn. apply map_set_In in HIn as [[_ ->]|HIn].
      * now rewrite Hstate.
      * exact (Hm k s HIn).
    + rewrite updateSession_malformed in HIn by assumption. exact (Hm k s HIn).
  - rewrite removeSession_sessions in HIn.
    apply map_delete_In in HIn as [HIn _]. exact (Hm k s HIn).
Qed.

Lemma run_registry_ok evs : forall m,
  Forall snapshot_ok evs -> registry_ok m -> registry_ok (run m evs).
Proof.
  induction evs as [|ev evs IH]; intros m Hevs Hm; simpl; [assumption|].
  inversion Hevs; subst. apply IH; [assumption|]. now apply step_registry_ok.
Qed.

(** The snapshot the Spotify adapter sends when the page shows an elapsed
    time of 1:40 and its second label reads 0:50. *)
Example spotify_snapshot_times :
  let page :=
    {| Agent.elements := []; Agent.documentTitle := "Spotify";
       Agent.metadata := None; Agent.isSpotify := true;
       Agent.trackName := Some "Song"; Agent.artistName := Some "Band";
       Agent.pauseButton := true; Agent.playButton := false;
       Agent.progressTimeText := Some "1:40";
       Agent.durationTimeText := Some "-0:50" |} in
  let d := Agent.spotifySessionData page
             (Agent.checkSpotifyState page Agent.newVirtualElement) in
  exists st, sd_state d = Some st
    /\ currentTime st = num 100 /\ duration st = num 50.
Proof. eexists. split; [reflexivity|]. split; reflexivity. Qed.

(** C1, as stated, fails: the coordinator stores a snapshot whose
    [currentTime] (100) exceeds its finite [duration] (50) without clamping
    it.  The snapshot is the one the Spotify adapter sends for an elapsed
    time of 1:40 next to a label reading 0:50. *)
Lemma C1_stored_time_not_clamped :
  let page :=
    {| Agent.elements := []; Agent.documentTitle := "Spotify";
       Agent.metadata := None; Agent.isSpotify := true;
       Agent.trackName := Some "Song"; Agent.artistName := Some "Band";
       Agent.pauseButton := true; Agent.playButton := false;
       Agent.progressTimeText := Some "1:40";
       Agent.durationTimeText := Some "-0:50" |} in
  let d := Agent.spotifySessionData page
             (Agent.checkSpotifyState page Agent.newVirtualElement) in
  let tab := {| tab_title := "Spotify"; tab_url := "https://open.spotify.com/";
                tab_favIconUrl := None |} in
  let m := fst (updateSession initial d 7 0 tab 1000) in
  exists s,
    map_get "7:0" (sessions m) = Some s
    /\ duration (state s) = num 50
    /\ currentTime (state s) = num 100
    /\ le (currentTime (state s)) (duration (state s)) = false
    /\ time_in_range (state s) = false.
Proof. vm_compute. eexists. repeat split; reflexivity. Qed.

(** C1, amended: [updateSession] stores the state of the snapshot exactly
    as received, so the stored [currentTime] is the snapshot's; and if every
    snapshot handled has its [currentTime] in [[0, duration]] (when the
    duration is a finite non-zero number), so has every record of the
    registry, after any run of updates and removals. *)
Theorem C1_stored_state_is_snapshot_state :
  (forall m d st tabId frameId tab now,
      sd_state d = Some st ->
      exists s,
        map_get (sessionIdOf tabId frameId)
          (sessions (fst (updateSession m d tabId frameId tab now))) = Some s
        /\ state s = st)
  /\ (forall evs, Forall snapshot_ok evs -> registry_ok (run initial evs)).
Proof.
  split.
  - intros m d st tabId frameId tab now Hst.
    destruct (updateSession_stored m d st tabId frameId tab now Hst)
      as (s & Hs & _ & Hstate & _).
    exists s. auto.
  - intros evs Hevs. apply run_registry_ok; [assumption|].
    intros k s [].
Qed.

Lemma C1_witness :
  registry_ok
    (run initial
       [Update {| sd_title := "a"; sd_artworkUrl := None;
                  sd_state := Some {| paused := false; muted := false;
                                      volume := num 1; currentTime := num 10;
                                      duration := num 50; canSeek := true;
                                      ended := false |} |}
          7 0 {| tab_title := "t"; tab_url := "u"; tab_favIconUrl := None |} 1000;
        Remove "7:0"]).
Proof.
  apply (proj2 C1_stored_state_is_snapshot_state).
  repeat constructor.
Defined.

(** C2: for a snapshot [st] handled at [now] for session [sid], with [prev]
    the record stored before: if [prev] is absent and [st] is playing, or
    [prev] was paused and [st] is playing, then the stored [lastActiveAt]
    is [now] and the active pointer becomes [sid]; in every other case
    [lastActiveAt] is inherited from [prev] (or is [now] when [prev] is
    absent) and the pointer is unchanged.  A message without a state
    changes nothing. *)
Theorem C2_lastActiveAt_and_active_pointer :
  forall m d tabId frameId tab now,
    let sid := sessionIdOf tabId frameId in
    let prev := map_get sid (sessions m) in
    let m' := fst (updateSession m d tabId frameId tab now) in
    match sd_state d with
    | None => m' = m
    | Some st =>
        exists s,
          map_get sid (sessions m') = Some s
          /\ state s = st
          /\ let becomesActive :=
               match prev with
               | None => negb (paused st)
               | Some p => paused (state p) && negb (paused st)
               end in
             if becomesActive
             then lastActiveAt s = now /\ lastActiveSessionId m' = Some sid
             else lastActiveAt s = match prev with
                                   | Some p => lastActiveAt p
                                   | None => now
                                   end
                  /\ lastActiveSessionId m' = lastActiveSessionId m
    end.
Proof.
  intros m d tabId frameId tab now sid prev m'.
  subst m'. unfold updateSession. fold sid. fold prev.
  destruct (sd_state d) as [st|]; [|reflexivity].
  destruct prev as [p|]; simpl.
  - destruct (paused (state p) && negb (paused st)) eqn:E;
      match goal with |- context [if ?b then _ else _] => destruct b end;
      simpl; rewrite map_get_set_eq; eexists; (split; [reflexivity|]);
      simpl; auto.
  - destruct (negb (paused st)) eqn:E; simpl; rewrite map_get_set_eq;
      eexists; (split; [reflexivity|]); simpl; auto.
Qed.

Lemma updateSession_broadcast m d st tabId frameId tab now :
  sd_state d = Some st ->
  let sid := sessionIdOf tabId frameId in
  let m' := fst (updateSession m d tabId frameId tab now) in
  exists s,
    map_get sid (sessions m') = Some s
    /\ state s = st
    /\ snd (updateSession m d tabId frameId tab now)
       = (if broadcastDue m sid st now then [SESSION_UPDATED s] else [])
    /\ lastBroadcastTimestamps m'
       = (if broadcastDue m sid st now
          then <[sid := now]> (lastBroadcastTimestamps m)
          else lastBroadcastTimestamps m).
Proof.
  intros Hst sid m'. subst m'. unfold updateSession, broadcastDue. fold sid.
  rewrite Hst.
  destruct (map_get sid (sessions m)) as [p|]; simpl.
  - destruct (paused (state p) && negb (paused st));
      rewrite orb_false_r;
      destruct (negb (Bool.eqb (paused (state p)) (paused st))
                || (300 <=? now - default 0 (lastBroadcastTimestamps m !! sid)));
      simpl; rewrite map_get_set_eq; eexists; (split; [reflexivity|]);
      simpl; auto.
  - destruct (negb (paused st)); simpl; rewrite map_get_set_eq;
      eexists; (split; [reflexivity|]); simpl; auto.
Qed.




(** The first snapshot of a playing session is stored, broadcast, and
    makes the session the active one. *)
Example first_snapshot_is_broadcast :
  let d := {| sd_title := ""; sd_artworkUrl := None;
              sd_state := Some {| paused := false; muted := false;
                                  volume := num 1; currentTime := num 10;
                                  duration := num 50; canSeek := true;
                                  ended := false |} |} in
  let tab := {| tab_title := "Tab"; tab_url := "u"; tab_favIconUrl := None |} in
  let res := updateSession initial d 7 0 tab 1000 in
  exists s,
    snd res = [SESSION_UPDATED s]
    /\ sessions (fst res) = [("7:0", s)]
    /\ id s = "7:0" /\ title s = "Tab" /\ lastActiveAt s = 1000
    /\ lastActiveSessionId (fst res) = Some "7:0"
    /\ lastBroadcastTimestamps (fst res) !! "7:0" = Some 1000.
Proof. vm_compute. eexists. repeat split; reflexivity. Qed.

(** *** Removal *)

Lemma mostRecent_fold vs : forall a ta,
  let r := fold_left mostRecentStep vs (a, ta) in
  ta <= snd r
  /\ (forall s, In s vs -> lastActiveAt s <= snd r)
  /\ (r = (a, ta) \/ exists s, In s vs /\ r = (Some (id s), lastActiveAt s)).
Proof.
  induction vs as [|v vs IH]; intros a ta; simpl.
  - split; [lia|]. split; [tauto|]. now left.
  - destruct (Z.ltb_spec ta (lastActiveAt v)) as [Hlt|Hge].
    + assert (Hstep : mostRecentStep (a, ta) v = (Some (id v), lastActiveAt v)).
      { unfold mostRecentStep. simpl.
        destruct (Z.ltb_spec ta (lastActiveAt v)); [reflexivity|lia]. }
      rewrite Hstep.
      destruct (IH (Some (id v)) (lastActiveAt v)) as (H1 & H2 & H3).
      split; [simpl in *; lia|]. split.
      * intros s [<-|Hs]; [exact H1 | exact (H2 s Hs)].
      * right. destruct H3 as [H3|(s & Hs & H3)].
        -- exists v. split; [now left | exact H3].
        -- exists s. split; [now right | exact H3].
    + assert (Hstep : mostRecentStep (a, ta) v = (a, ta)).
      { unfold mostRecentStep. simpl.
        destruct (Z.ltb_spec ta (lastActiveAt v)); [lia|reflexivity]. }
      rewrite Hstep.
      destruct (IH a ta) as (H1 & H2 & H3).
      split; [exact H1|]. split.
      * intros s [<-|Hs]; [simpl in *; lia | exact (H2 s Hs)].
      * destruct H3 as [H3|(s & Hs & H3)]; [now left|].
        right. exists s. split; [now right | exact H3].
Qed.

Lemma findMostRecent_spec (m : JsMap Session) :
  (forall k s, In (k, s) m -> 0 < lastActiveAt s) ->
  match m with
  | [] => findMostRecentActiveSession m = None
  | _ =>
      exists k s, In (k, s) m
        /\ findMostRecentActiveSession m = Some (id s)
        /\ forall k' s', In (k', s') m -> lastActiveAt s' <= lastActiveAt s
  end.
Proof.
  intros Hpos. destruct m as [|kv m]; [reflexivity|].
  unfold findMostRecentActiveSession.
  destruct (mostRecent_fold (map_values (kv :: m)) None 0) as (H1 & H2 & H3).
  assert (Hval : forall s, In s (map_values (kv :: m)) ->
                           exists k, In (k, s) (kv :: m)).
  { intros s Hs. unfold map_values in Hs. apply in_map_iff in Hs as ([k s'] & <- & HIn).
    now exists k. }
  destruct H3 as [H3|(s & Hs & H3)].
  - exfalso. destruct kv as [k s].
    specialize (H2 s (or_introl eq_refl)). rewrite H3 in H2. simpl in H2.
    specialize (Hpos k s (or_introl eq_refl)). lia.
  - destruct (Hval s Hs) as (k & Hk). exists k, s. split; [exact Hk|].
    rewrite H3. split; [reflexivity|].
    intros k' s' HIn. rewrite H3 in H2. apply H2.
    unfold map_values. apply in_map_iff. now exists (k', s').
Qed.

(** C4: in a registry whose records carry positive activity times,
    removing the session the active pointer refers to leaves the pointer
    on a surviving session whose [lastActiveAt] is greatest among the
    survivors, or on [None] when no session survives; removing any other
    session leaves the pointer as it was.  The survivors are the records
    stored before under another id. *)
Theorem C4_remove_active_session :
  forall m sid,
    registry_wf m ->
    let m' := fst (removeSession m sid) in
    (forall kv, In kv (sessions m') <-> In kv (sessions m) /\ fst kv <> sid)
    /\ (map_has sid (sessions m) = true ->
        lastActiveSessionId m = Some sid ->
        match sessions m' with
        | [] => lastActiveSessionId m' = None
        | _ =>
            exists k s, In (k, s) (sessions m')
              /\ lastActiveSessionId m' = Some k
              /\ forall k' s', In (k', s') (sessions m') ->
                               lastActiveAt s' <= lastActiveAt s
        end)
    /\ (lastActiveSessionId m <> Some sid ->
        lastActiveSessionId m' = lastActiveSessionId m).
Proof.
  intros m sid Hwf m'. subst m'. split; [|split].
  - intros kv. rewrite removeSession_sessions. apply map_delete_In.
  - intros Hhas Hact. unfold removeSession. rewrite Hhas. simpl.
    rewrite bool_decide_eq_true_2 by assumption.
    assert (Hpos : forall k s, In (k, s) (map_delete sid (sessions m)) ->
                               id s = k /\ 0 < lastActiveAt s).
    { intros k s HIn. apply map_delete_In in HIn as [HIn _]. now apply Hwf. }
    pose proof (findMostRecent_spec (map_delete sid (sessions m))
                  (fun k s H => proj2 (Hpos k s H))) as Hspec.
    destruct (map_delete sid (sessions m)) as [|kv rest] eqn:E; [exact Hspec|].
    destruct Hspec as (k & s & HIn & Hres & Hmax).
    exists k, s. split; [exact HIn|]. split; [|exact Hmax].
    rewrite Hres. f_equal. exact (proj1 (Hpos k s HIn)).
  - intros Hact. unfold removeSession.
    destruct (map_has sid (sessions m)); simpl; [|reflexivity].
    now rewrite bool_decide_eq_false_2.
Qed.

Lemma C4_witness :
  let st := {| paused := false; muted := false; volume := num 1;
               currentTime := num 10; duration := num 50; canSeek := true;
               ended := false |} in
  let mk sid t := {| id := sid; tabId := 7; frameId := 0; title := "a";
                     url := "u"; favIconUrl := None; artworkUrl := None;
                     state := st; lastActiveAt := t |} in
  let m := {| sessions := [("7:0", mk "7:0" 3000); ("7:1", mk "7:1" 1000);
                           ("7:2", mk "7:2" 2000)];
              lastActiveSessionId := Some "7:0";
              lastBroadcastTimestamps := ∅ |} in
  registry_wf m
  /\ exists k s, In (k, s) (sessions (fst (removeSession m "7:0")))
       /\ lastActiveSessionId (fst (removeSession m "7:0")) = Some k
       /\ forall k' s', In (k', s') (sessions (fst (removeSession m "7:0"))) ->
                        lastActiveAt s' <= lastActiveAt s.
Proof.
  intros st mk m.
  assert (Hwf : registry_wf m).
  { intros k s [H|[H|[H|[]]]]; inversion H; subst; simpl; split;
      reflexivity || lia. }
  split; [exact Hwf|].
  exact (proj1 (proj2 (C4_remove_active_session m "7:0" Hwf)) eq_refl eq_refl).
Defined.

Lemma updateSession_wf m d tabId frameId tab now :
  0 < now -> registry_wf m ->
  registry_wf (fst (updateSession m d tabId frameId tab now)).
Proof.
  intros Hnow Hwf k s HIn.
  destruct (sd_state d) as [st|] eqn:Hst.
  - unfold updateSession in HIn. rewrite Hst in HIn.
    destruct (map_get (sessionIdOf tabId frameId) (sessions m)) as [p|] eqn:Hprev.
    + apply map_get_In, Hwf in Hprev as [_ Hp].
      revert HIn. simpl.
      destruct (paused (state p) && negb (paused st));
        match goal with |- context [if ?b then _ else _] => destruct b end;
        simpl; intros HIn; apply map_set_In in HIn as [[-> ->]|HIn];
        simpl; auto.
    + revert HIn. simpl.
      destruct (negb (paused st)); simpl; intros HIn;
        apply map_set_In in HIn as [[-> ->]|HIn]; simpl; auto.
  - rewrite updateSession_malformed in HIn by assumption. now apply Hwf.
Qed.

(** The well-formedness that C4 assumes holds of every registry the
    coordinator can reach while the clock reads a positive time. *)
Lemma run_registry_wf evs : forall m,
  Forall clock_positive evs -> registry_wf m -> registry_wf (run m evs).
Proof.
  induction evs as [|ev evs IH]; intros m Hevs Hm; simpl; [assumption|].
  inversion Hevs; subst. apply IH; [assumption|].
  destruct ev as [d tabId frameId tab now|sid]; simpl in *.
  - now apply updateSession_wf.
  - intros k s HIn. rewrite removeSession_sessions in HIn.
    apply map_delete_In in HIn as [HIn _]. now apply Hm.
Qed.

(** C10: [removeSession] with an id that is not in the registry changes
    neither the registry nor the active pointer and broadcasts nothing. *)
Theorem C10_remove_absent_session_is_noop :
  forall m sid,
    map_get sid (sessions m) = None ->
    removeSession m sid = (m, []).
Proof.
  intros m sid H. unfold removeSession, map_has. now rewrite H.
Qed.

Lemma C10_witness :
  removeSession
    {| sessions := [("7:0", {| id := "7:0"; tabId := 7; frameId := 0;
                               title := "a"; url := "u"; favIconUrl := None;
                               artworkUrl := None;
                               state := {| paused := false; muted := false;
                                           volume := num 1; currentTime := num 10;
                                           duration := num 50; canSeek := true;
                                           ended := false |};
                               lastActiveAt := 1000 |})];
       lastActiveSessionId := Some "7:0";
       lastBroadcastTimestamps := ∅ |} "8:0"
  = ({| sessions := [("7:0", {| id := "7:0"; tabId := 7; frameId := 0;
                               title := "a"; url := "u"; favIconUrl := None;
                               artworkUrl := None;
                               state := {| paused := false; muted := false;
                                           volume := num 1; currentTime := num 10;
                                           duration := num 50; canSeek := true;
                                           ended := false |};
                               lastActiveAt := 1000 |})];
        lastActiveSessionId := Some "7:0";
        lastBroadcastTimestamps := ∅ |}, []).
Proof. apply C10_remove_absent_session_is_noop. reflexivity. Defined.

End BackgroundFacts.

(** * Properties of the agent *)

Section AgentFacts.

Import JS Agent.

(** ** Order on JavaScript numbers *)

Lemma below_inf_add x y : below_inf x -> below_inf y -> below_inf (add x y).
Proof. destruct x, y; simpl; tauto. Qed.

Lemma not_gt_le a b : below_inf a -> below_inf b -> gt a b = false -> le a b = true.
Proof.
  destruct a as [x| | |], b as [y| | |]; simpl; try tauto; try discriminate.
  unfold gt, lt, Qlt_bool. intros _ _ H. now apply negb_false_iff in H.
Qed.

Lemma gt_le a b : gt a b = true -> le b a = true.
Proof.
  destruct a as [x| | |], b as [y| | |]; simpl; try discriminate; try reflexivity.
  unfold gt, lt, Qlt_bool. intros H. apply negb_true_iff in H.
  apply Qle_bool_iff. apply Qlt_le_weak. apply Qnot_le_lt.
  intros Hle. apply Qle_bool_iff in Hle. congruence.
Qed.

Lemma le_refl_below x : below_inf x -> le x x = true.
Proof. destruct x; simpl; try tauto. intros _. apply Qle_bool_iff, Qle_refl. Qed.

Lemma le_trans_js a b c : le a b = true -> le b c = true -> le a c = true.
Proof.
  destruct a as [x| | |], b as [y| | |], c as [z| | |]; simpl;
    try discriminate; try reflexivity.
  intros H1 H2. apply Qle_bool_iff in H1, H2. apply Qle_bool_iff.
  eapply Qle_trans; eassumption.
Qed.

(** ** Scoring and discovery *)

Lemma duration_term_below d :
  isNaN d = false -> below_inf (min (div d (num 60)) (num 30)).
Proof.
  destruct d as [q| | |]; simpl; try discriminate; intros _.
  - unfold div, num. simpl.
    destruct (Qle_bool (q / inject_Z 60) (inject_Z 30)); exact I.
  - exact I.
  - exact I.
Qed.

Lemma score_below_inf e : below_inf (scoreMediaElement e).
Proof.
  unfold scoreMediaElement.
  destruct (disableRemotePlayback e); [exact I|].
  repeat match goal with
         | |- below_inf (if ?b then _ else _) => destruct b eqn:?
         | |- below_inf (add _ _) => apply below_inf_add
         | |- below_inf (num _) => exact I
         | |- below_inf (sub (num _) (num _)) => exact I
         | |- below_inf (min (div _ (num 60)) (num 30)) =>
             apply duration_term_below
         end;
    match goal with
    | H : _ && negb (isNaN _) = true |- isNaN _ = false =>
        apply andb_true_iff in H as [_ H]; now apply negb_true_iff in H
    end.
Qed.

Lemma findBest_fold els : forall a sa,
  below_inf sa ->
  let r := fold_left bestStep els (a, sa) in
  below_inf (snd r)
  /\ le sa (snd r) = true
  /\ (forall e, In e els -> le (scoreMediaElement e) (snd r) = true)
  /\ (r = (a, sa) \/ exists e, In e els /\ r = (Some e, scoreMediaElement e)).
Proof.
  induction els as [|x els IH]; intros a sa Hsa; simpl.
  - split; [exact Hsa|]. split; [now apply le_refl_below|]. split; [tauto|now left].
  - destruct (gt (scoreMediaElement x) sa) eqn:Hgt.
    + assert (Hstep : bestStep (a, sa) x = (Some x, scoreMediaElement x)).
      { unfold bestStep. simpl. now rewrite Hgt. }
      rewrite Hstep.
      destruct (IH (Some x) (scoreMediaElement x) (score_below_inf x))
        as (H0 & H1 & H2 & H3).
      split; [exact H0|]. split.
      { eapply le_trans_js; [apply gt_le; exact Hgt | exact H1]. }
      split.
      * intros e [<-|He]; [exact H1 | exact (H2 e He)].
      * right. destruct H3 as [H3|(e & He & H3)].
        -- exists x. split; [now left | exact H3].
        -- exists e. split; [now right | exact H3].
    + assert (Hstep : bestStep (a, sa) x = (a, sa)).
      { unfold bestStep. simpl. now rewrite Hgt. }
      rewrite Hstep.
      destruct (IH a sa Hsa) as (H0 & H1 & H2 & H3).
      split; [exact H0|]. split; [exact H1|]. split.
      * intros e [<-|He]; [|exact (H2 e He)].
        eapply le_trans_js; [|exact H1].
        apply not_gt_le; [apply score_below_inf | exact Hsa | exact Hgt].
      * destruct H3 as [H3|(e & He & H3)]; [now left|].
        right. exists e. split; [now right | exact H3].
Qed.

Lemma discover_attach els sp retry e :
  discover els sp retry = AttachTo e ->
  In e els
  /\ ge (scoreMediaElement e) (num 0) = true
  /\ forall e', In e' els -> le (scoreMediaElement e') (scoreMediaElement e) = true.
Proof.
  unfold discover, findBest.
  destruct ((length els =? 0)%nat && sp); [discriminate|].
  destruct (findBest_fold els None (num (-1)) I) as (_ & _ & H2 & H3).
  destruct (fold_left bestStep els (None, num (-1))) as [[b|] bs] eqn:E.
  - destruct (ge bs (num 0)) eqn:Hge;
      [|destruct (retry <? 5)%nat; discriminate].
    intros [= <-].
    destruct H3 as [H3|(x & Hx & H3)]; [discriminate|].
    inversion H3; subst. auto.
  - destruct (retry <? 5)%nat; discriminate.
Qed.

(** C5: a candidate with remote playback disabled scores exactly [-1];
    one run of discovery never attaches to such a candidate, whatever the
    other candidates score; and when discovery attaches to an element, that
    element is a candidate whose score is at least [0] and is not exceeded
    by the score of any other candidate.  In particular nothing is attached
    when every candidate scores below [0]. *)
Theorem C5_disabled_candidate_never_attached :
  (forall c, disableRemotePlayback c = true -> scoreMediaElement c = num (-1))
  /\ (forall els sp retry c,
        In c els -> disableRemotePlayback c = true ->
        discover els sp retry <> AttachTo c)
  /\ (forall els sp retry e,
        discover els sp retry = AttachTo e ->
        In e els
        /\ ge (scoreMediaElement e) (num 0) = true
        /\ forall e', In e' els ->
                      le (scoreMediaElement e') (scoreMediaElement e) = true)
  /\ (forall els sp retry,
        (forall e, In e els -> lt (scoreMediaElement e) (num 0) = true) ->
        forall e, discover els sp retry <> AttachTo e).
Proof.
  assert (Hscore : forall c, disableRemotePlayback c = true ->
                             scoreMediaElement c = num (-1)).
  { intros c Hc. unfold scoreMediaElement. now rewrite Hc. }
  split; [exact Hscore|]. split; [|split].
  - intros els sp retry c _ Hc Hd.
    apply discover_attach in Hd as (_ & Hge & _).
    rewrite (Hscore c Hc) in Hge. vm_compute in Hge. discriminate.
  - intros els sp retry e. apply discover_attach.
  - intros els sp retry Hneg e Hd.
    apply discover_attach in Hd as (HIn & Hge & _).
    specialize (Hneg e HIn).
    destruct (scoreMediaElement e) as [q| | |]; simpl in *; try discriminate.
    unfold ge, le, lt, Qlt_bool, num in *.
    apply negb_true_iff in Hneg. congruence.
Qed.

Lemma C5_witness :
  let c := {| node := 1; tagName := "VIDEO"; disableRemotePlayback := true;
              readyState := 4; paused := false; muted := false; volume := num 1;
              currentTime := num 5; duration := num 600; offsetWidth := 640;
              offsetHeight := 360; src := "movie.mp4"; childrenLength := 0;
              seekableLength := 1; ended := false |} in
  let e := {| node := 2; tagName := "AUDIO"; disableRemotePlayback := false;
              readyState := 0; paused := true; muted := true; volume := num 1;
              currentTime := num 0; duration := NaN; offsetWidth := 0;
              offsetHeight := 0; src := ""; childrenLength := 0;
              seekableLength := 0; ended := false |} in
  scoreMediaElement c = num (-1)
  /\ discover [c; e] false 0 <> AttachTo c
  /\ forall x, discover [c; e] false 0 <> AttachTo x.
Proof.
  intros c e.
  destruct C5_disabled_candidate_never_attached as (H1 & H2 & _ & H4).
  split; [apply H1; reflexivity|]. split.
  - apply H2; [now left | reflexivity].
  - apply H4. intros x [<-|[<-|[]]]; reflexivity.
Defined.

(** A playing, visible video five seconds into ten minutes scores
    100 + 50 + 10 + 20 + 10 + 10 + 5. *)
Example score_playing_video :
  let score :=
    scoreMediaElement
      {| node := 1; tagName := "VIDEO"; disableRemotePlayback := false;
         readyState := 4; paused := false; muted := false; volume := num 1;
         currentTime := num 5; duration := num 600; offsetWidth := 640;
         offsetHeight := 360; src := "movie.mp4"; childrenLength := 0;
         seekableLength := 1; ended := false |} in
  le score (num 205) = true /\ le (num 205) score = true.
Proof. split; vm_compute; reflexivity. Qed.

(** ** The time-string parser *)

Lemma space_not_kept c : is_space c = true -> is_digit c || is_colon c = false.
Proof.
  destruct c as [[] [] [] [] [] [] [] []]; vm_compute; congruence.
Qed.

Lemma keep_trimStart s :
  keepDigitsAndColons (trimStart s) = keepDigitsAndColons s.
Proof.
  induction s as [|c s IH]; simpl; [reflexivity|].
  destruct (is_space c) eqn:E; [|reflexivity].
  rewrite IH. unfold keepDigitsAndColons at 2. simpl.
  now rewrite (space_not_kept c E).
Qed.

Lemma keep_trimEnd s :
  keepDigitsAndColons (trimEnd s) = keepDigitsAndColons s.
Proof.
  unfold keepDigitsAndColons.
  induction s as [|c s IH]; simpl; [reflexivity|].
  destruct (trimEnd s) as [|c' t] eqn:E.
  - simpl in IH. rewrite <- IH.
    destruct (is_space c) eqn:Hc.
    + simpl. now rewrite (space_not_kept c Hc).
    + reflexivity.
  - change (filter_chars (fun c0 => is_digit c0 || is_colon c0) (String c (String c' t)))
      with (if is_digit c || is_colon c
            then String c (filter_chars (fun c0 => is_digit c0 || is_colon c0)
                             (String c' t))
            else filter_chars (fun c0 => is_digit c0 || is_colon c0) (String c' t)).
    now rewrite IH.
Qed.

Lemma keep_trim s : keepDigitsAndColons (trim s) = keepDigitsAndColons s.
Proof. unfold trim. now rewrite keep_trimEnd, keep_trimStart. Qed.

Lemma split_length s : length (split ":" s) = S (countColons s).
Proof.
  induction s as [|c s IH]; simpl; [reflexivity|].
  unfold is_colon. destruct (Ascii.eqb c ":"); simpl; [now rewrite IH|].
  destruct (split ":" s) as [|h t]; simpl in *; [discriminate | exact IH].
Qed.

Lemma countColons_keep s : countColons (keepDigitsAndColons s) = countColons s.
Proof.
  unfold keepDigitsAndColons.
  induction s as [|c s IH]; simpl; [reflexivity|].
  destruct (is_colon c) eqn:Hc.
  - rewrite orb_true_r. simpl. now rewrite Hc, IH.
  - rewrite orb_false_r. destruct (is_digit c); simpl; now rewrite ?Hc, IH.
Qed.

(** Without a digit, what is left after cleaning is colons only, and every
    part between them is empty. *)
Lemma split_no_digit s :
  has_digit s = false ->
  Forall (fun p => p = EmptyString) (split ":" (keepDigitsAndColons s)).
Proof.
  unfold keepDigitsAndColons.
  induction s as [|c s IH]; simpl; [repeat constructor|].
  intros H. apply orb_false_iff in H as [Hc Hs]. rewrite Hc. simpl.
  destruct (is_colon c) eqn:Hcol; [|auto].
  simpl. unfold is_colon in Hcol. rewrite Hcol. constructor; auto.
Qed.

Lemma parseTimeString_clean c s :
  parseTimeString (Some (String c s))
  = match split ":" (keepDigitsAndColons (String c s)) with
    | [p0; p1] => parseIntOr0 p0 * 60 + parseIntOr0 p1
    | [p0; p1; p2] => parseIntOr0 p0 * 3600 + parseIntOr0 p1 * 60 + parseIntOr0 p2
    | _ => 0
    end.
Proof. unfold parseTimeString. now rewrite keep_trim. Qed.

(** C6: the parser maps "1:23" to 83, "0:45" to 45 and "1:02:03" to 3723,
    and it maps to 0 the missing string, the empty string, every string
    without a decimal digit, and every string whose number of colons is
    neither one nor two.  It is a total function: no input raises. *)
Theorem C6_parseTimeString :
  parseTimeString (Some "1:23") = 83
  /\ parseTimeString (Some "0:45") = 45
  /\ parseTimeString (Some "1:02:03") = 3723
  /\ parseTimeString None = 0
  /\ parseTimeString (Some "") = 0
  /\ (forall s, has_digit s = false -> parseTimeString (Some s) = 0)
  /\ (forall s, countColons s <> 1%nat -> countColons s <> 2%nat ->
                parseTimeString (Some s) = 0).
Proof.
  repeat (split; [reflexivity|]). split.
  - intros [|c s] H; [reflexivity|]. rewrite parseTimeString_clean.
    pose proof (split_no_digit (String c s) H) as Hall.
    destruct (split ":" (keepDigitsAndColons (String c s))) as [|p0 [|p1 [|p2 [|p3 l]]]];
      try reflexivity.
    + inversion Hall as [|? ? -> Hall']. inversion Hall' as [|? ? -> _]. reflexivity.
    + inversion Hall as [|? ? -> Hall']. inversion Hall' as [|? ? -> Hall''].
      inversion Hall'' as [|? ? -> _]. reflexivity.
  - intros [|c s] H1 H2; [reflexivity|]. rewrite parseTimeString_clean.
    pose proof (split_length (keepDigitsAndColons (String c s))) as Hlen.
    rewrite countColons_keep in Hlen.
    remember (countColons (String c s)) as n eqn:Hn. clear Hn.
    destruct (split ":" (keepDigitsAndColons (String c s))) as [|p0 [|p1 [|p2 [|p3 l]]]];
      try reflexivity; simpl in Hlen; exfalso; lia.
Qed.

Lemma C6_witness :
  parseTimeString (Some "no time here") = 0
  /\ parseTimeString (Some "12 o'clock") = 0.
Proof.
  destruct C6_parseTimeString as (_ & _ & _ & _ & _ & H1 & H2).
  split; [apply H1; reflexivity | apply H2; discriminate].
Defined.

(** ** Detaching *)

Lemma removeEventListener_fresh ls n ty f :
  (forall l, In l ls -> (fn_id (callback l) < fn_id f)%nat) ->
  removeEventListener ls n ty f = ls.
Proof.
  intros H. unfold removeEventListener.
  induction ls as [|l ls IH]; simpl; [reflexivity|].
  assert (Hl : same_listener n ty f l = false).
  { unfold same_listener. specialize (H l (or_introl eq_refl)).
    destruct (Nat.eqb_spec (fn_id (callback l)) (fn_id f)); [lia|].
    now rewrite andb_false_r. }
  rewrite Hl. simpl. f_equal. apply IH. intros l' Hl'. apply H. now right.
Qed.

(** [detachFromElement] removes no listener at all: the two functions it
    hands to [removeEventListener] are new objects. *)
Lemma detach_keeps_listeners st :
  ids_fresh st -> listeners (detachFromElement st) = listeners st.
Proof.
  intros Hfresh. unfold detachFromElement.
  assert (Hls : listeners
                  match mediaElement st with
                  | Some (Native n) =>
                      set_listeners st
                        (removeEventListener
                           (removeEventListener (listeners st) n play
                              {| fn_id := nextId st; fn_method := handleMediaEvent_m |})
                           n pause
                           {| fn_id := S (nextId st); fn_method := handleMediaEvent_m |})
                        (S (S (nextId st)))
                  | _ => st
                  end = listeners st).
  { destruct (mediaElement st) as [[n|]|]; try reflexivity. simpl.
    rewrite (removeEventListener_fresh (listeners st) n play); [|exact Hfresh].
    apply removeEventListener_fresh. intros l Hl. specialize (Hfresh l Hl).
    simpl. lia. }
  match goal with
  | |- listeners (match updateThrottle ?s with _ => _ end) = _ =>
      destruct (updateThrottle s)
  end; simpl; exact Hls.
Qed.

Lemma sendUpdate_frame st page :
  listeners (sendUpdate st page) = listeners st
  /\ nextId (sendUpdate st page) = nextId st
  /\ mediaElement (sendUpdate st page) = mediaElement st.
Proof.
  unfold sendUpdate, sendSpotifyUpdate.
  destruct (mediaElement st) as [h|] eqn:E; [|auto].
  destruct (seekInProgress st); [auto|].
  destruct (isVirtual st); [simpl; auto|].
  destruct h as [n|]; [|auto].
  destruct (find_element page n); simpl; auto.
Qed.

Lemma detach_nextId st : (nextId st <= nextId (detachFromElement st))%nat.
Proof.
  unfold detachFromElement.
  destruct (mediaElement st) as [[n|]|]; simpl;
    match goal with
    | |- context [match updateThrottle ?s with _ => _ end] =>
        destruct (updateThrottle s)
    end; simpl; lia.
Qed.

Lemma subscribe_grows n st s :
  (exists new, listeners (subscribe n st s) = listeners st ++ new)
  /\ (ids_fresh st -> ids_fresh (subscribe n st s))
  /\ mediaElement (subscribe n st s) = mediaElement st.
Proof.
  unfold subscribe, addEventListener. split; [|split; [|reflexivity]].
  - simpl. destruct (existsb _ (listeners st)).
    + exists []. now rewrite app_nil_r.
    + eexists. reflexivity.
  - intros Hf l Hl. simpl in *. destruct (existsb _ (listeners st)).
    + specialize (Hf l Hl). lia.
    + apply in_app_or in Hl as [Hl|[<-|[]]]; [specialize (Hf l Hl); lia|].
      simpl. lia.
Qed.

Lemma fold_subscribe_grows n subs : forall st,
  (exists new, listeners (fold_left (subscribe n) subs st) = listeners st ++ new)
  /\ (ids_fresh st -> ids_fresh (fold_left (subscribe n) subs st))
  /\ mediaElement (fold_left (subscribe n) subs st) = mediaElement st.
Proof.
  induction subs as [|s subs IH]; intros st; simpl.
  - split; [exists []; now rewrite app_nil_r | auto].
  - destruct (subscribe_grows n st s) as ((new1 & H1) & F1 & M1).
    destruct (IH (subscribe n st s)) as ((new2 & H2) & F2 & M2).
    split; [|split; [auto | congruence]].
    exists (new1 ++ new2). now rewrite H2, H1, app_assoc.
Qed.

(** Attaching to an element never removes a listener: whatever was
    subscribed for the element attached before is still subscribed
    afterwards. *)
Lemma attach_keeps_listeners st page h :
  ids_fresh st ->
  (exists new, listeners (attachToElement st page h) = listeners st ++ new)
  /\ ids_fresh (attachToElement st page h)
  /\ mediaElement (attachToElement st page h) = Some h.
Proof.
  intros Hf. unfold attachToElement.
  set (st1 := set_mediaElement (detachFromElement st) (Some h)).
  assert (H1 : listeners st1 = listeners st)
    by (subst st1; simpl; now apply detach_keeps_listeners).
  assert (F1 : ids_fresh st1).
  { intros l Hl. rewrite H1 in Hl. specialize (Hf l Hl).
    pose proof (detach_nextId st). subst st1. simpl. lia. }
  assert (M1 : mediaElement st1 = Some h) by reflexivity.
  set (st2 := match h with
              | Native n => fold_left (subscribe n) subscriptions st1
              | Virtual => st1
              end).
  assert (H2 : (exists new, listeners st2 = listeners st ++ new)
               /\ ids_fresh st2 /\ mediaElement st2 = Some h).
  { subst st2. destruct h as [n|].
    - destruct (fold_subscribe_grows n subscriptions st1) as ((new & H) & F & M).
      split; [exists new; congruence|]. split; [auto | congruence].
    - split; [exists []; now rewrite app_nil_r | auto]. }
  destruct H2 as ((new & H2) & F2 & M2).
  destruct (sendUpdate_frame st2 page) as (L & N & M).
  split; [exists new; congruence|]. split; [|congruence].
  intros l Hl. rewrite L in Hl. rewrite N. now apply F2.
Qed.

(** One run of discovery leaves the agent attached to the element that
    [discover] chose, or leaves the handle as it was. *)
Lemma findAndAttachMedia_handle st page :
  ids_fresh st ->
  mediaElement (findAndAttachMedia st page)
  = match discover (elements page) (isSpotify page) (retryCount st) with
    | CreateVirtual => Some Virtual
    | AttachTo bestElement => Some (Native (node bestElement))
    | RetryLater | GiveUp => mediaElement st
    end.
Proof.
  intros Hf. unfold findAndAttachMedia.
  destruct (discover (elements page) (isSpotify page) (retryCount st)) as [|e| |];
    try reflexivity.
  - now apply attach_keeps_listeners.
  - now apply attach_keeps_listeners.
Qed.

(** C9 fails on the code.  The agent attaches to node 1 and then to node 2
    (as a second run of discovery does).  The eight listeners registered on
    node 1 are all still registered; a [timeupdate] event on node 1 then
    runs the stale [handleTimeUpdate], which arms the throttle timer of the
    agent, and a [play] event on node 1 runs the stale [handleMediaEvent],
    which sends a snapshot. *)
Theorem C9_stale_listeners_survive_detach :
  let st1 := attachToElement newAgent twoVideos (Native 1) in
  let st2 := attachToElement st1 twoVideos (Native 2) in
  mediaElement st2 = Some (Native 2)
  /\ length (listenersOn st1 1) = 8%nat
  /\ listenersOn st2 1 = listenersOn st1 1
  /\ updateThrottle st2 = None
  /\ updateThrottle (dispatchEvent st2 twoVideos 1 timeupdate) = Some 18%nat
  /\ length (sent (dispatchEvent st2 twoVideos 1 play)) = S (length (sent st2)).
Proof. vm_compute. repeat split; reflexivity. Qed.

Lemma detach_keeps_listeners_witness :
  listeners (detachFromElement (attachToElement newAgent twoVideos (Native 1)))
  = listeners (attachToElement newAgent twoVideos (Native 1)).
Proof.
  apply detach_keeps_listeners.
  intros l Hl. apply Nat.ltb_lt.
  revert l Hl. apply forallb_forall. vm_compute. reflexivity.
Defined.

End AgentFacts.

(** * Properties of the popup *)

Section PopupFacts.

Import JS Popup.
Import Background (map_get, map_set, map_delete, map_values).

Lemma same_core_refl P : same_core P P.
Proof. repeat split. Qed.

Lemma same_core_trans P Q R : same_core P Q -> same_core Q R -> same_core P R.
Proof.
  unfold same_core. intros (a1 & a2 & a3 & a4 & a5 & a6 & a7 & a8)
                           (b1 & b2 & b3 & b4 & b5 & b6 & b7 & b8).
  repeat split; congruence.
Qed.

Lemma cards_frozen_refl P : cards_frozen P P.
Proof. intros r c H. exists c. auto. Qed.

Lemma cards_frozen_trans P Q R :
  cards_frozen P Q -> cards_frozen Q R -> cards_frozen P R.
Proof.
  intros H1 H2 r c Hc.
  destruct (H1 r c Hc) as (c1 & Hc1 & E1 & E2 & E3 & E4).
  destruct (H2 r c1 Hc1) as (c2 & Hc2 & F1 & F2 & F3 & F4).
  exists c2. repeat split; try congruence.
  intros Hd. rewrite F4, E4; congruence.
Qed.

Lemma cards_frozen_kept P Q : cards_frozen P Q -> cards_kept P Q.
Proof.
  intros H r c Hc. destruct (H r c Hc) as (c' & ? & ? & ? & ? & _).
  exists c'. auto.
Qed.

Lemma cards_kept_refl P : cards_kept P P.
Proof. intros r c H. exists c. auto. Qed.

Lemma cards_kept_trans P Q R : cards_kept P Q -> cards_kept Q R -> cards_kept P R.
Proof.
  intros H1 H2 r c Hc.
  destruct (H1 r c Hc) as (c1 & Hc1 & E1 & E2 & E3).
  destruct (H2 r c1 Hc1) as (c2 & Hc2 & F1 & F2 & F3).
  exists c2. repeat split; congruence.
Qed.

Lemma heap_kept_refl P : heap_kept P P.
Proof. intros r s H. exists s. auto. Qed.

Lemma heap_kept_trans P Q R : heap_kept P Q -> heap_kept Q R -> heap_kept P R.
Proof.
  intros H1 H2 r s Hs.
  destruct (H1 r s Hs) as (s1 & Hs1 & E1 & E2).
  destruct (H2 r s1 Hs1) as (s2 & Hs2 & F1 & F2).
  exists s2. repeat split; congruence.
Qed.

Lemma rendered_refl P : rendered P P.
Proof. split; [apply same_core_refl | apply cards_frozen_refl]. Qed.

Lemma rendered_trans P Q R : rendered P Q -> rendered Q R -> rendered P R.
Proof.
  intros [A1 A2] [B1 B2].
  split; [eapply same_core_trans | eapply cards_frozen_trans]; eassumption.
Qed.

(** Rewriting one card in place keeps the others. *)
Lemma cards_frozen_insert P card c c' :
  cardHeap P !! card = Some c ->
  sessionId c' = sessionId c -> captured c' = captured c ->
  dragging c' = dragging c ->
  (dragging c = true -> progress c' = progress c) ->
  cards_frozen P (set_cardHeap P (<[card := c']> (cardHeap P))).
Proof.
  intros Hc E1 E2 E3 E4 r x Hx. simpl.
  destruct (decide (r = card)) as [->|Hne].
  - exists c'. rewrite list_lookup_insert_eq by (eapply lookup_lt_Some; eassumption).
    rewrite Hc in Hx. injection Hx as <-. auto.
  - exists x. rewrite list_lookup_insert_ne by congruence. auto.
Qed.

Lemma renderCard_frozen focused c s :
  sessionId (renderCard focused c s) = sessionId c
  /\ captured (renderCard focused c s) = captured c
  /\ dragging (renderCard focused c s) = dragging c
  /\ (dragging c = true -> progress (renderCard focused c s) = progress c).
Proof.
  unfold renderCard. destruct (parseMetadata (Background.title s)) as [t a]. simpl.
  repeat split. intros ->. reflexivity.
Qed.

Lemma updateSessionCardDOM_rendered P card session :
  rendered P (updateSessionCardDOM P card session).
Proof.
  unfold updateSessionCardDOM.
  destruct (cardHeap P !! card) as [c|] eqn:Hc; [|apply rendered_refl].
  destruct (heap P !! session) as [s|] eqn:Hs; [|apply rendered_refl].
  split; [repeat split|].
  destruct (renderCard_frozen (bool_decide (activeSlider P = Some card)) c s)
    as (E1 & E2 & E3 & E4).
  now apply cards_frozen_insert with (c := c).
Qed.

Lemma cards_frozen_app P c :
  cards_frozen P (set_cardHeap P (cardHeap P ++ [c])).
Proof.
  intros r x Hx. exists x. simpl.
  rewrite lookup_app_l by (eapply lookup_lt_Some; eassumption). auto.
Qed.

Lemma createSessionCard_rendered P session :
  rendered P (snd (createSessionCard P session)).
Proof.
  unfold createSessionCard. simpl.
  eapply rendered_trans; [|apply updateSessionCardDOM_rendered].
  split; [repeat split | apply cards_frozen_app].
Qed.

Lemma set_children_rendered P l : rendered P (set_children P l).
Proof. split; [repeat split | exact (cards_frozen_refl P)]. Qed.

Lemma set_listHidden_rendered P b : rendered P (set_listHidden P b).
Proof. split; [repeat split | exact (cards_frozen_refl P)]. Qed.

Lemma updateSessionCard_rendered P session :
  rendered P (updateSessionCard P session).
Proof.
  unfold updateSessionCard.
  destruct (heap P !! session); [|apply rendered_refl].
  destruct (findCard P _); [apply updateSessionCardDOM_rendered | apply rendered_refl].
Qed.

Lemma renderOne_rendered P session : rendered P (renderOne P session).
Proof.
  unfold renderOne. destruct (findCard P _) as [card|].
  - eapply rendered_trans; [apply set_children_rendered|].
    apply updateSessionCardDOM_rendered.
  - pose proof (createSessionCard_rendered P session) as H.
    destruct (createSessionCard P session) as [card P']. simpl in H.
    eapply rendered_trans; [exact H | apply set_children_rendered].
Qed.

Lemma fold_renderOne_rendered l : forall P, rendered P (fold_left renderOne l P).
Proof.
  induction l as [|x l IH]; intros P; simpl; [apply rendered_refl|].
  eapply rendered_trans; [apply renderOne_rendered | apply IH].
Qed.

Lemma renderSessions_rendered P l : rendered P (renderSessions P l).
Proof.
  unfold renderSessions.
  eapply rendered_trans; [apply set_children_rendered|].
  apply fold_renderOne_rendered.
Qed.

Lemma updateDisplay_rendered P : rendered P (updateDisplay P).
Proof.
  unfold updateDisplay. destruct (map_values (sessions P)).
  - apply set_listHidden_rendered.
  - eapply rendered_trans; [apply set_listHidden_rendered|].
    apply renderSessions_rendered.
Qed.

Lemma quiet_refl P : quiet P P.
Proof.
  split; [apply cards_frozen_refl|]. split; [apply heap_kept_refl|]. auto.
Qed.

Lemma quiet_trans P Q R : quiet P Q -> quiet Q R -> quiet P R.
Proof.
  intros (a1 & a2 & a3 & a4 & a5 & a6) (b1 & b2 & b3 & b4 & b5 & b6).
  split; [eapply cards_frozen_trans; eassumption|].
  split; [eapply heap_kept_trans; eassumption|].
  repeat split; congruence.
Qed.

Lemma rendered_quiet P Q : rendered P Q -> quiet P Q.
Proof.
  intros [(h & _ & _ & d & n & _ & p & o) F].
  split; [exact F|]. split; [|auto].
  intros r s Hs. exists s. rewrite h. auto.
Qed.

Lemma storeSession_quiet P s : quiet P (storeSession P s).
Proof.
  split; [intros r c Hc; exists c; auto|].
  split; [|repeat split].
  intros r x Hx. exists x. simpl.
  rewrite lookup_app_l by (eapply lookup_lt_Some; eassumption). auto.
Qed.

Lemma fold_storeSession_quiet l : forall P, quiet P (fold_left storeSession l P).
Proof.
  induction l as [|x l IH]; intros P; simpl; [apply quiet_refl|].
  eapply quiet_trans; [apply storeSession_quiet | apply IH].
Qed.

Lemma set_sessions_quiet P m : quiet P (set_sessions P m).
Proof. exact (quiet_refl P). Qed.

Lemma set_optimisticStates_quiet P o : quiet P (set_optimisticStates P o).
Proof. exact (quiet_refl P). Qed.

Lemma stored_then_rendered_quiet P s :
  quiet P (updateDisplay (updateSessionCard (storeSession P s) (length (heap P)))).
Proof.
  eapply quiet_trans; [apply storeSession_quiet|].
  eapply quiet_trans; apply rendered_quiet;
    [apply updateSessionCard_rendered | apply updateDisplay_rendered].
Qed.

Lemma handleBackgroundMessage_quiet P message now :
  quiet P (handleBackgroundMessage P message now).
Proof.
  destruct message as [l|m|sid]; simpl.
  - eapply quiet_trans; [apply set_sessions_quiet|].
    eapply quiet_trans; [apply fold_storeSession_quiet|].
    apply rendered_quiet, updateDisplay_rendered.
  - destruct (optimisticStates P !! Background.id m) as [o|].
    + destruct (now - opt_timestamp o <? 1000).
      * apply stored_then_rendered_quiet.
      * eapply quiet_trans; [apply set_optimisticStates_quiet|].
        apply (stored_then_rendered_quiet (set_optimisticStates P _)).
    + eapply quiet_trans; [apply set_optimisticStates_quiet|].
      apply (stored_then_rendered_quiet (set_optimisticStates P _)).
  - eapply quiet_trans; [apply set_sessions_quiet|].
    apply set_optimisticStates_quiet.
Qed.

(** ** Rendering, by example *)

Example formatTime_examples :
  formatTime (num 83) = "1:23"
  /\ formatTime (num 5) = "0:05"
  /\ formatTime (Fin (7265 # 2)) = "60:32"
  /\ formatTime (num 0) = "0:00"
  /\ formatTime NaN = "0:00".
Proof. repeat split; vm_compute; reflexivity. Qed.

Example parseMetadata_examples :
  parseMetadata "Song - Band" = ("Song", "Band")
  /\ parseMetadata "A - B - C" = ("A", "B - C")
  /\ parseMetadata "Untitled" = ("Untitled", "")
  /\ parseMetadata "" = ("Unknown Title", "Unknown Artist").
Proof. repeat split; reflexivity. Qed.

(** A drag is started on the card at pointer position 150 over a bar that
    spans 100 to 300 (a quarter of the way); a broadcast with another
    title, paused, at 150 of 200 seconds then arrives.  The card shows the
    new title and the play icon, and its progress part is still the one the
    pointer left. *)
Example update_while_dragging :
  let P := handleBackgroundMessage connected (SESSIONS_INIT [song false 10]) 0 in
  let e := {| clientX := num 150; touchX := None; rectLeft := fun _ => num 100;
              rectWidth := fun _ => num 200 |} in
  let P1 := startDrag P 0 e in
  let m := {| Background.id := "7:0"; Background.tabId := 7;
              Background.frameId := 0; Background.title := "Other - Band";
              Background.url := "https://example.org/";
              Background.favIconUrl := None; Background.artworkUrl := None;
              Background.state :=
                {| Background.paused := true; Background.muted := true;
                   Background.volume := num 0; Background.currentTime := num 150;
                   Background.duration := num 200; Background.canSeek := true;
                   Background.ended := false |};
              Background.lastActiveAt := 1000 |} in
  let P2 := handleBackgroundMessage P1 (SESSION_UPDATED m) 1000 in
  exists c1 c2,
    cardHeap P1 !! 0%nat = Some c1 /\ cardHeap P2 !! 0%nat = Some c2
    /\ dragging c2 = true
    /\ currentTimeText (progress c1) = "0:50"
    /\ progress c2 = progress c1
    /\ titleText c2 = "Other" /\ playButtonShowsPlay c2 = true
    /\ muteIconMuted c2 = true
    /\ posted P2 = [{| cmd_sessionId := "7:0"; cmd := beginSeek |}].
Proof. vm_compute. do 2 eexists. repeat split; reflexivity. Qed.

(** A mouse move at [clientX = 0] during that drag: the coordinate is
    falsy and the event has no [touches], so the position computed is not
    a number.  The fill keeps the width the pointer left (a quarter), the
    time label reads ["0:00"], and the release seeks to a quarter of the
    duration. *)
Example mouse_move_at_zero :
  let P := handleBackgroundMessage connected (SESSIONS_INIT [song false 10]) 0 in
  let bar x := {| clientX := num x; touchX := None; rectLeft := fun _ => num 100;
                  rectWidth := fun _ => num 200 |} in
  let P1 := startDrag P 0 (bar 150) in
  let P2 := documentMove P1 (bar 0) in
  let P3 := documentEnd P2 in
  exists c1 c2,
    cardHeap P1 !! 0%nat = Some c1 /\ cardHeap P2 !! 0%nat = Some c2
    /\ fillWidth (progress c1) = Some (Fin (5000 # 200))
    /\ fillWidth (progress c2) = fillWidth (progress c1)
    /\ currentTimeText (progress c2) = "0:00"
    /\ posted P3
       = [{| cmd_sessionId := "7:0"; cmd := beginSeek |};
          {| cmd_sessionId := "7:0"; cmd := setTime (Fin (1000000 # 20000)) |};
          {| cmd_sessionId := "7:0"; cmd := endSeek |}].
Proof. vm_compute. do 2 eexists. repeat split; reflexivity. Qed.

(** ** Optimistic reconciliation *)

Lemma fold_storeSession_optimistic l : forall P,
  optimisticStates (fold_left storeSession l P) = optimisticStates P.
Proof.
  induction l as [|x l IH]; intros P; simpl; [reflexivity|]. now rewrite IH.
Qed.

Lemma stored_then_rendered_model P s :
  let P' := updateDisplay (updateSessionCard (storeSession P s) (length (heap P))) in
  heap P' = heap P ++ [s]
  /\ sessions P' = map_set (Background.id s) (length (heap P)) (sessions P)
  /\ optimisticStates P' = optimisticStates P.
Proof.
  intros P'. subst P'.
  destruct (updateDisplay_rendered
              (updateSessionCard (storeSession P s) (length (heap P))))
    as [(h1 & s1 & o1 & _) _].
  destruct (updateSessionCard_rendered (storeSession P s) (length (heap P)))
    as [(h2 & s2 & o2 & _) _].
  rewrite h1, s1, o1, h2, s2, o2. auto.
Qed.

(** The session object that a [SESSION_UPDATED] message leaves in
    [sessions], and what becomes of the optimistic entry. *)
Lemma handle_updated P m now :
  let sid := Background.id m in
  let P' := handleBackgroundMessage P (SESSION_UPDATED m) now in
  let r := length (heap P) in
  map_get sid (sessions P') = Some r
  /\ match optimisticStates P !! sid with
     | Some o =>
         if now - opt_timestamp o <? 1000
         then heap P' !! r = Some (set_session_paused m (opt_paused o))
              /\ optimisticStates P' = optimisticStates P
         else heap P' !! r = Some m
              /\ optimisticStates P' = delete sid (optimisticStates P)
     | None => heap P' !! r = Some m
               /\ optimisticStates P' = delete sid (optimisticStates P)
     end.
Proof.
  intros sid P' r. subst P'. simpl. fold sid.
  destruct (optimisticStates P !! sid) as [o|].
  - destruct (now - opt_timestamp o <? 1000).
    + destruct (stored_then_rendered_model P (set_session_paused m (opt_paused o)))
        as (h & ss & oo).
      rewrite ss, h, oo. simpl. fold sid. rewrite map_get_set_eq.
      split; [reflexivity|]. split; [|reflexivity].
      subst r. now rewrite lookup_app_r, Nat.sub_diag by lia.
    + destruct (stored_then_rendered_model
                  (set_optimisticStates P (delete sid (optimisticStates P))) m)
        as (h & ss & oo).
      rewrite ss, h, oo. simpl. fold sid. rewrite map_get_set_eq.
      split; [reflexivity|]. split; [|reflexivity].
      subst r. now rewrite lookup_app_r, Nat.sub_diag by lia.
  - destruct (stored_then_rendered_model
                (set_optimisticStates P (delete sid (optimisticStates P))) m)
      as (h & ss & oo).
    rewrite ss, h, oo. simpl. fold sid. rewrite map_get_set_eq.
    split; [reflexivity|]. split; [|reflexivity].
    subst r. now rewrite lookup_app_r, Nat.sub_diag by lia.
Qed.

Lemma onMove_optimistic P card e :
  optimisticStates (onMove P card e) = optimisticStates P.
Proof.
  unfold onMove. destruct (cardHeap P !! card) as [c|]; [|reflexivity].
  destruct (heap P !! captured c); reflexivity.
Qed.

Lemma sendControlCommand_optimistic P sid v :
  optimisticStates (sendControlCommand P sid v) = optimisticStates P.
Proof. unfold sendControlCommand. destruct (port P); reflexivity. Qed.

Lemma startDrag_optimistic P card e :
  optimisticStates (startDrag P card e) = optimisticStates P.
Proof.
  unfold startDrag. destruct (cardHeap P !! card) as [c|]; [|reflexivity].
  destruct (heap P !! captured c) as [s|]; [|reflexivity].
  destruct (negb _); [reflexivity|].
  rewrite onMove_optimistic. simpl. now rewrite sendControlCommand_optimistic.
Qed.

Lemma onEnd_optimistic P k card :
  optimisticStates (onEnd P k card) = optimisticStates P.
Proof.
  unfold onEnd. destruct (cardHeap P !! card) as [c|]; [|reflexivity].
  destruct (heap P !! captured c) as [s|]; [|reflexivity].
  now rewrite !sendControlCommand_optimistic.
Qed.

Lemma documentMove_optimistic P e :
  optimisticStates (documentMove P e) = optimisticStates P.
Proof.
  unfold documentMove. generalize (docListeners P) as l. intros l. revert P.
  induction l as [|x l IH]; intros P; simpl; [reflexivity|].
  now rewrite IH, onMove_optimistic.
Qed.

Lemma documentEnd_optimistic P :
  optimisticStates (documentEnd P) = optimisticStates P.
Proof.
  unfold documentEnd. generalize (docListeners P) as l. intros l. revert P.
  induction l as [|x l IH]; intros P; simpl; [reflexivity|].
  now rewrite IH, onEnd_optimistic.
Qed.

(** Inside the window the optimistic entry stays where the toggle put it. *)
Lemma step_keeps_entry P ev sid t o :
  within_window sid t ev ->
  opt_timestamp o = t ->
  optimisticStates P !! sid = Some o ->
  optimisticStates (step P ev) !! sid = Some o.
Proof.
  destruct ev as [[[l|m|k]|card|card e|e|] now]; unfold within_window, step;
    cbn [fst snd]; intros Hw Ht Ho.
  - cbn [handleBackgroundMessage].
    destruct (updateDisplay_rendered (fold_left storeSession l (set_sessions P [])))
      as [(_ & _ & oo & _) _].
    now rewrite oo, fold_storeSession_optimistic.
  - destruct (handle_updated P m now) as [_ H].
    destruct (decide (Background.id m = sid)) as [E|E].
    + rewrite E in H. rewrite Ho in H. specialize (Hw E).
      rewrite Ht in H. destruct (Z.ltb_spec (now - t) 1000); [|lia].
      destruct H as [_ ->]. exact Ho.
    + destruct (optimisticStates P !! Background.id m) as [o'|].
      * destruct (now - opt_timestamp o' <? 1000); destruct H as [_ ->];
          [exact Ho | now rewrite lookup_delete_ne].
      * destruct H as [_ ->]. now rewrite lookup_delete_ne.
  - cbn [handleBackgroundMessage]. simpl. now rewrite lookup_delete_ne.
  - destruct Hw.
  - now rewrite startDrag_optimistic.
  - now rewrite documentMove_optimistic.
  - now rewrite documentEnd_optimistic.
Qed.

Lemma handleToggle_other P card now sid :
  toggledSession P card <> Some sid ->
  optimisticStates (handleToggle P card now) !! sid = optimisticStates P !! sid.
Proof.
  unfold toggledSession, handleToggle.
  destruct (cardHeap P !! card) as [c|]; [|reflexivity].
  destruct (heap P !! captured c) as [s|]; [|reflexivity].
  intros Hne. rewrite sendControlCommand_optimistic.
  match goal with
  | |- context [updateSessionCardDOM ?Q ?a ?b] =>
      destruct (updateSessionCardDOM_rendered Q a b) as [(_ & _ & o & _) _];
      rewrite o
  end.
  cbn [optimisticStates set_optimisticStates]. apply lookup_insert_ne. congruence.
Qed.

(** While the clock has not passed [now], with [now] inside the window,
    the entry written at [t] survives everything but a toggle or the
    removal of its session. *)
Lemma step_keeps_assumed P ev sid t o now :
  no_toggle_of sid P ev -> no_removal_of sid ev ->
  snd ev <= now -> now - t < 1000 ->
  opt_timestamp o = t ->
  optimisticStates P !! sid = Some o ->
  optimisticStates (step P ev) !! sid = Some o.
Proof.
  intros Ht Hr Hle Hw Hts Ho.
  destruct (fst ev) as [message|card|card e|e|] eqn:Eev.
  2:{ destruct ev as [x tm]. cbn [fst] in Eev. subst x.
      unfold no_toggle_of in Ht. cbn [fst] in Ht.
      unfold step. cbn [fst snd]. rewrite handleToggle_other; [exact Ho | exact Ht]. }
  all: apply step_keeps_entry with (t := t); [|exact Hts | exact Ho];
    unfold within_window; rewrite Eev; try exact I.
  destruct message as [l|m|k]; [exact I | intros _; lia |].
  unfold no_removal_of in Hr. now rewrite Eev in Hr.
Qed.

Lemma run_keeps_assumed evs : forall P sid t o now,
  throughout (no_toggle_of sid) P evs ->
  Forall (no_removal_of sid) evs ->
  Forall (fun ev => snd ev <= now) evs ->
  now - t < 1000 ->
  opt_timestamp o = t ->
  optimisticStates P !! sid = Some o ->
  optimisticStates (run P evs) !! sid = Some o.
Proof.
  induction evs as [|ev evs IH]; intros P sid t o now Ht Hr Hle Hw Hts Ho;
    cbn [run fold_left]; [exact Ho|].
  destruct Ht as [Ht1 Ht2]. inversion Hr; subst. inversion Hle; subst.
  apply (IH (step P ev) sid (opt_timestamp o) o now); auto.
  eapply step_keeps_assumed; eauto.
Qed.

(** Without a toggle of its session, the entry of [sid] is absent or
    still carries the time of the last toggle. *)
Lemma step_keeps_stamp P ev sid t :
  no_toggle_of sid P ev ->
  match optimisticStates P !! sid with
  | Some o => opt_timestamp o = t
  | None => True
  end ->
  match optimisticStates (step P ev) !! sid with
  | Some o => opt_timestamp o = t
  | None => True
  end.
Proof.
  intros Ht Ho.
  assert (Hdel : forall k,
             match delete k (optimisticStates P) !! sid with
             | Some o => opt_timestamp o = t
             | None => True
             end).
  { intros k. destruct (decide (k = sid)) as [->|Hne].
    - now rewrite lookup_delete_eq.
    - now rewrite lookup_delete_ne. }
  destruct ev as [[[l|m|k]|card|card e|e|] tm]; unfold step; cbn [fst snd].
  - cbn [handleBackgroundMessage].
    destruct (updateDisplay_rendered (fold_left storeSession l (set_sessions P [])))
      as [(_ & _ & oo & _) _].
    now rewrite oo, fold_storeSession_optimistic.
  - destruct (handle_updated P m tm) as [_ H].
    destruct (optimisticStates P !! Background.id m) as [o'|].
    + destruct (tm - opt_timestamp o' <? 1000); destruct H as [_ ->];
        [exact Ho | apply Hdel].
    + destruct H as [_ ->]. apply Hdel.
  - cbn [handleBackgroundMessage optimisticStates set_optimisticStates].
    apply Hdel.
  - now rewrite handleToggle_other.
  - now rewrite startDrag_optimistic.
  - now rewrite documentMove_optimistic.
  - now rewrite documentEnd_optimistic.
Qed.

Lemma run_keeps_stamp evs : forall P sid t,
  throughout (no_toggle_of sid) P evs ->
  match optimisticStates P !! sid with
  | Some o => opt_timestamp o = t
  | None => True
  end ->
  match optimisticStates (run P evs) !! sid with
  | Some o => opt_timestamp o = t
  | None => True
  end.
Proof.
  induction evs as [|ev evs IH]; intros P sid t Ht Ho; cbn [run fold_left];
    [exact Ho|].
  destruct Ht as [Ht1 Ht2]. apply IH; [exact Ht2|].
  now apply step_keeps_stamp.
Qed.

Lemma same_but_paused_set m b : same_but_paused m (set_session_paused m b).
Proof. repeat split. Qed.

Lemma same_but_paused_refl m : same_but_paused m m.
Proof. repeat split. Qed.

Lemma handleToggle_effect P card c s0 t :
  cardHeap P !! card = Some c ->
  heap P !! captured c = Some s0 ->
  let assumed := negb (Background.paused (Background.state s0)) in
  let P1 := handleToggle P card t in
  heap P1 !! captured c = Some (set_session_paused s0 assumed)
  /\ optimisticStates P1 !! Background.id s0
     = Some {| opt_paused := assumed; opt_timestamp := t |}
  /\ (exists c1, cardHeap P1 !! card = Some c1 /\ playButtonShowsPlay c1 = assumed)
  /\ (port P = true ->
      posted P1 = posted P ++ [{| cmd_sessionId := Background.id s0; cmd := toggle |}]).
Proof.
  intros Hc Hs assumed P1. subst P1. unfold handleToggle. rewrite Hc, Hs.
  fold assumed.
  set (P0 := set_optimisticStates _ _).
  assert (Hh0 : heap P0 !! captured c = Some (set_session_paused s0 assumed)).
  { subst P0. simpl. apply list_lookup_insert_eq. eapply lookup_lt_Some; eassumption. }
  assert (Hc0 : cardHeap P0 !! card = Some c) by exact Hc.
  destruct (updateSessionCardDOM_rendered P0 card (captured c))
    as [(h & _ & o & _ & _ & _ & pt & po) _].
  assert (Hcard : exists c1, cardHeap (updateSessionCardDOM P0 card (captured c)) !! card
                             = Some c1 /\ playButtonShowsPlay c1 = assumed).
  { unfold updateSessionCardDOM. rewrite Hc0, Hh0. simpl.
    rewrite list_lookup_insert_eq by (eapply lookup_lt_Some; eassumption).
    eexists. split; [reflexivity|]. unfold renderCard.
    destruct (parseMetadata _). simpl. now destruct assumed. }
  unfold sendControlCommand. rewrite pt.
  destruct (port P0) eqn:Hport; simpl; rewrite h, o.
  - split; [exact Hh0|]. split; [subst P0; simpl; apply lookup_insert_eq|].
    split; [exact Hcard|]. intros _. now rewrite po.
  - split; [exact Hh0|]. split; [subst P0; simpl; apply lookup_insert_eq|].
    split; [exact Hcard|]. subst P0. simpl in Hport. congruence.
Qed.

(** C7, as stated, fails: the remembered value does not survive the
    removal of its session.  After a toggle at 1000 that assumes playing,
    a [SESSION_REMOVED] for the session at 1100 drops the remembered
    value, and the contradicting broadcast handled at 1200, well before
    2000, is stored with its [paused] flag as received. *)
Lemma C7_removal_forgets_assumed_value :
  let P := handleBackgroundMessage connected (SESSIONS_INIT [song true 10]) 0 in
  let P1 := handleToggle P 0 1000 in
  let P2 := handleBackgroundMessage P1 (SESSION_REMOVED "7:0") 1100 in
  let P3 := handleBackgroundMessage P2 (SESSION_UPDATED (song true 11)) 1200 in
  optimisticStates P1 !! "7:0"
  = Some {| opt_paused := false; opt_timestamp := 1000 |}
  /\ 1200 - 1000 < 1000
  /\ exists r s3,
       map_get "7:0" (sessions P3) = Some r
       /\ heap P3 !! r = Some s3
       /\ Background.paused (Background.state s3) = true.
Proof.
  split; [reflexivity|]. split; [lia|].
  exists 1%nat, (song true 11). vm_compute. repeat split; reflexivity.
Qed.

(** C7, amended: a toggle at [t] flips the paused flag of the card's
    session object, leaves its other fields alone, shows the flipped flag
    on the card's button, and remembers the flipped value as assumed.
    Take any events handled after it among which there is no further
    toggle of that session, and then a [SESSION_UPDATED] for the session
    handled at [now].  What is stored has every field of the message but,
    possibly, [paused].  If [now < t + 1000], the session was not removed
    in between and the clock did not run past [now], the stored [paused]
    is the assumed value.  If [now >= t + 1000] the message is stored
    unchanged and no remembered value is left. *)
Theorem C7_optimistic_toggle_window :
  forall P card c s0 t evs m now,
    cardHeap P !! card = Some c ->
    heap P !! captured c = Some s0 ->
    Background.id m = Background.id s0 ->
    throughout (no_toggle_of (Background.id s0)) (handleToggle P card t) evs ->
    let assumed := negb (Background.paused (Background.state s0)) in
    let P1 := handleToggle P card t in
    let P3 := handleBackgroundMessage (run P1 evs) (SESSION_UPDATED m) now in
    (exists s1 c1,
        heap P1 !! captured c = Some s1
        /\ Background.paused (Background.state s1) = assumed
        /\ same_but_paused s0 s1
        /\ cardHeap P1 !! card = Some c1
        /\ playButtonShowsPlay c1 = assumed)
    /\ exists r s3,
         map_get (Background.id m) (sessions P3) = Some r
         /\ heap P3 !! r = Some s3
         /\ same_but_paused m s3
         /\ (now - t < 1000 ->
             Forall (no_removal_of (Background.id s0)) evs ->
             Forall (fun ev => snd ev <= now) evs ->
             Background.paused (Background.state s3) = assumed)
         /\ (1000 <= now - t ->
             s3 = m /\ optimisticStates P3 !! Background.id m = None).
Proof.
  intros P card c s0 t evs m now Hc Hs Hid Htog assumed P1 P3.
  destruct (handleToggle_effect P card c s0 t Hc Hs)
    as (Hflip & Hopt & (c1 & Hc1 & Hbtn) & _).
  fold assumed in Hflip, Hopt, Hbtn. fold P1 in Hflip, Hopt, Hc1.
  split.
  { exists (set_session_paused s0 assumed), c1.
    split; [exact Hflip|]. split; [reflexivity|].
    split; [apply same_but_paused_set|]. split; [exact Hc1 | exact Hbtn]. }
  assert (Hstamp : match optimisticStates (run P1 evs) !! Background.id m with
                   | Some o => opt_timestamp o = t
                   | None => True
                   end).
  { rewrite Hid. apply run_keeps_stamp; [exact Htog|]. now rewrite Hopt. }
  assert (Hkept : now - t < 1000 ->
                  Forall (no_removal_of (Background.id s0)) evs ->
                  Forall (fun ev => snd ev <= now) evs ->
                  optimisticStates (run P1 evs) !! Background.id m
                  = Some {| opt_paused := assumed; opt_timestamp := t |}).
  { intros Hw Hr Hle. rewrite Hid.
    now apply (run_keeps_assumed evs P1 (Background.id s0) t _ now). }
  destruct (handle_updated (run P1 evs) m now) as [Hget H].
  fold P3 in Hget, H.
  exists (length (heap (run P1 evs))).
  destruct (optimisticStates (run P1 evs) !! Background.id m) as [o|] eqn:Eo.
  - destruct (Z.ltb_spec (now - opt_timestamp o) 1000) as [Hlt|Hge];
      destruct H as [Hh Ho].
    + exists (set_session_paused m (opt_paused o)).
      split; [exact Hget|]. split; [exact Hh|].
      split; [apply same_but_paused_set|]. split.
      * intros Hw Hr Hle. specialize (Hkept Hw Hr Hle).
        injection Hkept as ->. reflexivity.
      * intros Hn. lia.
    + exists m. split; [exact Hget|]. split; [exact Hh|].
      split; [apply same_but_paused_refl|]. split.
      * intros Hw Hr Hle. specialize (Hkept Hw Hr Hle).
        injection Hkept as ->. cbn [opt_timestamp] in Hge. lia.
      * intros _. split; [reflexivity|]. rewrite Ho. apply lookup_delete_eq.
  - destruct H as [Hh Ho].
    exists m. split; [exact Hget|]. split; [exact Hh|].
    split; [apply same_but_paused_refl|]. split.
    + intros Hw Hr Hle. specialize (Hkept Hw Hr Hle). discriminate Hkept.
    + intros _. split; [reflexivity|]. rewrite Ho. apply lookup_delete_eq.
Qed.

Lemma C7_witness :
  let P := handleBackgroundMessage connected (SESSIONS_INIT [song true 10]) 0 in
  let P1 := handleToggle P 0 1000 in
  let evs := [(Inbound (SESSION_UPDATED (song true 11)), 1200)] in
  let P3 := handleBackgroundMessage (run P1 evs)
              (SESSION_UPDATED (song true 12)) 1500 in
  exists r s3,
    map_get "7:0" (sessions P3) = Some r
    /\ heap P3 !! r = Some s3
    /\ same_but_paused (song true 12) s3
    /\ Background.paused (Background.state s3) = false.
Proof.
  intros P P1 evs P3.
  assert (Hc : exists c, cardHeap P !! 0%nat = Some c /\ captured c = 0%nat)
    by (vm_compute; eexists; split; reflexivity).
  destruct Hc as (c & Hc & Hcap).
  assert (Hs : heap P !! captured c = Some (song true 10))
    by (rewrite Hcap; reflexivity).
  assert (Htog : throughout (no_toggle_of "7:0") P1 evs)
    by (split; exact I).
  destruct (C7_optimistic_toggle_window P 0%nat c (song true 10) 1000 evs
              (song true 12) 1500 Hc Hs eq_refl Htog)
    as (_ & r & s3 & Hget & Hh & Hsame & Hin & _).
  exists r, s3. split; [exact Hget|]. split; [exact Hh|]. split; [exact Hsame|].
  apply Hin; [lia | repeat constructor | repeat constructor; cbn; lia].
Defined.

(** ** Drag to seek *)

Lemma drag_safe_refl P : drag_safe P P.
Proof.
  split; [apply cards_kept_refl|]. split; [apply heap_kept_refl|]. auto.
Qed.

Lemma drag_safe_trans P Q R : drag_safe P Q -> drag_safe Q R -> drag_safe P R.
Proof.
  intros (a1 & a2 & a3 & a4) (b1 & b2 & b3 & b4).
  split; [eapply cards_kept_trans; eassumption|].
  split; [eapply heap_kept_trans; eassumption|].
  split; congruence.
Qed.

Lemma quiet_drag_safe P Q : quiet P Q -> drag_safe P Q.
Proof.
  intros (F & H & d & _ & p & _).
  split; [now apply cards_frozen_kept|]. auto.
Qed.

Lemma onMove_drag_safe P card e :
  drag_safe P (onMove P card e) /\ posted (onMove P card e) = posted P.
Proof.
  unfold onMove. destruct (cardHeap P !! card) as [c|] eqn:Hc;
    [|split; [apply drag_safe_refl | reflexivity]].
  destruct (heap P !! captured c) as [s|];
    [|split; [apply drag_safe_refl | reflexivity]].
  split; [|reflexivity].
  split; [|split; [exact (heap_kept_refl P) | auto]].
  intros r x Hx. simpl.
  destruct (decide (r = card)) as [->|Hne].
  - rewrite list_lookup_insert_eq by (eapply lookup_lt_Some; eassumption).
    rewrite Hc in Hx. injection Hx as <-. eexists. split; [reflexivity|]. auto.
  - exists x. rewrite list_lookup_insert_ne by congruence. auto.
Qed.

Lemma documentMove_drag_safe P e : drag_safe P (documentMove P e).
Proof.
  unfold documentMove. generalize (docListeners P) as l. intros l. revert P.
  induction l as [|x l IH]; intros P; simpl; [apply drag_safe_refl|].
  eapply drag_safe_trans; [apply onMove_drag_safe | apply IH].
Qed.

Lemma sendControlCommand_drag_safe P sid v :
  drag_safe P (sendControlCommand P sid v).
Proof.
  unfold sendControlCommand. destruct (port P) eqn:E; [|apply drag_safe_refl].
  split; [exact (cards_kept_refl P)|]. split; [exact (heap_kept_refl P)|].
  simpl. auto.
Qed.

Lemma handleToggle_drag_safe P card now : drag_safe P (handleToggle P card now).
Proof.
  unfold handleToggle.
  destruct (cardHeap P !! card) as [c|] eqn:Hc; [|apply drag_safe_refl].
  destruct (heap P !! captured c) as [s|] eqn:Hs; [|apply drag_safe_refl].
  eapply drag_safe_trans; [|apply sendControlCommand_drag_safe].
  eapply drag_safe_trans;
    [|apply quiet_drag_safe, rendered_quiet, updateSessionCardDOM_rendered].
  split; [exact (cards_kept_refl P)|]. split; [|auto].
  intros r x Hx. simpl.
  destruct (decide (r = captured c)) as [->|Hne].
  - rewrite list_lookup_insert_eq by (eapply lookup_lt_Some; eassumption).
    rewrite Hs in Hx. injection Hx as <-. eexists. split; [reflexivity|]. auto.
  - exists x. rewrite list_lookup_insert_ne by congruence. auto.
Qed.

Lemma step_drag_safe P ev : during_drag ev -> drag_safe P (step P ev).
Proof.
  destruct ev as [[message|card|card e|e|] now]; unfold during_drag, step;
    cbn [fst snd]; intros H; try destruct H.
  - apply quiet_drag_safe, handleBackgroundMessage_quiet.
  - apply handleToggle_drag_safe.
  - apply documentMove_drag_safe.
Qed.

Lemma run_drag_safe evs : forall P,
  Forall during_drag evs -> drag_safe P (run P evs).
Proof.
  induction evs as [|ev evs IH]; intros P Hevs; simpl; [apply drag_safe_refl|].
  inversion Hevs; subst.
  apply drag_safe_trans with (Q := step P ev);
    [apply step_drag_safe; assumption | now apply IH].
Qed.

Lemma startDrag_effect P card c s e :
  cardHeap P !! card = Some c ->
  heap P !! captured c = Some s ->
  truthy (Background.duration (Background.state s)) = true ->
  let P1 := startDrag P card e in
  docListeners P1 = docListeners P ++ [(nextClosure P, card)]
  /\ port P1 = port P
  /\ (exists c1, cardHeap P1 !! card = Some c1
                  /\ dragging c1 = true /\ captured c1 = captured c)
  /\ heap_kept P P1
  /\ (port P = true ->
      posted P1 = posted P ++ [{| cmd_sessionId := Background.id s; cmd := beginSeek |}]).
Proof.
  intros Hc Hs Hd P1. subst P1. unfold startDrag. rewrite Hc, Hs, Hd.
  cbn [negb].
  set (P0 := set_docListeners _ _ _).
  assert (Hc0 : cardHeap P0 !! card = Some (set_dragging c true)).
  { subst P0. unfold sendControlCommand. simpl.
    destruct (port P); simpl;
      apply list_lookup_insert_eq; eapply lookup_lt_Some; eassumption. }
  assert (Hh0 : heap P0 = heap P).
  { subst P0. unfold sendControlCommand. simpl. now destruct (port P). }
  assert (Hd0 : docListeners P0 = docListeners P ++ [(nextClosure P, card)]).
  { subst P0. unfold sendControlCommand. simpl. now destruct (port P). }
  assert (Hp0 : port P0 = port P).
  { subst P0. unfold sendControlCommand. simpl.
    destruct (port P) eqn:E; simpl; now rewrite ?E. }
  destruct (onMove_drag_safe P0 card e) as [(K & H & d & p) po].
  rewrite d, p, Hd0, Hp0. split; [reflexivity|]. split; [reflexivity|]. split.
  { destruct (K card _ Hc0) as (c1 & Hc1 & _ & E2 & E3).
    exists c1. split; [exact Hc1|]. split; [exact E3 | exact E2]. }
  split.
  { intros r x Hx. rewrite <- Hh0 in Hx. exact (H r x Hx). }
  intros Hport. rewrite po. subst P0. unfold sendControlCommand. simpl.
  rewrite Hport. reflexivity.
Qed.

Lemma onEnd_effect P k card c s :
  cardHeap P !! card = Some c ->
  heap P !! captured c = Some s ->
  port P = true ->
  let P' := onEnd P k card in
  posted P'
  = posted P
    ++ [{| cmd_sessionId := Background.id s;
           cmd := setTime (mul (div (default NaN (fillWidth (progress c))) (num 100))
                              (Background.duration (Background.state s))) |};
        {| cmd_sessionId := Background.id s; cmd := endSeek |}]
  /\ cardHeap P' !! card = Some (set_dragging c false)
  /\ docListeners P'
     = List.filter (fun kc => negb (fst kc =? k)%nat) (docListeners P).
Proof.
  intros Hc Hs Hport P'. subst P'. unfold onEnd. rewrite Hc, Hs.
  unfold sendControlCommand. simpl. rewrite Hport. simpl. rewrite Hport. simpl.
  split; [now rewrite <- app_assoc|]. split; [|reflexivity].
  apply list_lookup_insert_eq. eapply lookup_lt_Some; eassumption.
Qed.

(** C8: (1) handling any inbound message leaves the progress part (fill
    width, handle position and time labels) of every card flagged as
    dragging as it was, and the card stays flagged; (2) rendering a session
    into a dragging card still updates its title, artist, play button,
    mute icon and (unless focused) volume slider; (3) a drag started on a
    card while no other drag is pending, followed by any inbound messages,
    toggles and pointer moves, keeps the card flagged as dragging, and the
    pointer release then posts exactly one [setTime] followed by exactly
    one [endSeek] for the card's session, clears the flag and leaves no
    drag listener behind. *)
Theorem C8_drag_suppression_and_drag_end :
  (forall P message now r c,
      cardHeap P !! r = Some c -> dragging c = true ->
      exists c',
        cardHeap (handleBackgroundMessage P message now) !! r = Some c'
        /\ dragging c' = true /\ progress c' = progress c)
  /\ (forall focused c s,
        dragging c = true ->
        let c' := renderCard focused c s in
        progress c' = progress c
        /\ (titleText c', artistText c') = parseMetadata (Background.title s)
        /\ playButtonShowsPlay c' = Background.paused (Background.state s)
        /\ muteIconMuted c' = Background.muted (Background.state s)
        /\ (focused = false ->
            sliderValue c' = Background.volume (Background.state s)))
  /\ (forall P card c s e evs,
        docListeners P = [] -> port P = true ->
        cardHeap P !! card = Some c ->
        heap P !! captured c = Some s ->
        truthy (Background.duration (Background.state s)) = true ->
        Forall during_drag evs ->
        let P2 := run (startDrag P card e) evs in
        let P3 := documentEnd P2 in
        exists c2,
          cardHeap P2 !! card = Some c2 /\ dragging c2 = true
          /\ posted P3
             = posted P2
               ++ [{| cmd_sessionId := Background.id s;
                      cmd := setTime
                               (mul (div (default NaN (fillWidth (progress c2)))
                                         (num 100))
                                    (Background.duration (Background.state s))) |};
                   {| cmd_sessionId := Background.id s; cmd := endSeek |}]
          /\ cardHeap P3 !! card = Some (set_dragging c2 false)
          /\ docListeners P3 = []).
Proof.
  split; [|split].
  - intros P message now r c Hc Hd.
    destruct (handleBackgroundMessage_quiet P message now) as (F & _).
    destruct (F r c Hc) as (c' & Hc' & _ & _ & E3 & E4).
    exists c'. split; [exact Hc'|]. split; [congruence | auto].
  - intros focused c s Hd c'. subst c'. unfold renderCard.
    destruct (parseMetadata (Background.title s)) as [t a]. simpl.
    rewrite Hd. simpl. repeat split. now intros ->.
  - intros P card c s e evs Hl Hport Hc Hs Hdur Hevs P2 P3.
    destruct (startDrag_effect P card c s e Hc Hs Hdur)
      as (Hd1 & Hp1 & (c1 & Hc1 & Hdr1 & Hcap1) & Hh1 & _).
    rewrite Hl in Hd1. simpl in Hd1.
    destruct (Hh1 _ _ Hs) as (s1 & Hs1 & Hid1 & Hdu1).
    destruct (run_drag_safe evs (startDrag P card e) Hevs) as (K & H & Hd2 & Hp2).
    fold P2 in K, H, Hd2, Hp2.
    destruct (K card c1 Hc1) as (c2 & Hc2 & _ & Hcap2 & Hdr2).
    destruct (H _ _ Hs1) as (s2 & Hs2 & Hid2 & Hdu2).
    rewrite Hd1 in Hd2. rewrite Hp1, Hport in Hp2.
    rewrite <- Hcap1, <- Hcap2 in Hs2.
    destruct (onEnd_effect P2 (nextClosure P) card c2 s2 Hc2 Hs2 Hp2)
      as (Hposted & Hcard & Hdl).
    exists c2. split; [exact Hc2|]. split; [congruence|].
    subst P3. unfold documentEnd. rewrite Hd2. simpl.
    split; [|split; [exact Hcard|]].
    + rewrite Hposted. now rewrite Hid2, Hid1, Hdu2, Hdu1.
    + rewrite Hdl, Hd2. simpl. now rewrite Nat.eqb_refl.
Qed.

Lemma C8_witness :
  let P := handleBackgroundMessage connected (SESSIONS_INIT [song false 10]) 0 in
  let e := {| clientX := num 150; touchX := None; rectLeft := fun _ => num 100;
              rectWidth := fun _ => num 200 |} in
  let evs := [(Inbound (SESSION_UPDATED (song false 11)), 1000);
              (PointerMove {| clientX := num 200; touchX := None;
                              rectLeft := fun _ => num 100;
                              rectWidth := fun _ => num 200 |}, 1100);
              (Inbound (SESSION_UPDATED (song false 12)), 2000)] in
  let P2 := run (startDrag P 0 e) evs in
  exists c2 t,
    cardHeap P2 !! 0%nat = Some c2 /\ dragging c2 = true
    /\ posted (documentEnd P2)
       = posted P2 ++ [{| cmd_sessionId := "7:0"; cmd := setTime t |};
                       {| cmd_sessionId := "7:0"; cmd := endSeek |}]
    /\ docListeners (documentEnd P2) = [].
Proof.
  intros P e evs P2.
  assert (Hc : exists c, cardHeap P !! 0%nat = Some c /\ captured c = 0%nat)
    by (vm_compute; eexists; split; reflexivity).
  destruct Hc as (c & Hc & Hcap).
  assert (Hs : heap P !! captured c = Some (song false 10))
    by (rewrite Hcap; reflexivity).
  assert (Hevs : Forall during_drag evs) by (repeat constructor).
  destruct (proj2 (proj2 C8_drag_suppression_and_drag_end)
              P 0%nat c (song false 10) e evs eq_refl eq_refl Hc Hs eq_refl Hevs)
    as (c2 & H1 & H2 & H3 & _ & H5).
  exists c2. eexists. split; [exact H1|]. split; [exact H2|].
  split; [exact H3 | exact H5].
Defined.

End PopupFacts.

(** * Further properties of the coordinator *)

Section CoordinatorExtras.

Import JS Background.

Lemma map_get_delete_eq {V} (k : string) (m : JsMap V) :
  map_get k (map_delete k m) = None.
Proof.
  unfold map_delete. induction m as [|[k' v] m IH]; simpl; [reflexivity|].
  destruct (String.eqb_spec k k') as [->|Hne]; simpl; [exact IH|].
  destruct (String.eqb_spec k k'); [congruence | exact IH].
Qed.

Lemma map_get_delete_ne {V} (k k' : string) (m : JsMap V) :
  k <> k' -> map_get k' (map_delete k m) = map_get k' m.
Proof.
  intros Hne. unfold map_delete. induction m as [|[k0 v] m IH]; simpl; [reflexivity|].
  destruct (String.eqb_spec k k0) as [->|Hk]; simpl.
  - destruct (String.eqb_spec k' k0); [congruence | exact IH].
  - destruct (String.eqb_spec k' k0); [reflexivity | exact IH].
Qed.

Lemma map_has_keys {V} (k : string) (m : JsMap V) :
  map_has k m = true <-> In k (map fst m).
Proof.
  unfold map_has. induction m as [|[k' v] m IH]; simpl; [split; [discriminate|tauto]|].
  destruct (String.eqb_spec k k') as [->|Hne].
  - split; auto.
  - rewrite IH. split; [auto | intros [H|H]; [congruence | exact H]].
Qed.

Lemma map_set_keys {V} (k : string) (v : V) (m : JsMap V) :
  map fst (map_set k v m)
  = if map_has k m then map fst m else map fst m ++ [k].
Proof.
  unfold map_has. induction m as [|[k' v'] m IH]; simpl; [reflexivity|].
  destruct (String.eqb_spec k k') as [->|Hne]; simpl; [reflexivity|].
  rewrite IH. now destruct (map_get k m).
Qed.

Lemma map_set_keys_unique {V} (k : string) (v : V) (m : JsMap V) :
  NoDup (map fst m) -> NoDup (map fst (map_set k v m)).
Proof.
  intros H. rewrite map_set_keys. destruct (map_has k m) eqn:E; [exact H|].
  apply NoDup_app. split; [exact H|]. split; [|apply NoDup_singleton].
  intros x Hx Hk. apply list_elem_of_In in Hx.
  apply list_elem_of_singleton in Hk as ->.
  apply map_has_keys in Hx. congruence.
Qed.

Lemma map_delete_keys {V} (k : string) (m : JsMap V) :
  map fst (map_delete k m)
  = List.filter (fun k' => negb (String.eqb k k')) (map fst m).
Proof.
  unfold map_delete. induction m as [|[k' v] m IH]; simpl; [reflexivity|].
  destruct (String.eqb k k'); simpl; now rewrite IH.
Qed.

Lemma filter_NoDup {A} (f : A -> bool) (l : list A) :
  NoDup l -> NoDup (List.filter f l).
Proof.
  induction 1 as [|x l Hx Hl IH]; simpl; [constructor|].
  destruct (f x); [|exact IH]. constructor; [|exact IH].
  rewrite list_elem_of_In, filter_In, <- list_elem_of_In. tauto.
Qed.

Lemma map_delete_keys_unique {V} (k : string) (m : JsMap V) :
  NoDup (map fst m) -> NoDup (map fst (map_delete k m)).
Proof. intros H. rewrite map_delete_keys. now apply filter_NoDup. Qed.

Lemma map_delete_set_absent {V} (k : string) (v : V) (m : JsMap V) :
  map_get k m = None -> map_delete k (map_set k v m) = m.
Proof.
  unfold map_delete. induction m as [|[k' v'] m IH]; simpl.
  - now rewrite String.eqb_refl.
  - destruct (String.eqb_spec k k') as [->|Hne]; [discriminate|].
    intros H. simpl. destruct (String.eqb_spec k k'); [congruence|].
    simpl. now rewrite IH.
Qed.

Lemma map_has_set {V} (k k' : string) (v : V) (m : JsMap V) :
  map_has k' m = true -> map_has k' (map_set k v m) = true.
Proof.
  unfold map_has. destruct (String.eqb_spec k k') as [->|Hne].
  - now rewrite map_get_set_eq.
  - now rewrite map_get_set_ne.
Qed.

Lemma In_map_has {V} (k : string) (v : V) (m : JsMap V) :
  In (k, v) m -> map_has k m = true.
Proof.
  intros H. apply map_has_keys. apply in_map_iff. now exists (k, v).
Qed.

(** What [findMostRecentActiveSession] returns is [null] or the [id] field
    of a stored record. *)
Lemma findMostRecent_stored (m : JsMap Session) :
  findMostRecentActiveSession m = None
  \/ exists k s, In (k, s) m /\ findMostRecentActiveSession m = Some (id s).
Proof.
  unfold findMostRecentActiveSession.
  destruct (mostRecent_fold (map_values m) None 0) as (_ & _ & [H|(s & Hs & H)]).
  - left. now rewrite H.
  - right. unfold map_values in Hs. apply in_map_iff in Hs as ([k s'] & <- & HIn).
    exists k, s'. split; [exact HIn | now rewrite H].
Qed.

Lemma updateSession_pointer m d st tabId frameId tab now :
  sd_state d = Some st ->
  lastActiveSessionId (fst (updateSession m d tabId frameId tab now))
  = Some (sessionIdOf tabId frameId)
  \/ lastActiveSessionId (fst (updateSession m d tabId frameId tab now))
     = lastActiveSessionId m.
Proof.
  intros Hst. unfold updateSession. rewrite Hst.
  destruct (map_get _ (sessions m)) as [p|]; simpl.
  - destruct (paused (state p) && negb (paused st));
      match goal with |- context [if ?b then _ else _] => destruct b end;
      simpl; auto.
  - destruct (negb (paused st)); simpl; auto.
Qed.

Lemma sessionIdOf_nonempty tabId frameId : sessionIdOf tabId frameId <> EmptyString.
Proof.
  unfold sessionIdOf. destruct (pretty tabId); simpl; discriminate.
Qed.

Lemma updateSession_inv m d tabId frameId tab now :
  0 < now -> coordinator_inv m ->
  coordinator_inv (fst (updateSession m d tabId frameId tab now)).
Proof.
  intros Hnow (Hwf & Hk & Hp & Hne).
  split; [now apply updateSession_wf|].
  destruct (sd_state d) as [st|] eqn:Hst;
    [|rewrite updateSession_malformed by assumption; auto].
  destruct (updateSession_sessions m d st tabId frameId tab now Hst) as (s & Hs & _).
  split; [|split].
  - unfold keys_unique. rewrite Hs. now apply map_set_keys_unique.
  - unfold pointer_ok.
    destruct (updateSession_pointer m d st tabId frameId tab now Hst) as [E|E];
      rewrite E, Hs.
    + unfold map_has. now rewrite map_get_set_eq.
    + unfold pointer_ok in Hp. destruct (lastActiveSessionId m); [|exact I].
      now apply map_has_set.
  - unfold keys_nonempty. rewrite Hs, map_set_keys. intros k Hk'.
    destruct (map_has (sessionIdOf tabId frameId) (sessions m)); [now apply Hne|].
    apply in_app_or in Hk' as [Hk'|[<-|[]]]; [now apply Hne|].
    apply sessionIdOf_nonempty.
Qed.

Lemma removeSession_inv m sid :
  coordinator_inv m -> coordinator_inv (fst (removeSession m sid)).
Proof.
  intros (Hwf & Hk & Hp & Hne).
  assert (Hwf' : registry_wf (fst (removeSession m sid))).
  { intros k s HIn. rewrite removeSession_sessions in HIn.
    apply map_delete_In in HIn as [HIn _]. now apply Hwf. }
  split; [exact Hwf'|]. split; [|split].
  - unfold keys_unique. rewrite removeSession_sessions.
    now apply map_delete_keys_unique.
  - unfold pointer_ok, removeSession in *.
    destruct (map_has sid (sessions m)) eqn:Hhas; simpl; [|exact Hp].
    destruct (bool_decide (lastActiveSessionId m = Some sid)) eqn:Hact.
    + destruct (findMostRecent_stored (map_delete sid (sessions m)))
        as [->|(k & s & HIn & ->)]; [exact I|].
      assert (id s = k).
      { apply map_delete_In in HIn as [HIn _]. now apply Hwf. }
      subst k. eapply In_map_has; eassumption.
    + apply bool_decide_eq_false in Hact.
      destruct (lastActiveSessionId m) as [a|]; [|exact I].
      unfold map_has in *. rewrite map_get_delete_ne; [exact Hp | congruence].
  - unfold keys_nonempty. rewrite removeSession_sessions, map_delete_keys.
    intros k Hk'. apply filter_In in Hk' as [Hk' _]. now apply Hne.
Qed.

Lemma removeAll_inv ks : forall m,
  coordinator_inv m -> coordinator_inv (fst (removeAll m ks)).
Proof.
  unfold removeAll.
  assert (H : forall acc, coordinator_inv (fst acc) ->
            coordinator_inv
              (fst (fold_left
                      (fun acc sessionId =>
                         (fst (removeSession (fst acc) sessionId),
                          snd acc ++ snd (removeSession (fst acc) sessionId)))
                      ks acc))).
  { induction ks as [|k ks IH]; intros acc Hacc; simpl; [exact Hacc|].
    apply IH. simpl. now apply removeSession_inv. }
  intros m Hm. now apply H.
Qed.

Lemma apply_op_inv m op :
  op_clock_positive op -> coordinator_inv m -> coordinator_inv (apply_op m op).
Proof.
  destruct op as [d tabId frameId tab now|sid|tab|command]; simpl; intros Hop Hm.
  - now apply updateSession_inv.
  - now apply removeSession_inv.
  - now apply removeAll_inv.
  - now apply removeSession_inv.
Qed.

Lemma apply_ops_inv ops : forall m,
  Forall op_clock_positive ops -> coordinator_inv m ->
  coordinator_inv (apply_ops m ops).
Proof.
  unfold apply_ops. induction ops as [|op ops IH]; intros m Hops Hm; simpl;
    [exact Hm|].
  inversion Hops; subst. apply IH; [assumption|]. now apply apply_op_inv.
Qed.

Lemma initial_inv : coordinator_inv initial.
Proof.
  split; [intros k s []|]. split; [constructor|].
  split; [exact I | intros k []].
Qed.

(** Whatever snapshots, removals, tab closures and failed deliveries the
    coordinator has handled (the clock reading positive), every record is
    stored under its own non-empty id, no id is stored twice, and the
    active pointer is [null] or the id of a stored session. *)
Theorem coordinator_invariant :
  forall ops,
    Forall op_clock_positive ops ->
    coordinator_inv (apply_ops initial ops).
Proof.
  intros ops Hops. apply apply_ops_inv; [exact Hops | exact initial_inv].
Qed.

Lemma coordinator_invariant_witness :
  coordinator_inv
    (apply_ops initial
       [OpUpdate {| sd_title := "a"; sd_artworkUrl := None;
                    sd_state := Some {| paused := false; muted := false;
                                        volume := num 1; currentTime := num 10;
                                        duration := num 50; canSeek := true;
                                        ended := false |} |}
          7 0 {| tab_title := "t"; tab_url := "u"; tab_favIconUrl := None |} 1000;
        OpRemoveTab 7;
        OpDeliveryFailed {| cc_sessionId := "7:0"; cc_cmd := "toggle";
                            cc_params := [] |}]).
Proof.
  apply coordinator_invariant. repeat constructor.
Defined.

(** ** Closing a tab *)

Lemma filter_filter {A} (f g : A -> bool) (l : list A) :
  List.filter f (List.filter g l) = List.filter (fun x => g x && f x) l.
Proof.
  induction l as [|x l IH]; simpl; [reflexivity|].
  destruct (g x); simpl; [destruct (f x)|]; now rewrite IH.
Qed.

Lemma removeSession_present m k :
  map_has k (sessions m) = true ->
  sessions (fst (removeSession m k)) = map_delete k (sessions m)
  /\ snd (removeSession m k) = [SESSION_REMOVED k]
  /\ lastBroadcastTimestamps (fst (removeSession m k)) = lastBroadcastTimestamps m.
Proof. intros H. unfold removeSession. rewrite H. simpl. auto. Qed.

Lemma removeAll_fold ks : forall m out,
  NoDup ks ->
  (forall k, In k ks -> map_has k (sessions m) = true) ->
  let res :=
    fold_left
      (fun acc sessionId =>
         (fst (removeSession (fst acc) sessionId),
          snd acc ++ snd (removeSession (fst acc) sessionId)))
      ks (m, out) in
  sessions (fst res)
  = List.filter (fun kv => negb (existsb (String.eqb (fst kv)) ks)) (sessions m)
  /\ snd res = out ++ map SESSION_REMOVED ks.
Proof.
  induction ks as [|k ks IH]; intros m out Hnd Hall; simpl.
  - split; [|now rewrite app_nil_r].
    induction (sessions m) as [|kv l IHl]; simpl; [reflexivity | now rewrite <- IHl].
  - apply NoDup_cons in Hnd as [Hk Hnd].
    destruct (removeSession_present m k (Hall k (or_introl eq_refl)))
      as (Hs & Ho & _).
    destruct (IH (fst (removeSession m k)) (out ++ snd (removeSession m k)) Hnd)
      as [H1 H2].
    { intros k' Hk'. rewrite Hs. unfold map_has.
      rewrite map_get_delete_ne.
      - apply (Hall k' (or_intror Hk')).
      - intros ->. apply Hk. now apply list_elem_of_In. }
    split.
    + rewrite H1, Hs. unfold map_delete. rewrite filter_filter.
      apply filter_ext. intros [k0 v]. simpl.
      rewrite String.eqb_sym. now rewrite negb_orb.
    + rewrite H2, Ho. now rewrite <- app_assoc.
Qed.

Lemma keys_filter_NoDup {V} (f : string * V -> bool) (m : JsMap V) :
  NoDup (map fst m) -> NoDup (map fst (List.filter f m)).
Proof.
  induction m as [|kv m IH]; simpl; [constructor|].
  intros H. apply NoDup_cons in H as [Hk Hnd].
  destruct (f kv); simpl; [|now apply IH].
  constructor; [|now apply IH].
  intros Hin. apply Hk. apply list_elem_of_In in Hin. apply list_elem_of_In.
  apply in_map_iff in Hin as (x & Hx & HIn). apply filter_In in HIn as [HIn _].
  apply in_map_iff. now exists x.
Qed.

Lemma keys_unique_value {V} (m : JsMap V) k v v' :
  NoDup (map fst m) -> In (k, v) m -> In (k, v') m -> v = v'.
Proof.
  induction m as [|[k0 v0] m IH]; simpl; [tauto|].
  intros H. apply NoDup_cons in H as [Hk Hnd].
  intros [E1|H1] [E2|H2].
  - congruence.
  - inversion E1; subst. exfalso. apply Hk. apply list_elem_of_In.
    apply in_map_iff. now exists (k, v').
  - inversion E2; subst. exfalso. apply Hk. apply list_elem_of_In.
    apply in_map_iff. now exists (k, v).
  - now apply IH.
Qed.

(** Closing a tab removes exactly the sessions of that tab: the sessions
    of other tabs stay, in their order, and one [SESSION_REMOVED] is
    broadcast per removed session, in registry order. *)
Theorem removeSessionsForTab_exact :
  forall m tab,
    keys_unique m ->
    sessions (fst (removeSessionsForTab m tab))
    = List.filter (fun kv => negb (tabId (snd kv) =? tab)) (sessions m)
    /\ snd (removeSessionsForTab m tab)
       = map SESSION_REMOVED
           (map fst (List.filter (fun kv => tabId (snd kv) =? tab) (sessions m))).
Proof.
  intros m tab Hk. unfold removeSessionsForTab, removeAll.
  set (ks := map fst (List.filter (fun kv => tabId (snd kv) =? tab) (sessions m))).
  destruct (removeAll_fold ks m []) as [H1 H2].
  - now apply keys_filter_NoDup.
  - intros k Hin. apply map_has_keys. subst ks.
    apply in_map_iff in Hin as (x & <- & HIn). apply filter_In in HIn as [HIn _].
    apply in_map_iff. now exists x.
  - split; [|exact H2]. rewrite H1. apply filter_ext_in. intros [k v] HIn. simpl.
    f_equal. destruct (tabId v =? tab) eqn:E.
    + apply existsb_exists. exists k. split; [|apply String.eqb_refl].
      subst ks. apply in_map_iff. exists (k, v). split; [reflexivity|].
      apply filter_In. auto.
    + apply not_true_is_false. intros Hex.
      apply existsb_exists in Hex as (k' & Hin & Heq).
      apply String.eqb_eq in Heq. subst k'. subst ks.
      apply in_map_iff in Hin as ([k' v'] & Hk' & HIn'). simpl in Hk'. subst k'.
      apply filter_In in HIn' as [HIn' Htab]. simpl in Htab.
      assert (v = v') by (eapply keys_unique_value; eassumption).
      subst v'. congruence.
Qed.

Lemma removeSessionsForTab_exact_witness :
  let st := {| paused := false; muted := false; volume := num 1;
               currentTime := num 10; duration := num 50; canSeek := true;
               ended := false |} in
  let mk sid t := {| id := sid; tabId := t; frameId := 0; title := "a";
                     url := "u"; favIconUrl := None; artworkUrl := None;
                     state := st; lastActiveAt := 1000 |} in
  let m := {| sessions := [("7:0", mk "7:0" 7); ("8:0", mk "8:0" 8);
                           ("7:5", mk "7:5" 7)];
              lastActiveSessionId := Some "7:0";
              lastBroadcastTimestamps := ∅ |} in
  sessions (fst (removeSessionsForTab m 7)) = [("8:0", mk "8:0" 8)]
  /\ snd (removeSessionsForTab m 7) = [SESSION_REMOVED "7:0"; SESSION_REMOVED "7:5"].
Proof.
  intros st mk m.
  assert (Hk : keys_unique m).
  { unfold keys_unique. simpl. repeat constructor; rewrite ?list_elem_of_In;
      simpl; intuition discriminate. }
  exact (removeSessionsForTab_exact m 7 Hk).
Defined.

(** ** Routing commands *)

Lemma updateSession_address m d st tabId frameId tab now :
  sd_state d = Some st ->
  exists s,
    map_get (sessionIdOf tabId frameId)
      (sessions (fst (updateSession m d tabId frameId tab now))) = Some s
    /\ Background.tabId s = tabId /\ Background.frameId s = frameId.
Proof.
  intros Hst. unfold updateSession. rewrite Hst.
  destruct (map_get _ (sessions m)) as [p|] eqn:Hprev; simpl.
  - destruct (paused (state p) && negb (paused st));
      match goal with |- context [if ?b then _ else _] => destruct b end;
      simpl; rewrite map_get_set_eq; eexists; split; try reflexivity;
      simpl; auto.
  - destruct (negb (paused st)); simpl; rewrite map_get_set_eq;
      eexists; split; try reflexivity; simpl; auto.
Qed.

(** A command for a session goes to the tab and frame that the session's
    last snapshot came from, with verb and parameters untouched; a command
    for an id that is not in the registry is not sent anywhere. *)
Theorem command_routed_to_origin :
  (forall m d st tabId frameId tab now c params,
      sd_state d = Some st ->
      forwardControlCommand (fst (updateSession m d tabId frameId tab now))
        {| cc_sessionId := sessionIdOf tabId frameId; cc_cmd := c;
           cc_params := params |}
      = Some {| tm_tabId := tabId; tm_frameId := frameId; tm_cmd := c;
                tm_params := params |})
  /\ (forall m command,
        map_get (cc_sessionId command) (sessions m) = None ->
        forwardControlCommand m command = None).
Proof.
  split.
  - intros m d st tabId frameId tab now c params Hst.
    destruct (updateSession_address m d st tabId frameId tab now Hst)
      as (s & Hs & Ht & Hf).
    unfold forwardControlCommand. simpl. rewrite Hs. now rewrite Ht, Hf.
  - intros m command H. unfold forwardControlCommand. now rewrite H.
Qed.

Lemma command_routed_to_origin_witness :
  forwardControlCommand
    (fst (updateSession initial
            {| sd_title := "a"; sd_artworkUrl := None;
               sd_state := Some {| paused := false; muted := false;
                                   volume := num 1; currentTime := num 10;
                                   duration := num 50; canSeek := true;
                                   ended := false |} |}
            7 3 {| tab_title := "t"; tab_url := "u"; tab_favIconUrl := None |} 1000))
    {| cc_sessionId := sessionIdOf 7 3; cc_cmd := "seek";
       cc_params := [("delta", num 10)] |}
  = Some {| tm_tabId := 7; tm_frameId := 3; tm_cmd := "seek";
            tm_params := [("delta", num 10)] |}.
Proof. apply (proj1 command_routed_to_origin) with (st := {| paused := false; muted := false;
                                   volume := num 1; currentTime := num 10;
                                   duration := num 50; canSeek := true;
                                   ended := false |}). reflexivity. Defined.

(** When a command could not be delivered, its session is removed and
    [SESSION_REMOVED] is broadcast; from then on commands for that id are
    dropped, and the session comes back only with a new snapshot, which is
    broadcast whatever the throttle clock says (the clock of a removed
    session is kept). *)
Theorem failed_delivery_removes_session :
  forall m command,
    forwardControlCommand m command <> None ->
    let m' := fst (deliveryFailed m command) in
    snd (deliveryFailed m command) = [SESSION_REMOVED (cc_sessionId command)]
    /\ map_get (cc_sessionId command) (sessions m') = None
    /\ (forall command', cc_sessionId command' = cc_sessionId command ->
                         forwardControlCommand m' command' = None)
    /\ lastBroadcastTimestamps m' = lastBroadcastTimestamps m.
Proof.
  intros m command Hsent m'. subst m'. unfold deliveryFailed.
  assert (Hhas : map_has (cc_sessionId command) (sessions m) = true).
  { unfold forwardControlCommand in Hsent. unfold map_has.
    destruct (map_get (cc_sessionId command) (sessions m)); congruence. }
  destruct (removeSession_present m _ Hhas) as (Hs & Ho & Hl).
  split; [exact Ho|].
  assert (Hgone : map_get (cc_sessionId command)
                    (sessions (fst (removeSession m (cc_sessionId command)))) = None)
    by (rewrite Hs; apply map_get_delete_eq).
  split; [exact Hgone|]. split; [|exact Hl].
  intros command' E. unfold forwardControlCommand. now rewrite E, Hgone.
Qed.

Lemma failed_delivery_removes_session_witness :
  let st := {| paused := false; muted := false; volume := num 1;
               currentTime := num 10; duration := num 50; canSeek := true;
               ended := false |} in
  let m := {| sessions := [("7:0", {| id := "7:0"; tabId := 7; frameId := 0;
                                      title := "a"; url := "u"; favIconUrl := None;
                                      artworkUrl := None; state := st;
                                      lastActiveAt := 1000 |})];
              lastActiveSessionId := Some "7:0";
              lastBroadcastTimestamps := ∅ |} in
  let command := {| cc_sessionId := "7:0"; cc_cmd := "toggle"; cc_params := [] |} in
  snd (deliveryFailed m command) = [SESSION_REMOVED "7:0"]
  /\ map_get "7:0" (sessions (fst (deliveryFailed m command))) = None.
Proof.
  intros st m command.
  destruct (failed_delivery_removes_session m command) as (H1 & H2 & _).
  - discriminate.
  - split; [exact H1 | exact H2].
Defined.

(** The first snapshot after a removal is broadcast at once, however
    recently the removed session was last broadcast. *)
Theorem recreated_session_is_broadcast :
  forall m d st tabId frameId tab now,
    sd_state d = Some st ->
    let m1 := fst (removeSession m (sessionIdOf tabId frameId)) in
    exists s,
      snd (updateSession m1 d tabId frameId tab now) = [SESSION_UPDATED s]
      /\ state s = st
      /\ map_get (sessionIdOf tabId frameId)
           (sessions (fst (updateSession m1 d tabId frameId tab now))) = Some s.
Proof.
  intros m d st tabId frameId tab now Hst m1.
  destruct (updateSession_broadcast m1 d st tabId frameId tab now Hst)
    as (s & Hs & Hstate & Hout & _).
  exists s. split; [|auto]. rewrite Hout. unfold broadcastDue.
  subst m1. rewrite removeSession_sessions, map_get_delete_eq. reflexivity.
Qed.

Lemma recreated_session_is_broadcast_witness :
  let d := {| sd_title := "a"; sd_artworkUrl := None;
              sd_state := Some {| paused := false; muted := false;
                                  volume := num 1; currentTime := num 10;
                                  duration := num 50; canSeek := true;
                                  ended := false |} |} in
  let tab := {| tab_title := "t"; tab_url := "u"; tab_favIconUrl := None |} in
  let m := fst (updateSession initial d 7 0 tab 1000) in
  let m1 := fst (removeSession m (sessionIdOf 7 0)) in
  exists s, snd (updateSession m1 d 7 0 tab 1001) = [SESSION_UPDATED s]
            /\ lastBroadcastTimestamps m1 !! "7:0" = Some 1000.
Proof.
  intros d tab m m1.
  destruct (recreated_session_is_broadcast m d _ 7 0 tab 1001 eq_refl)
    as (s & Hs & _).
  exists s. split; [exact Hs | reflexivity].
Defined.

(** ** Keyboard shortcuts *)

(** In every state the coordinator can be in, a shortcut is dropped only
    when there is no active session; otherwise [toggle-play] sends
    [toggle], [seek-forward] and [seek-backward] send [seek] by 10 and -10
    seconds, all to the tab and frame of the active session, and any other
    shortcut sends nothing. *)
Theorem shortcut_reaches_active_session :
  forall m,
    coordinator_inv m ->
    match lastActiveSessionId m with
    | None => forall command, handleCommand m command = None
    | Some active =>
        exists s,
          map_get active (sessions m) = Some s /\ id s = active
          /\ handleCommand m "toggle-play"
             = Some {| tm_tabId := tabId s; tm_frameId := frameId s;
                       tm_cmd := "toggle"; tm_params := [] |}
          /\ handleCommand m "seek-forward"
             = Some {| tm_tabId := tabId s; tm_frameId := frameId s;
                       tm_cmd := "seek"; tm_params := [("delta", num 10)] |}
          /\ handleCommand m "seek-backward"
             = Some {| tm_tabId := tabId s; tm_frameId := frameId s;
                       tm_cmd := "seek"; tm_params := [("delta", num (-10))] |}
          /\ forall command,
               command <> "toggle-play" -> command <> "seek-forward" ->
               command <> "seek-backward" -> handleCommand m command = None
    end.
Proof.
  intros m (Hwf & Hk & Hp & Hne). unfold pointer_ok in Hp. unfold handleCommand.
  destruct (lastActiveSessionId m) as [active|]; [|reflexivity].
  assert (Hnon : active <> EmptyString) by (apply Hne; now apply map_has_keys).
  unfold map_has in Hp.
  destruct (map_get active (sessions m)) as [s|] eqn:Hs; [|discriminate].
  exists s. split; [reflexivity|].
  split; [exact (proj1 (Hwf _ _ (map_get_In _ _ _ Hs)))|].
  destruct active as [|a0 rest]; [congruence|].
  unfold forwardControlCommand. simpl. rewrite Hs.
  repeat split.
  intros command H1 H2 H3.
  destruct (String.eqb_spec command "toggle-play"); [congruence|].
  destruct (String.eqb_spec command "seek-forward"); [congruence|].
  destruct (String.eqb_spec command "seek-backward"); [congruence|].
  reflexivity.
Qed.

Lemma shortcut_reaches_active_session_witness :
  let d := {| sd_title := "a"; sd_artworkUrl := None;
              sd_state := Some {| paused := false; muted := false;
                                  volume := num 1; currentTime := num 10;
                                  duration := num 50; canSeek := true;
                                  ended := false |} |} in
  let tab := {| tab_title := "t"; tab_url := "u"; tab_favIconUrl := None |} in
  let m := apply_ops initial [OpUpdate d 7 3 tab 1000] in
  handleCommand m "seek-forward"
  = Some {| tm_tabId := 7; tm_frameId := 3; tm_cmd := "seek";
            tm_params := [("delta", num 10)] |}.
Proof.
  intros d tab m.
  assert (Hinv : coordinator_inv m)
    by (apply apply_ops_inv; [repeat constructor | exact initial_inv]).
  pose proof (shortcut_reaches_active_session m Hinv) as H.
  change (lastActiveSessionId m) with (Some "7:3") in H.
  destruct H as (s & Hs & _ & _ & H & _).
  vm_compute in Hs. injection Hs as <-. exact H.
Defined.

(** ** Activity times *)

(** While the clock does not run backwards, handling a snapshot never
    lowers the [lastActiveAt] of its session, and no stored activity time
    lies in the future. *)
Theorem lastActiveAt_never_decreases :
  forall m d st tabId frameId tab now0 now,
    sd_state d = Some st ->
    clock_bounded m now0 -> now0 <= now ->
    let sid := sessionIdOf tabId frameId in
    let m' := fst (updateSession m d tabId frameId tab now) in
    clock_bounded m' now
    /\ forall p, map_get sid (sessions m) = Some p ->
         exists s, map_get sid (sessions m') = Some s
                   /\ lastActiveAt p <= lastActiveAt s.
Proof.
  intros m d st tabId frameId tab now0 now Hst Hb Hle sid m'.
  subst m'. unfold updateSession. fold sid. rewrite Hst.
  destruct (map_get sid (sessions m)) as [p|] eqn:Hprev.
  - pose proof (Hb _ _ (map_get_In _ _ _ Hprev)) as Hp. simpl.
    destruct (paused (state p) && negb (paused st));
      match goal with |- context [if ?b then _ else _] => destruct b end;
      simpl; (split;
        [ intros k s HIn; apply map_set_In in HIn as [[_ ->]|HIn]; simpl;
          [lia | specialize (Hb _ _ HIn); lia]
        | intros p' [= <-]; rewrite map_get_set_eq; eexists;
          split; [reflexivity | simpl; lia] ]).
  - simpl. destruct (negb (paused st)); simpl;
      (split;
        [ intros k s HIn; apply map_set_In in HIn as [[_ ->]|HIn]; simpl;
          [lia | specialize (Hb _ _ HIn); lia]
        | intros p' [=] ]).
Qed.

Lemma lastActiveAt_never_decreases_witness :
  let d := {| sd_title := "a"; sd_artworkUrl := None;
              sd_state := Some {| paused := false; muted := false;
                                  volume := num 1; currentTime := num 10;
                                  duration := num 50; canSeek := true;
                                  ended := false |} |} in
  let tab := {| tab_title := "t"; tab_url := "u"; tab_favIconUrl := None |} in
  let m := fst (updateSession initial d 7 0 tab 1000) in
  clock_bounded (fst (updateSession m d 7 0 tab 2000)) 2000.
Proof.
  intros d tab m.
  assert (Hm : clock_bounded m 1000).
  { refine (proj1 (lastActiveAt_never_decreases initial d _ 7 0 tab 0 1000
                     eq_refl _ _)); [intros k s [] | lia]. }
  refine (proj1 (lastActiveAt_never_decreases m d _ 7 0 tab 1000 2000
                   eq_refl Hm _)).
  lia.
Defined.

End CoordinatorExtras.

(** * Further properties of the agent *)

Section AgentExtras.

Import JS Agent.

(** ** Clamping *)

Lemma Qle_bool_total a b : Qle_bool a b = false -> Qle_bool b a = true.
Proof.
  intros H. apply Qle_bool_iff. apply Qlt_le_weak. apply Qnot_le_lt.
  intros Hle. apply Qle_bool_iff in Hle. congruence.
Qed.

(** [Math.max(0, Math.min(hi, x))] lies between [0] and [hi] when [hi] is
    at least [0] and [x] is a number. *)
Lemma clamp_between hi x :
  le (num 0) hi = true -> isNaN x = false ->
  le (num 0) (max (num 0) (min hi x)) = true
  /\ le (max (num 0) (min hi x)) hi = true.
Proof.
  intros Hhi Hx.
  destruct hi as [h| | |]; try discriminate;
    destruct x as [q| | |]; try discriminate; unfold min, max, num in *; simpl in *.
  - destruct (Qle_bool h q) eqn:E1; simpl.
    + rewrite Hhi. simpl. split; [exact Hhi | apply Qle_bool_iff, Qle_refl].
    + destruct (Qle_bool (inject_Z 0) q) eqn:E2; simpl.
      * split; [exact E2 | now apply Qle_bool_total].
      * split; [apply Qle_bool_iff, Qle_refl | exact Hhi].
  - rewrite Hhi. simpl. split; [exact Hhi | apply Qle_bool_iff, Qle_refl].
  - split; [apply Qle_bool_iff, Qle_refl | exact Hhi].
  - destruct (Qle_bool (inject_Z 0) q) eqn:E2; simpl;
      [auto | split; [apply Qle_bool_iff, Qle_refl | reflexivity]].
  - auto.
  - split; [apply Qle_bool_iff, Qle_refl | reflexivity].
Qed.

Lemma max_lower y : isNaN y = false -> le (num 0) (max (num 0) y) = true.
Proof.
  destruct y as [q| | |]; try discriminate; intros _; unfold max, num; simpl;
    try reflexivity.
  destruct (Qle_bool (inject_Z 0) q) eqn:E; simpl;
    [exact E | apply Qle_bool_iff, Qle_refl].
Qed.

Lemma min_number a b : isNaN a = false -> isNaN b = false -> isNaN (min a b) = false.
Proof.
  destruct a, b; try discriminate; intros _ _; unfold min; simpl;
    try reflexivity;
    match goal with |- context [if ?c then _ else _] => destruct c end; reflexivity.
Qed.

(** The [seek] and [setTime] commands never move a native element before
    [0] or, when its duration is a positive finite number, past the
    duration, whatever offset or time is asked for; [setVolume] always
    assigns a volume between [0] and [1]. *)
Theorem command_targets_clamped :
  (forall element c delta d,
      currentTime element = Fin c -> delta = Fin d ->
      le (num 0) (seekTarget element delta) = true
      /\ forall dur, duration element = Fin dur -> (0 < dur)%Q ->
           le (seekTarget element delta) (Fin dur) = true)
  /\ (forall element time,
        isNaN time = false ->
        le (num 0) (setTimeTarget element time) = true
        /\ forall dur, duration element = Fin dur -> (0 < dur)%Q ->
             le (setTimeTarget element time) (Fin dur) = true)
  /\ (forall volume,
        isNaN volume = false ->
        le (num 0) (clampVolume volume) = true
        /\ le (clampVolume volume) (num 1) = true).
Proof.
  assert (Hgen : forall element x,
             isNaN x = false ->
             le (num 0) (max (num 0) (min (or_else (duration element) PInf) x)) = true
             /\ forall dur, duration element = Fin dur -> (0 < dur)%Q ->
                  le (max (num 0) (min (or_else (duration element) PInf) x)) (Fin dur)
                  = true).
  { intros element x Hx. split.
    - apply max_lower. apply min_number; [|exact Hx].
      unfold or_else. destruct (duration element) as [dq| | |]; simpl;
        try reflexivity. now destruct (negb (Qeq_bool dq 0)).
    - intros dur Hd Hpos. rewrite Hd.
      assert (E : Qeq_bool dur 0 = false).
      { apply not_true_is_false. intros E. apply Qeq_bool_iff in E.
        rewrite E in Hpos. now apply Qlt_irrefl in Hpos. }
      unfold or_else, truthy. rewrite E. cbn [negb].
      apply clamp_between; [|exact Hx].
      unfold le, num. apply Qle_bool_iff. now apply Qlt_le_weak. }
  split; [|split].
  - intros element c delta d Hc Hd. unfold seekTarget.
    apply Hgen. rewrite Hc, Hd. unfold or_else. simpl.
    now destruct (negb (Qeq_bool d 0)).
  - intros element time Ht. unfold setTimeTarget. now apply Hgen.
  - intros volume Hv. unfold clampVolume. apply clamp_between; [reflexivity | exact Hv].
Qed.

Lemma command_targets_clamped_witness :
  let element :=
    {| node := 1; tagName := "VIDEO"; disableRemotePlayback := false;
       readyState := 4; paused := false; muted := false; volume := num 1;
       currentTime := num 595; duration := num 600; offsetWidth := 640;
       offsetHeight := 360; src := "m.mp4"; childrenLength := 0;
       seekableLength := 1; ended := false |} in
  le (seekTarget element (num 10)) (num 600) = true
  /\ le (num 0) (seekTarget element (num (-1000))) = true
  /\ le (clampVolume (num 7)) (num 1) = true.
Proof.
  intros element.
  destruct command_targets_clamped as (H1 & _ & H3).
  split; [|split].
  - exact (proj2 (H1 element (inject_Z 595) (num 10) (inject_Z 10) eq_refl eq_refl)
             (inject_Z 600) eq_refl eq_refl).
  - exact (proj1 (H1 element (inject_Z 595) (num (-1000)) (inject_Z (-1000))
                    eq_refl eq_refl)).
  - exact (proj2 (H3 (num 7) eq_refl)).
Defined.

(** ** The Spotify volume *)

Lemma clamp01_cases x :
  max (num 0) (min (num 1) x) = NaN
  \/ exists q, max (num 0) (min (num 1) x) = Fin q /\ (0 <= q)%Q /\ (q <= 1)%Q.
Proof.
  destruct x as [q| | |]; unfold max, min, num; simpl; auto; right.
  - destruct (Qle_bool (inject_Z 1) q) eqn:E1; simpl.
    + exists (inject_Z 1). repeat split; discriminate.
    + destruct (Qle_bool (inject_Z 0) q) eqn:E2; simpl.
      * exists q. split; [reflexivity|]. split; [now apply Qle_bool_iff|].
        apply Qle_bool_iff. now apply Qle_bool_total.
      * exists (inject_Z 0). repeat split; discriminate.
  - exists (inject_Z 1). repeat split; discriminate.
  - exists (inject_Z 0). repeat split; discriminate.
Qed.

(** Whatever the volume slider of the page reads, the snapshot that the
    Spotify adapter sends after detecting the volume carries a volume
    greater than [0] and at most [1]: a detected volume of [0] (or one
    that is not a number) is reported as [1]. *)
Theorem spotify_volume_never_zero :
  forall page v mn mx val,
    exists st,
      Background.sd_state
        (spotifySessionData page (detectSpotifyVolume (Some (mn, mx, val)) v))
      = Some st
      /\ lt (num 0) (Background.volume st) = true
      /\ le (Background.volume st) (num 1) = true
      /\ (truthy (detectVolume mn mx val) = false -> Background.volume st = num 1).
Proof.
  intros page v mn mx val. eexists. split; [reflexivity|]. simpl.
  unfold detectVolume.
  match goal with |- context [max (num 0) (min (num 1) ?x)] =>
    destruct (clamp01_cases x) as [->|(q & -> & H0 & H1)] end.
  - repeat split.
  - unfold or_else, truthy. destruct (Qeq_bool q 0) eqn:E; simpl.
    + repeat split.
    + split; [|split; [now apply Qle_bool_iff | discriminate]].
      unfold Qlt_bool, num. apply negb_true_iff. apply not_true_is_false.
      intros Hle. apply Qle_bool_iff in Hle.
      assert (q == 0)%Q by (apply Qle_antisym; assumption).
      apply Qeq_bool_iff in H. congruence.
Qed.

(** ** Scoring *)










Lemma lt_trans_js a b c : lt a b = true -> lt b c = true -> lt a c = true.
Proof.
  destruct a as [x| | |], b as [y| | |], c as [z| | |]; simpl;
    try discriminate; try reflexivity.
  unfold Qlt_bool. intros H1 H2.
  apply negb_true_iff in H1, H2. apply negb_true_iff. apply not_true_is_false.
  intros H. apply Qle_bool_iff in H.
  assert (Hxy : (x < y)%Q).
  { apply Qnot_le_lt. intros Hle. apply Qle_bool_iff in Hle. congruence. }
  assert (Hyz : (y < z)%Q).
  { apply Qnot_le_lt. intros Hle. apply Qle_bool_iff in Hle. congruence. }
  apply (Qlt_irrefl x). eapply Qlt_trans; [exact Hxy|].
  eapply Qlt_le_trans; eassumption.
Qed.

Lemma le_lt_trans_js a b c : le a b = true -> lt b c = true -> lt a c = true.
Proof.
  destruct a as [x| | |], b as [y| | |], c as [z| | |]; simpl;
    try discriminate; try reflexivity.
  unfold Qlt_bool. intros H1 H2.
  apply Qle_bool_iff in H1. apply negb_true_iff in H2.
  apply negb_true_iff. apply not_true_is_false.
  intros H. apply Qle_bool_iff in H.
  assert (Hyz : (y < z)%Q).
  { apply Qnot_le_lt. intros Hle. apply Qle_bool_iff in Hle. congruence. }
  apply (Qlt_irrefl y). eapply Qlt_le_trans; [exact Hyz|].
  eapply Qle_trans; eassumption.
Qed.

(** The selection loop keeps the first of the best: when it ends on an
    element, every element before it scores strictly less. *)
Lemma findBest_first els : forall a sa,
  below_inf sa ->
  let r := fold_left bestStep els (a, sa) in
  r = (a, sa)
  \/ exists l1 e l2,
       els = l1 ++ e :: l2
       /\ r = (Some e, scoreMediaElement e)
       /\ lt sa (scoreMediaElement e) = true
       /\ forall x, In x l1 -> lt (scoreMediaElement x) (scoreMediaElement e) = true.
Proof.
  induction els as [|x els IH]; intros a sa Hsa; simpl; [now left|].
  destruct (gt (scoreMediaElement x) sa) eqn:Hgt.
  - assert (Hstep : bestStep (a, sa) x = (Some x, scoreMediaElement x)).
    { unfold bestStep. simpl. now rewrite Hgt. }
    rewrite Hstep. right.
    destruct (IH (Some x) (scoreMediaElement x) (score_below_inf x))
      as [H|(l1 & e & l2 & Hels & Hr & Hlt & Hall)].
    + exists [], x, els. split; [reflexivity|]. split; [exact H|].
      split; [exact Hgt | intros y []].
    + exists (x :: l1), e, l2. split; [now rewrite Hels|]. split; [exact Hr|].
      split; [eapply lt_trans_js; [exact Hgt | exact Hlt]|].
      intros y [<-|Hy]; [exact Hlt | now apply Hall].
  - assert (Hstep : bestStep (a, sa) x = (a, sa)).
    { unfold bestStep. simpl. now rewrite Hgt. }
    rewrite Hstep.
    destruct (IH a sa Hsa) as [H|(l1 & e & l2 & Hels & Hr & Hlt & Hall)];
      [now left|].
    right. exists (x :: l1), e, l2. split; [now rewrite Hels|]. split; [exact Hr|].
    split; [exact Hlt|].
    intros y [<-|Hy]; [|now apply Hall].
    eapply le_lt_trans_js; [|exact Hlt].
    apply not_gt_le; [apply score_below_inf | exact Hsa | exact Hgt].
Qed.

(** Among candidates with the same best score, discovery attaches to the
    first in document order: every candidate before the attached one
    scores strictly less, and no candidate after it scores more. *)
Theorem discovery_prefers_first_of_best :
  forall els sp retry e,
    discover els sp retry = AttachTo e ->
    exists l1 l2,
      els = l1 ++ e :: l2
      /\ (forall x, In x l1 -> lt (scoreMediaElement x) (scoreMediaElement e) = true)
      /\ (forall x, In x l2 -> le (scoreMediaElement x) (scoreMediaElement e) = true).
Proof.
  intros els sp retry e. unfold discover, findBest.
  destruct ((length els =? 0)%nat && sp); [discriminate|].
  destruct (findBest_first els None (num (-1)) I) as [H|(l1 & b & l2 & Hels & Hr & _ & Hall)].
  - rewrite H. destruct (retry <? 5)%nat; discriminate.
  - destruct (findBest_fold els None (num (-1)) I) as (_ & _ & Hmax & _).
    rewrite Hr in *. simpl in Hmax.
    destruct (ge (scoreMediaElement b) (num 0));
      [|destruct (retry <? 5)%nat; discriminate].
    intros [= <-]. exists l1, l2. split; [exact Hels|]. split; [exact Hall|].
    intros x Hx. apply Hmax. rewrite Hels. apply in_or_app. right. now right.
Qed.

Lemma discovery_prefers_first_of_best_witness :
  let video n :=
    {| node := n; tagName := "VIDEO"; disableRemotePlayback := false;
       readyState := 4; paused := false; muted := false; volume := num 1;
       currentTime := num 5; duration := num 600; offsetWidth := 640;
       offsetHeight := 360; src := "m.mp4"; childrenLength := 0;
       seekableLength := 1; ended := false |} in
  exists l1 l2,
    [video 1%nat; video 2%nat] = l1 ++ video 1%nat :: l2
    /\ (forall x, In x l1 ->
                  lt (scoreMediaElement x) (scoreMediaElement (video 1%nat)) = true)
    /\ (forall x, In x l2 ->
                  le (scoreMediaElement x) (scoreMediaElement (video 1%nat)) = true).
Proof.
  intros video.
  apply (discovery_prefers_first_of_best [video 1%nat; video 2%nat] false 0%nat).
  vm_compute. reflexivity.
Defined.

(** ** Giving up *)

Lemma discover_miss els sp retry :
  (length els =? 0)%nat && sp = false ->
  (forall e, In e els -> lt (scoreMediaElement e) (num 0) = true) ->
  discover els sp retry = if (retry <? 5)%nat then RetryLater else GiveUp.
Proof.
  intros Hv Hneg. unfold discover, findBest. rewrite Hv.
  destruct (findBest_fold els None (num (-1)) I) as (_ & _ & _ & [H|(e & He & H)]).
  - now rewrite H.
  - rewrite H. specialize (Hneg e He).
    assert (Hge : ge (scoreMediaElement e) (num 0) = false).
    { destruct (scoreMediaElement e) as [q| | |]; simpl in *; try discriminate;
        try reflexivity.
      unfold ge, le, lt, Qlt_bool, num in *. now apply negb_true_iff in Hneg. }
    now rewrite Hge.
Qed.

(** On a page where no candidate scores [0] or more (and that is not the
    Spotify player without media elements), [n] runs of discovery from a
    fresh agent schedule a retry after each of the first five and nothing
    after that: the retry counter stops at 5, at most five retry timers are
    ever created, nothing is attached and nothing is sent. *)
Theorem discovery_retries_five_times :
  forall page n,
    (length (elements page) =? 0)%nat && isSpotify page = false ->
    (forall e, In e (elements page) -> lt (scoreMediaElement e) (num 0) = true) ->
    let st := Nat.iter n (fun st => findAndAttachMedia st page) newAgent in
    retryCount st = Nat.min n 5
    /\ length (timers st) = Nat.min n 5
    /\ mediaElement st = None
    /\ sent st = [].
Proof.
  intros page n Hv Hneg. induction n as [|n IH]; simpl; [auto|].
  destruct IH as (Hr & Ht & Hm & Hs).
  set (st := Nat.iter n (fun st => findAndAttachMedia st page) newAgent) in *.
  unfold findAndAttachMedia.
  rewrite (discover_miss _ _ _ Hv Hneg).
  destruct (Nat.ltb_spec (retryCount st) 5); simpl.
  - rewrite Hr, length_app, Ht. simpl. repeat split; auto; lia.
  - repeat split; auto; lia.
Qed.

Lemma discovery_retries_five_times_witness :
  let cast n :=
    {| node := n; tagName := "VIDEO"; disableRemotePlayback := true;
       readyState := 4; paused := false; muted := false; volume := num 1;
       currentTime := num 3; duration := num 90; offsetWidth := 640;
       offsetHeight := 360; src := "a.webm"; childrenLength := 0;
       seekableLength := 1; ended := false |} in
  let page := {| elements := [cast 1%nat; cast 2%nat]; documentTitle := "Cast";
                 metadata := None;
                 isSpotify := false; trackName := None; artistName := None;
                 pauseButton := false; playButton := false;
                 progressTimeText := None; durationTimeText := None |} in
  retryCount (Nat.iter 8 (fun st => findAndAttachMedia st page) newAgent) = 5%nat.
Proof.
  intros cast page.
  refine (proj1 (discovery_retries_five_times page 8 eq_refl _)).
  intros e [<-|[<-|[]]]; reflexivity.
Defined.

(** ** Coalescing of [timeupdate] *)

Lemma find_fresh_timer (tms : list (nat * TimerAction)) (t : nat) (a : TimerAction) :
  (forall tm, In tm tms -> (fst tm < t)%nat) ->
  List.find (fun tm => (fst tm =? t)%nat) (tms ++ [(t, a)]) = Some (t, a)
  /\ List.filter (fun tm => negb (fst tm =? t)%nat) (tms ++ [(t, a)]) = tms.
Proof.
  induction tms as [|tm tms IH]; intros H; simpl.
  - now rewrite Nat.eqb_refl.
  - assert (E : (fst tm =? t)%nat = false).
    { apply Nat.eqb_neq. specialize (H tm (or_introl eq_refl)). lia. }
    rewrite E. simpl. destruct IH as [H1 H2]; [intros x Hx; apply H; now right|].
    split; [exact H1 | now rewrite H2].
Qed.

(** With no throttle pending, the first [timeupdate] arms one 250ms timer
    and sends nothing; any number of further [timeupdate] events before the
    timer fires change nothing at all; when the timer fires, the throttle
    is cleared, the timer is gone, and what is sent is exactly what one
    call of [sendUpdate] would have sent. *)
Theorem timeupdate_is_coalesced :
  forall st page n,
    updateThrottle st = None -> isVirtual st = false -> timers_fresh st ->
    let st1 := Nat.iter (S n) handleTimeUpdate st in
    let st2 := fireTimer st1 page (nextId st) in
    sent st1 = sent st
    /\ timers st1 = timers st ++ [(nextId st, ThrottledSend)]
    /\ updateThrottle st1 = Some (nextId st)
    /\ updateThrottle st2 = None
    /\ timers st2 = timers st
    /\ sent st2 = sent (sendUpdate st page).
Proof.
  intros st page n Hth Hv Hf.
  set (armed := set_throttle st (Some (nextId st))
                  (timers st ++ [(nextId st, ThrottledSend)]) (S (nextId st))).
  assert (H1 : handleTimeUpdate st = armed).
  { unfold handleTimeUpdate. now rewrite Hth, Hv. }
  assert (H2 : handleTimeUpdate armed = armed) by reflexivity.
  assert (Hiter : Nat.iter (S n) handleTimeUpdate st = armed).
  { induction n as [|n IH]; simpl in *; [exact H1 | now rewrite IH]. }
  intros st1 st2. subst st1 st2. rewrite Hiter.
  split; [reflexivity|]. split; [reflexivity|]. split; [reflexivity|].
  destruct (find_fresh_timer (timers st) (nextId st) ThrottledSend Hf) as [Hfind Hfilter].
  unfold fireTimer. change (timers armed) with (timers st ++ [(nextId st, ThrottledSend)]).
  rewrite Hfind, Hfilter. simpl.
  split; [reflexivity|].
  unfold sendUpdate, sendSpotifyUpdate. simpl. rewrite Hv.
  destruct (mediaElement st) as [[k|]|]; simpl; auto;
    destruct (seekInProgress st); simpl; auto.
  destruct (find_element page k); simpl; auto.
Qed.

Lemma timeupdate_is_coalesced_witness :
  let st := attachToElement newAgent twoVideos (Native 1) in
  let st1 := Nat.iter 4 handleTimeUpdate st in
  sent st1 = sent st
  /\ length (timers st1) = 1%nat
  /\ length (sent (fireTimer st1 twoVideos (nextId st))) = 2%nat.
Proof.
  intros st st1.
  destruct (timeupdate_is_coalesced st twoVideos 3 eq_refl eq_refl)
    as (H1 & H2 & _ & _ & _ & H6).
  - intros tm [].
  - split; [exact H1|]. split; [subst st1; now rewrite H2|].
    subst st1. now rewrite H6.
Defined.

(** ** Suppression while seeking *)

Lemma sendUpdate_suppressed st page :
  seekInProgress st = true -> sendUpdate st page = st.
Proof.
  intros H. unfold sendUpdate. rewrite H. now destruct (mediaElement st).
Qed.

Lemma detach_quiet st :
  sent (detachFromElement st) = sent st
  /\ seekInProgress (detachFromElement st) = seekInProgress st
  /\ isVirtual (detachFromElement st) = isVirtual st.
Proof.
  unfold detachFromElement.
  destruct (mediaElement st) as [[n|]|]; simpl;
    match goal with
    | |- context [match updateThrottle ?s with _ => _ end] =>
        destruct (updateThrottle s)
    end; simpl; auto.
Qed.

Lemma fold_subscribe_quiet n subs : forall st,
  sent (fold_left (subscribe n) subs st) = sent st
  /\ seekInProgress (fold_left (subscribe n) subs st) = seekInProgress st
  /\ isVirtual (fold_left (subscribe n) subs st) = isVirtual st.
Proof.
  induction subs as [|s subs IH]; intros st; simpl; [auto|].
  destruct (IH (subscribe n st s)) as (H1 & H2 & H3).
  rewrite H1, H2, H3. auto.
Qed.

Lemma attach_suppressed st page h :
  seekInProgress st = true ->
  sent (attachToElement st page h) = sent st
  /\ seekInProgress (attachToElement st page h) = true.
Proof.
  intros Hs. unfold attachToElement.
  destruct (detach_quiet st) as (D1 & D2 & _).
  set (st1 := set_mediaElement (detachFromElement st) (Some h)).
  assert (Q1 : sent st1 = sent st /\ seekInProgress st1 = true).
  { subst st1. simpl. rewrite D1, D2. auto. }
  set (st2 := match h with
              | Native n => fold_left (subscribe n) subscriptions st1
              | Virtual => st1
              end).
  assert (Q2 : sent st2 = sent st /\ seekInProgress st2 = true).
  { subst st2. destruct h as [n|]; [|exact Q1].
    destruct (fold_subscribe_quiet n subscriptions st1) as (F1 & F2 & _).
    rewrite F1, F2. exact Q1. }
  rewrite sendUpdate_suppressed; tauto.
Qed.

Lemma findAndAttachMedia_suppressed st page :
  seekInProgress st = true ->
  sent (findAndAttachMedia st page) = sent st
  /\ seekInProgress (findAndAttachMedia st page) = true.
Proof.
  intros Hs. unfold findAndAttachMedia.
  destruct (discover _ _ _); simpl; auto.
  - match goal with |- context [attachToElement ?s _ _] =>
      destruct (attach_suppressed s page Virtual Hs) as [A1 A2] end.
    rewrite A1, A2. auto.
  - now apply attach_suppressed.
Qed.

Lemma invoke_suppressed page st l :
  seekInProgress st = true ->
  sent (invoke page st l) = sent st /\ seekInProgress (invoke page st l) = true.
Proof.
  intros Hs. unfold invoke, handleMediaEvent, handleTimeUpdate.
  destruct (fn_method (callback l)).
  - destruct (isVirtual st); [auto|]. rewrite sendUpdate_suppressed; auto.
  - destruct (updateThrottle st); [auto|]. destruct (isVirtual st); simpl; auto.
Qed.

Lemma dispatch_suppressed page ls : forall st,
  seekInProgress st = true ->
  sent (fold_left (invoke page) ls st) = sent st
  /\ seekInProgress (fold_left (invoke page) ls st) = true.
Proof.
  induction ls as [|l ls IH]; intros st Hs; simpl; [auto|].
  destruct (invoke_suppressed page st l Hs) as [I1 I2].
  destruct (IH _ I2) as [J1 J2]. rewrite J1, I1. auto.
Qed.

Lemma agent_step_suppressed st ev :
  not_endSeek ev -> seekInProgress st = true ->
  sent (agent_step st ev) = sent st /\ seekInProgress (agent_step st ev) = true.
Proof.
  destruct ev as [[n ty|t| | |] page]; unfold not_endSeek, agent_step; cbn [fst snd];
    intros Hne Hs.
  - unfold dispatchEvent. now apply dispatch_suppressed.
  - unfold fireTimer. destruct (List.find _ (timers st)) as [[t' action]|]; [|auto].
    destruct action.
    + rewrite sendUpdate_suppressed by exact Hs. simpl. auto.
    + match goal with |- context [findAndAttachMedia ?s _] =>
        apply (findAndAttachMedia_suppressed s page) end. exact Hs.
  - unfold nodesAdded. destruct (isVirtual st); simpl; auto.
  - unfold beginSeek. destruct (mediaElement st); simpl; auto.
  - destruct Hne.
Qed.

(** From [beginSeek] until [endSeek] nothing is sent: media events, timers
    (the throttle and the retries of discovery), new media in the page and
    repeated [beginSeek] commands all leave the outbox as it is.  [endSeek]
    on an attached native element then sends exactly one snapshot, that of
    the element as it is at that moment. *)
Theorem seek_suppresses_snapshots :
  (forall evs st,
      seekInProgress st = true -> Forall not_endSeek evs ->
      sent (agent_run st evs) = sent st
      /\ seekInProgress (agent_run st evs) = true)
  /\ (forall st page n element,
        mediaElement st = Some (Native n) -> isVirtual st = false ->
        find_element page n = Some element ->
        sent (endSeek st page) = sent st ++ [nativeSessionData page element]
        /\ seekInProgress (endSeek st page) = false).
Proof.
  split.
  - unfold agent_run. induction evs as [|ev evs IH]; intros st Hs Hevs; simpl; [auto|].
    inversion Hevs; subst.
    destruct (agent_step_suppressed st ev) as [S1 S2]; [assumption..|].
    destruct (IH _ S2) as [I1 I2]; [assumption|]. rewrite I1, S1. auto.
  - intros st page n element Hm Hv Hf. unfold endSeek, sendUpdate.
    rewrite Hm. simpl. rewrite Hm, Hv, Hf. simpl. auto.
Qed.

Lemma seek_suppresses_snapshots_witness :
  let st := beginSeek (attachToElement newAgent twoVideos (Native 1)) in
  let evs := [(ElementEvent 1 play, twoVideos);
              (ElementEvent 1 timeupdate, twoVideos);
              (TimerFired 8, twoVideos);
              (NodesAdded, twoVideos)] in
  sent (agent_run st evs) = sent st
  /\ length (sent (endSeek (agent_run st evs) twoVideos)) = 2%nat.
Proof.
  intros st evs.
  destruct seek_suppresses_snapshots as [H1 H2].
  destruct (H1 evs st eq_refl) as [Hsent _]; [repeat constructor|].
  split; [exact Hsent|].
  assert (Hm : mediaElement (agent_run st evs) = Some (Native 1))
    by (vm_compute; reflexivity).
  assert (Hv : isVirtual (agent_run st evs) = false) by (vm_compute; reflexivity).
  destruct (find_element twoVideos 1) as [element|] eqn:Hf; [|discriminate].
  destruct (H2 (agent_run st evs) twoVideos 1%nat element Hm Hv Hf) as [Hend _].
  rewrite Hend, Hsent, length_app. vm_compute. reflexivity.
Defined.

(** ** Virtual mode *)

Lemma sendUpdate_isVirtual st page : isVirtual (sendUpdate st page) = isVirtual st.
Proof.
  unfold sendUpdate, sendSpotifyUpdate.
  destruct (mediaElement st) as [h|]; [|reflexivity].
  destruct (seekInProgress st); [reflexivity|].
  destruct (isVirtual st) eqn:E; [exact E|].
  destruct h as [n|]; [|exact E].
  destruct (find_element page n); exact E.
Qed.

Lemma attach_isVirtual st page h :
  isVirtual (attachToElement st page h) = isVirtual st.
Proof.
  unfold attachToElement. rewrite sendUpdate_isVirtual.
  destruct h as [n|].
  - rewrite (proj2 (proj2 (fold_subscribe_quiet n subscriptions _))).
    cbn [set_mediaElement isVirtual]. apply detach_quiet.
  - cbn [set_mediaElement isVirtual]. apply detach_quiet.
Qed.

Lemma findAndAttachMedia_virtual st page :
  isVirtual st = true -> isVirtual (findAndAttachMedia st page) = true.
Proof.
  intros Hv. unfold findAndAttachMedia.
  destruct (discover (elements page) (isSpotify page) (retryCount st)).
  - now rewrite attach_isVirtual.
  - now rewrite attach_isVirtual.
  - exact Hv.
  - exact Hv.
Qed.

Lemma invoke_virtual page st l : isVirtual st = true -> invoke page st l = st.
Proof.
  intros Hv. unfold invoke, handleMediaEvent, handleTimeUpdate.
  destruct (fn_method (callback l)); rewrite Hv;
    [reflexivity | now destruct (updateThrottle st)].
Qed.

Lemma dispatch_virtual page ls st :
  isVirtual st = true -> fold_left (invoke page) ls st = st.
Proof.
  intros Hv. induction ls as [|l ls IH]; [reflexivity|].
  cbn [fold_left]. now rewrite invoke_virtual.
Qed.

Lemma step_keeps_virtual st ev :
  isVirtual st = true -> isVirtual (agent_step st ev) = true.
Proof.
  destruct ev as [[n ty|t| | |] page]; unfold agent_step; cbn [fst snd]; intros Hv.
  - unfold dispatchEvent. now rewrite dispatch_virtual.
  - unfold fireTimer. destruct (List.find _ (timers st)) as [[t' action]|]; [|exact Hv].
    destruct action.
    + cbn [set_throttle isVirtual]. rewrite sendUpdate_isVirtual. exact Hv.
    + apply findAndAttachMedia_virtual. exact Hv.
  - unfold nodesAdded. now rewrite Hv.
  - unfold beginSeek. destruct (mediaElement st); exact Hv.
  - unfold endSeek. destruct (mediaElement st); [|exact Hv].
    rewrite sendUpdate_isVirtual. exact Hv.
Qed.

(** Virtual mode is sticky: once the agent is in virtual mode no event
    takes it out of it, and in that mode a media event on any element
    changes nothing and new media in the page schedules no discovery. *)
Theorem virtual_mode_is_sticky :
  forall st,
    isVirtual st = true ->
    (forall evs, isVirtual (agent_run st evs) = true)
    /\ (forall page n ty, dispatchEvent st page n ty = st)
    /\ nodesAdded st = st.
Proof.
  intros st Hv. split; [|split].
  - intros evs. revert st Hv. unfold agent_run.
    induction evs as [|ev evs IH]; intros st Hv; simpl; [exact Hv|].
    apply IH. now apply step_keeps_virtual.
  - intros page n ty. unfold dispatchEvent. now apply dispatch_virtual.
  - unfold nodesAdded. now rewrite Hv.
Qed.

Lemma virtual_mode_is_sticky_witness :
  let page := {| elements := []; documentTitle := "Spotify"; metadata := None;
                 isSpotify := true; trackName := Some "Song";
                 artistName := Some "Band"; pauseButton := true;
                 playButton := false; progressTimeText := Some "1:40";
                 durationTimeText := Some "3:00" |} in
  let st := findAndAttachMedia newAgent page in
  isVirtual (agent_run st [(NodesAdded, page); (ElementEvent 1 play, page)]) = true
  /\ nodesAdded st = st.
Proof.
  intros page st.
  destruct (virtual_mode_is_sticky st eq_refl) as (H1 & _ & H3).
  split; [apply H1 | exact H3].
Defined.

(** ** More on the time-string parser *)

Lemma split_nonempty sep s : split sep s <> [].
Proof.
  destruct s as [|c s]; simpl; [discriminate|].
  destruct (Ascii.eqb c sep); [discriminate|].
  destruct (split sep s); discriminate.
Qed.

(** After cleaning, every part between colons consists of digits. *)
Lemma split_keep_digits s :
  Forall (fun p => digits_only p = true) (split ":" (keepDigitsAndColons s)).
Proof.
  unfold keepDigitsAndColons.
  induction s as [|c s IH]; simpl; [repeat constructor|].
  destruct (is_digit c) eqn:Hd; simpl.
  - assert (Hc : Ascii.eqb c ":" = false).
    { destruct c as [[] [] [] [] [] [] [] []]; try discriminate Hd; reflexivity. }
    rewrite Hc.
    destruct (split ":" (filter_chars (fun c0 => is_digit c0 || is_colon c0) s))
      as [|h t] eqn:E; [now apply split_nonempty in E|].
    inversion IH; subst. constructor; [|assumption]. simpl. now rewrite Hd.
  - destruct (is_colon c) eqn:Hc; [|exact IH].
    simpl. unfold is_colon in Hc. rewrite Hc. now constructor.
Qed.

Lemma digitsValue_nonneg s : forall acc seen v,
  0 <= acc -> digitsValue s acc seen = Some v -> 0 <= v.
Proof.
  induction s as [|c s IH]; intros acc seen v Hacc; simpl.
  - destruct seen; [intros [= <-]; exact Hacc | discriminate].
  - destruct (is_digit c).
    + apply IH. lia.
    + destruct seen; [intros [= <-]; exact Hacc | discriminate].
Qed.

Lemma parseInt10_digits p :
  digits_only p = true -> parseInt10 p = digitsValue p 0 false.
Proof.
  destruct p as [|c p]; [reflexivity|]. simpl. intros H.
  apply andb_true_iff in H as [Hd _].
  destruct c as [[] [] [] [] [] [] [] []]; try discriminate Hd; reflexivity.
Qed.

Lemma parseIntOr0_nonneg p : digits_only p = true -> 0 <= parseIntOr0 p.
Proof.
  intros H. unfold parseIntOr0. rewrite (parseInt10_digits p H).
  destruct (digitsValue p 0 false) as [v|] eqn:E; simpl; [|lia].
  eapply digitsValue_nonneg; [|exact E]. lia.
Qed.

(** The parser never returns a negative number of seconds (signs are
    stripped with every other character that is not a digit or a colon),
    and what it returns depends on the digits and colons of the text only. *)
Theorem parseTimeString_nonnegative :
  (forall timeStr, 0 <= parseTimeString timeStr)
  /\ (forall c s c' s',
        keepDigitsAndColons (String c s) = keepDigitsAndColons (String c' s') ->
        parseTimeString (Some (String c s)) = parseTimeString (Some (String c' s'))).
Proof.
  split.
  - intros [[|c s]|]; try (simpl; lia).
    rewrite parseTimeString_clean.
    pose proof (split_keep_digits (String c s)) as Hall.
    destruct (split ":" (keepDigitsAndColons (String c s)))
      as [|p0 [|p1 [|p2 [|p3 l]]]]; try lia.
    + inversion Hall as [|? ? H0 Hall']; subst. inversion Hall' as [|? ? H1 _]; subst.
      pose proof (parseIntOr0_nonneg _ H0). pose proof (parseIntOr0_nonneg _ H1). lia.
    + inversion Hall as [|? ? H0 Hall']; subst.
      inversion Hall' as [|? ? H1 Hall'']; subst.
      inversion Hall'' as [|? ? H2 _]; subst.
      pose proof (parseIntOr0_nonneg _ H0). pose proof (parseIntOr0_nonneg _ H1).
      pose proof (parseIntOr0_nonneg _ H2). lia.
  - intros c s c' s' H. rewrite !parseTimeString_clean. now rewrite H.
Qed.

Lemma parseTimeString_nonnegative_witness :
  parseTimeString (Some "-1:23") = parseTimeString (Some "1:23 left").
Proof.
  apply (proj2 parseTimeString_nonnegative). reflexivity.
Defined.

End AgentExtras.

(** * Further properties of the popup *)

Section PopupExtras.

Import JS Popup.
Import Background (map_get, map_set, map_delete, map_values).

(** ** The order of the cards *)

Lemma compareSessions_antisym a b : compareSessions a b = - compareSessions b a.
Proof.
  unfold compareSessions.
  destruct (Background.paused (Background.state a)),
           (Background.paused (Background.state b)); simpl; lia.
Qed.

Lemma compareSessions_trans a b c :
  compareSessions a b <= 0 -> compareSessions b c <= 0 -> compareSessions a c <= 0.
Proof.
  unfold compareSessions.
  destruct (Background.paused (Background.state a)),
           (Background.paused (Background.state b)),
           (Background.paused (Background.state c)); simpl; lia.
Qed.

Lemma compareSessions_ordered a b :
  compareSessions a b <= 0 ->
  (Background.paused (Background.state a) = true ->
   Background.paused (Background.state b) = true)
  /\ (Background.paused (Background.state a) = Background.paused (Background.state b) ->
      Background.lastActiveAt b <= Background.lastActiveAt a).
Proof.
  unfold compareSessions.
  destruct (Background.paused (Background.state a)),
           (Background.paused (Background.state b)); simpl; intros H;
    split; intros; try discriminate; try reflexivity; lia.
Qed.

Lemma insertSorted_In cmp x l z : In z (insertSorted cmp x l) <-> z = x \/ In z l.
Proof.
  induction l as [|y t IH]; simpl; [intuition|].
  destruct (cmp x y <? 0); simpl; [intuition|]. rewrite IH. intuition.
Qed.

Lemma insertSorted_perm cmp x l : Permutation (insertSorted cmp x l) (x :: l).
Proof.
  induction l as [|y t IH]; simpl; [reflexivity|].
  destruct (cmp x y <? 0); [reflexivity|].
  rewrite IH. apply perm_swap.
Qed.

Lemma sortRefs_fold_perm cmp l : forall acc,
  Permutation (fold_left (fun acc x => insertSorted cmp x acc) l acc) (l ++ acc).
Proof.
  induction l as [|x l IH]; intros acc; simpl; [reflexivity|].
  rewrite IH, insertSorted_perm. symmetry. apply Permutation_middle.
Qed.

Lemma insertSorted_sorted h x l :
  is_Some (h !! x) ->
  (forall r, In r l -> is_Some (h !! r)) ->
  StronglySorted (fun a b => compareRefs h a b <= 0) l ->
  StronglySorted (fun a b => compareRefs h a b <= 0) (insertSorted (compareRefs h) x l).
Proof.
  intros [sx Hx] Hval Hs. induction Hs as [|y t Hs IH Hy]; simpl; [repeat constructor|].
  destruct (Hval y (or_introl eq_refl)) as [sy Hsy].
  destruct (Z.ltb_spec (compareRefs h x y) 0) as [Hlt|Hge].
  - constructor; [constructor; assumption|].
    constructor; [lia|].
    rewrite List.Forall_forall in *. intros z Hz. specialize (Hy z Hz).
    destruct (Hval z (or_intror Hz)) as [sz Hsz].
    unfold compareRefs in *. rewrite Hx, Hsy, Hsz in *.
    eapply compareSessions_trans; [|exact Hy]. lia.
  - constructor; [apply IH; intros r Hr; apply Hval; now right|].
    rewrite List.Forall_forall in *. intros z Hz.
    apply insertSorted_In in Hz as [->|Hz]; [|now apply Hy].
    unfold compareRefs in *. rewrite Hx, Hsy in *.
    rewrite compareSessions_antisym. lia.
Qed.

Lemma sortRefs_fold_sorted h l : forall acc,
  (forall r, In r l -> is_Some (h !! r)) ->
  (forall r, In r acc -> is_Some (h !! r)) ->
  StronglySorted (fun a b => compareRefs h a b <= 0) acc ->
  StronglySorted (fun a b => compareRefs h a b <= 0)
    (fold_left (fun acc x => insertSorted (compareRefs h) x acc) l acc).
Proof.
  induction l as [|x l IH]; intros acc Hl Hacc Hs; simpl; [exact Hs|].
  apply IH.
  - intros r Hr. apply Hl. now right.
  - intros r Hr. apply insertSorted_In in Hr as [->|Hr];
      [apply Hl; now left | now apply Hacc].
  - apply insertSorted_sorted; [apply Hl; now left | exact Hacc | exact Hs].
Qed.

(** [renderSessions] goes through every session exactly once (the sorted
    list is a permutation of the sessions), and in an order in which no
    paused session comes before a playing one and, among sessions in the
    same play state, the more recently active comes first. *)
Theorem cards_sorted_playing_first :
  forall h l,
    (forall r, In r l -> is_Some (h !! r)) ->
    Permutation (sortRefs (compareRefs h) l) l
    /\ StronglySorted (ordered h) (sortRefs (compareRefs h) l).
Proof.
  intros h l Hval. unfold sortRefs. split.
  - rewrite sortRefs_fold_perm. now rewrite app_nil_r.
  - pose proof (sortRefs_fold_sorted h l [] Hval (fun r H => match H with end)
                  (SSorted_nil _)) as Hs.
    assert (Hvs : forall r,
               In r (fold_left (fun acc x => insertSorted (compareRefs h) x acc) l []) ->
               is_Some (h !! r)).
    { intros r Hr. apply Hval.
      eapply Permutation_in in Hr; [|apply sortRefs_fold_perm].
      now rewrite app_nil_r in Hr. }
    revert Hs Hvs.
    generalize (fold_left (fun acc x => insertSorted (compareRefs h) x acc) l []) as s.
    intros s Hs. induction Hs as [|y t Hs IH Hy]; intros Hvs; constructor.
    + apply IH. intros r Hr. apply Hvs. now right.
    + rewrite List.Forall_forall in *. intros z Hz. specialize (Hy z Hz).
      destruct (Hvs y (or_introl eq_refl)) as [sy Hsy].
      destruct (Hvs z (or_intror Hz)) as [sz Hsz].
      unfold ordered, compareRefs in *. rewrite Hsy, Hsz in *.
      now apply compareSessions_ordered.
Qed.

Lemma cards_sorted_playing_first_witness :
  let h := [song true 10; song false 10; song true 10] in
  Permutation (sortRefs (compareRefs h) [0; 1; 2]%nat) [0; 1; 2]%nat
  /\ StronglySorted (ordered h) (sortRefs (compareRefs h) [0; 1; 2]%nat).
Proof.
  intros h. apply cards_sorted_playing_first.
  intros r [<-|[<-|[<-|[]]]]; eexists; reflexivity.
Defined.

(** ** Toggling twice *)

Lemma set_session_paused_id s :
  set_session_paused s (Background.paused (Background.state s)) = s.
Proof. destruct s as [? ? ? ? ? ? ? [] ?]. reflexivity. Qed.

Lemma set_session_paused_twice s a b :
  set_session_paused (set_session_paused s a) b = set_session_paused s b.
Proof. reflexivity. Qed.

(** Two clicks on the toggle button of a card put the paused flag of the
    card's session back where it was, post two [toggle] commands, and leave
    the optimistic entry of the session on the original value with the time
    of the second click. *)
Theorem toggle_twice_restores :
  forall P card c s0 t1 t2,
    cardHeap P !! card = Some c ->
    heap P !! captured c = Some s0 ->
    port P = true ->
    let P2 := handleToggle (handleToggle P card t1) card t2 in
    heap P2 !! captured c = Some s0
    /\ optimisticStates P2 !! Background.id s0
       = Some {| opt_paused := Background.paused (Background.state s0);
                 opt_timestamp := t2 |}
    /\ posted P2
       = posted P ++ [{| cmd_sessionId := Background.id s0; cmd := toggle |};
                      {| cmd_sessionId := Background.id s0; cmd := toggle |}].
Proof.
  intros P card c s0 t1 t2 Hc Hs Hport P2. subst P2.
  destruct (handleToggle_effect P card c s0 t1 Hc Hs) as (Hh1 & _ & _ & Hp1).
  destruct (handleToggle_drag_safe P card t1) as (K & _ & _ & Hport1).
  destruct (K card c Hc) as (c1 & Hc1 & _ & Hcap & _).
  rewrite <- Hcap in Hh1.
  destruct (handleToggle_effect (handleToggle P card t1) card c1 _ t2 Hc1 Hh1)
    as (Hh2 & Ho2 & _ & Hp2).
  rewrite Hcap in Hh2. simpl in Hh2, Ho2, Hp2.
  rewrite negb_involutive in Hh2, Ho2.
  rewrite set_session_paused_twice, set_session_paused_id in Hh2.
  split; [exact Hh2|]. split; [exact Ho2|].
  rewrite Hp2 by congruence. rewrite Hp1 by exact Hport. now rewrite <- app_assoc.
Qed.

Lemma toggle_twice_restores_witness :
  let P := handleBackgroundMessage connected (SESSIONS_INIT [song true 10]) 0 in
  let P2 := handleToggle (handleToggle P 0 1000) 0 1200 in
  heap P2 !! 0%nat = Some (song true 10)
  /\ length (posted P2) = 2%nat.
Proof.
  intros P P2.
  assert (Hc : exists c, cardHeap P !! 0%nat = Some c /\ captured c = 0%nat)
    by (vm_compute; eexists; split; reflexivity).
  destruct Hc as (c & Hc & Hcap).
  assert (Hs : heap P !! captured c = Some (song true 10))
    by (rewrite Hcap; reflexivity).
  destruct (toggle_twice_restores P 0%nat c (song true 10) 1000 1200 Hc Hs eq_refl)
    as (H1 & _ & H3).
  rewrite Hcap in H1. split; [exact H1|]. subst P2. rewrite H3. reflexivity.
Defined.

(** ** Releasing the pointer with several drags pending *)

Lemma sendControlCommand_frame P sid v :
  heap (sendControlCommand P sid v) = heap P
  /\ port (sendControlCommand P sid v) = port P
  /\ cardHeap (sendControlCommand P sid v) = cardHeap P
  /\ docListeners (sendControlCommand P sid v) = docListeners P.
Proof.
  unfold sendControlCommand. destruct (port P) eqn:E; simpl; rewrite ?E; auto.
Qed.

Lemma onEnd_frame P k card :
  heap (onEnd P k card) = heap P
  /\ port (onEnd P k card) = port P
  /\ (forall kc, endCommands (onEnd P k card) kc = endCommands P kc)
  /\ (forall r, is_Some (cardHeap P !! r) -> is_Some (cardHeap (onEnd P k card) !! r)).
Proof.
  unfold onEnd. destruct (cardHeap P !! card) as [c|] eqn:Hc; [|auto].
  destruct (heap P !! captured c) as [s|] eqn:Hs; [|auto].
  match goal with
  | |- context [sendControlCommand (sendControlCommand ?Q ?a ?b) ?a' ?b'] =>
      destruct (sendControlCommand_frame (sendControlCommand Q a b) a' b')
        as (h2 & p2 & c2 & _);
      destruct (sendControlCommand_frame Q a b) as (h1 & p1 & c1 & _)
  end.
  split; [now rewrite h2, h1|]. split; [now rewrite p2, p1|]. split.
  - intros kc. unfold endCommands. rewrite h2, h1, c2, c1. simpl.
    destruct (decide (snd kc = card)) as [->|Hne].
    + rewrite list_lookup_insert_eq by (eapply lookup_lt_Some; eassumption).
      now rewrite Hc.
    + now rewrite list_lookup_insert_ne by congruence.
  - intros r [x Hx]. rewrite c2, c1. simpl.
    destruct (decide (r = card)) as [->|Hne].
    + rewrite list_lookup_insert_eq by (eapply lookup_lt_Some; eassumption). eauto.
    + rewrite list_lookup_insert_ne by congruence. eauto.
Qed.

Lemma onEnd_posted P k card :
  port P = true ->
  posted (onEnd P k card) = posted P ++ endCommands P (k, card).
Proof.
  intros Hport. unfold onEnd, endCommands. simpl.
  destruct (cardHeap P !! card) as [c|]; [|now rewrite app_nil_r].
  destruct (heap P !! captured c) as [s|]; [|now rewrite app_nil_r].
  unfold sendControlCommand. simpl. rewrite Hport. simpl. rewrite Hport. simpl.
  now rewrite <- app_assoc.
Qed.

Lemma onEnd_listeners P k card :
  (exists c s, cardHeap P !! card = Some c /\ heap P !! captured c = Some s) ->
  docListeners (onEnd P k card)
  = List.filter (fun kc => negb (fst kc =? k)%nat) (docListeners P).
Proof.
  intros (c & s & Hc & Hs). unfold onEnd. rewrite Hc, Hs.
  match goal with
  | |- context [sendControlCommand (sendControlCommand ?Q ?a ?b) ?a' ?b'] =>
      destruct (sendControlCommand_frame (sendControlCommand Q a b) a' b')
        as (_ & _ & _ & d2);
      destruct (sendControlCommand_frame Q a b) as (_ & _ & _ & d1)
  end.
  now rewrite d2, d1.
Qed.

Lemma documentEnd_fold L : forall P,
  port P = true ->
  let P' := fold_left (fun P kc => onEnd P (fst kc) (snd kc)) L P in
  posted P' = posted P ++ flat_map (endCommands P) L
  /\ port P' = true
  /\ (forall kc, endCommands P' kc = endCommands P kc)
  /\ ((forall kc, In kc L ->
         exists c s, cardHeap P !! snd kc = Some c /\ heap P !! captured c = Some s) ->
      docListeners P'
      = List.filter (fun kc => negb (existsb (Nat.eqb (fst kc)) (map fst L)))
          (docListeners P)).
Proof.
  induction L as [|[k card] L IH]; intros P Hport; simpl.
  - split; [now rewrite app_nil_r|]. split; [exact Hport|]. split; [reflexivity|].
    intros _. induction (docListeners P) as [|x l IHl]; simpl; [reflexivity|].
    now rewrite <- IHl.
  - destruct (onEnd_frame P k card) as (Hh & Hp & He & Hc).
    assert (Hport' : port (onEnd P k card) = true) by congruence.
    destruct (IH (onEnd P k card) Hport') as (I1 & I2 & I3 & I4).
    split.
    { rewrite I1, onEnd_posted by exact Hport. rewrite <- app_assoc. f_equal. f_equal.
      apply flat_map_ext. exact He. }
    split; [exact I2|]. split; [intros kc; now rewrite I3, He|].
    intros Hval. rewrite I4.
    + rewrite onEnd_listeners by (apply (Hval (k, card)); now left).
      rewrite filter_filter. apply filter_ext. intros [k' c']. simpl.
      rewrite Nat.eqb_sym. now rewrite negb_orb.
    + intros kc Hkc. destruct (Hval kc (or_intror Hkc)) as (c & s & Hc' & Hs').
      assert (Hcmd : endCommands (onEnd P k card) kc <> []).
      { rewrite He. unfold endCommands. rewrite Hc', Hs'. discriminate. }
      unfold endCommands in Hcmd.
      destruct (cardHeap (onEnd P k card) !! snd kc) as [c2|] eqn:E1; [|congruence].
      destruct (heap (onEnd P k card) !! captured c2) as [s2|] eqn:E2; [|congruence].
      exists c2, s2. split; [reflexivity | exact E2].
Qed.

(** One release of the pointer ends every pending drag: each of them posts
    its own [setTime] followed by its own [endSeek], in the order in which
    the drags were started, and no drag listener is left.  So two drags
    started without a release in between make one release post two
    [setTime]/[endSeek] pairs. *)
Theorem pointer_release_ends_every_drag :
  forall P,
    port P = true -> drags_valid P ->
    posted (documentEnd P) = posted P ++ flat_map (endCommands P) (docListeners P)
    /\ length (posted (documentEnd P))
       = (length (posted P) + 2 * length (docListeners P))%nat
    /\ docListeners (documentEnd P) = [].
Proof.
  intros P Hport Hval. unfold documentEnd.
  destruct (documentEnd_fold (docListeners P) P Hport) as (H1 & _ & _ & H4).
  split; [exact H1|]. split.
  - rewrite H1, length_app. f_equal.
    clear H1 H4. unfold drags_valid in Hval. revert Hval.
    generalize (docListeners P) as L. intros L Hval.
    induction L as [|kc L IH]; [reflexivity|].
    cbn [flat_map]. rewrite length_app, IH by (intros x Hx; apply Hval; now right).
    destruct (Hval kc (or_introl eq_refl)) as (c & s & Hc & Hs).
    unfold endCommands. rewrite Hc, Hs. simpl. lia.
  - rewrite H4 by exact Hval.
    assert (Hall : forall kc, In kc (docListeners P) ->
               negb (existsb (Nat.eqb (fst kc)) (map fst (docListeners P))) = false).
    { intros kc Hkc. apply negb_false_iff. apply existsb_exists.
      exists (fst kc). split; [now apply in_map | apply Nat.eqb_refl]. }
    revert Hall. generalize (map fst (docListeners P)) as ks.
    generalize (docListeners P) as l.
    induction l as [|x l IHl]; intros ks Hall; [reflexivity|].
    simpl. rewrite (Hall x (or_introl eq_refl)). apply IHl.
    intros kc Hkc. apply Hall. now right.
Qed.

Lemma pointer_release_ends_every_drag_witness :
  let P := handleBackgroundMessage connected (SESSIONS_INIT [song false 10]) 0 in
  let e := {| clientX := num 150; touchX := None; rectLeft := fun _ => num 100;
              rectWidth := fun _ => num 200 |} in
  let P2 := startDrag (startDrag P 0 e) 0 e in
  length (posted (documentEnd P2)) = 6%nat
  /\ docListeners (documentEnd P2) = [].
Proof.
  intros P e P2.
  assert (Hval : drags_valid P2).
  { intros kc Hkc.
    assert (E : snd kc = 0%nat).
    { revert kc Hkc. apply List.Forall_forall. vm_compute. repeat constructor. }
    rewrite E. vm_compute. do 2 eexists. split; reflexivity. }
  destruct (pointer_release_ends_every_drag P2 eq_refl Hval) as (_ & H2 & H3).
  split; [rewrite H2; vm_compute; reflexivity | exact H3].
Defined.

End PopupExtras.

(** * The list of cards *)

Section RenderExtras.

Import JS Popup.
Import Background (map_get, map_set, map_delete, map_values).

Lemma map_filter_agree {A B} (f : A -> B) (p : A -> bool) (q : B -> bool) l :
  (forall x, In x l -> p x = q (f x)) ->
  map f (List.filter p l) = List.filter q (map f l).
Proof.
  induction l as [|x l IH]; intros H; [reflexivity|]. cbn [List.filter map].
  rewrite <- (H x (or_introl eq_refl)).
  rewrite <- IH by (intros y Hy; apply H; now right).
  now destruct (p x).
Qed.

Lemma NoDup_map_inj {A B} (f : A -> B) l x y :
  List.NoDup (map f l) -> In x l -> In y l -> f x = f y -> x = y.
Proof.
  induction l as [|a l IH]; intros Hnd Hx Hy E; [destruct Hx|].
  cbn [map] in Hnd. apply List.NoDup_cons_iff in Hnd as [Hna Hnd].
  destruct Hx as [->|Hx], Hy as [->|Hy]; auto.
  - exfalso. apply Hna. rewrite E. now apply in_map.
  - exfalso. apply Hna. rewrite <- E. now apply in_map.
Qed.

Lemma filter_all {A} (q : A -> bool) l :
  (forall x, In x l -> q x = true) -> List.filter q l = l.
Proof.
  induction l as [|x l IH]; intros H; [reflexivity|]. cbn [List.filter].
  rewrite (H x (or_introl eq_refl)), IH; [reflexivity|].
  intros y Hy. apply H. now right.
Qed.

Lemma cardIdOf_frozen P P' r :
  cards_frozen P P' -> is_Some (cardHeap P !! r) ->
  cardIdOf P' r = cardIdOf P r /\ is_Some (cardHeap P' !! r).
Proof.
  intros Hf [c Hc]. destruct (Hf r c Hc) as (c' & Hc' & E & _).
  unfold cardIdOf. rewrite Hc, Hc'. split; [exact E | eauto].
Qed.

Lemma updateSessionCardDOM_children P card session :
  children (updateSessionCardDOM P card session) = children P.
Proof.
  unfold updateSessionCardDOM.
  destruct (cardHeap P !! card); [|reflexivity].
  destruct (heap P !! session); reflexivity.
Qed.

Lemma findCard_Some P sid card :
  findCard P sid = Some card -> In card (children P) /\ cardIdOf P card = sid.
Proof.
  unfold findCard. intros H. apply find_some in H as [Hin Hp].
  split; [exact Hin|]. unfold cardIdOf.
  destruct (cardHeap P !! card); [now apply String.eqb_eq | discriminate].
Qed.

Lemma findCard_None P sid r :
  findCard P sid = None -> In r (children P) -> is_Some (cardHeap P !! r) ->
  cardIdOf P r <> sid.
Proof.
  unfold findCard. intros H Hin [c Hc].
  pose proof (find_none _ _ H r Hin) as Hp. cbv beta in Hp.
  unfold cardIdOf. rewrite Hc in Hp |- *. now apply String.eqb_neq.
Qed.

(** What one round of the last loop of [renderSessions] does to the ids
    shown: the id of the session moves to the end. *)
Lemma renderOne_shown P s :
  Forall (fun r => is_Some (cardHeap P !! r)) (children P) ->
  List.NoDup (shownIds P) ->
  Forall (fun r => is_Some (cardHeap (renderOne P s) !! r)) (children (renderOne P s))
  /\ shownIds (renderOne P s)
     = List.filter (fun i => negb (String.eqb i (sessionIdOfRef P s))) (shownIds P)
       ++ [sessionIdOfRef P s].
Proof.
  intros Hval Hnd.
  pose proof (renderOne_rendered P s) as [_ Hfr].
  rewrite List.Forall_forall in Hval.
  unfold shownIds. unfold renderOne in *.
  destruct (findCard P (sessionIdOfRef P s)) as [card|] eqn:Hfind.
  - apply findCard_Some in Hfind as [Hin Hid].
    rewrite updateSessionCardDOM_children. cbn [children set_children].
    assert (Hsub : forall r,
               In r (List.filter (fun r => negb (r =? card)%nat) (children P) ++ [card]) ->
               In r (children P)).
    { intros r Hr. apply in_app_or in Hr as [Hr|[<-|[]]]; [|exact Hin].
      now apply filter_In in Hr. }
    split.
    + apply List.Forall_forall. intros r Hr.
      apply (cardIdOf_frozen _ _ r Hfr). apply Hval. now apply Hsub.
    + rewrite (map_ext_in _ (cardIdOf P)).
      2:{ intros r Hr. apply (cardIdOf_frozen _ _ r Hfr). apply Hval. now apply Hsub. }
      rewrite map_app. cbn [map]. rewrite Hid. f_equal.
      apply map_filter_agree. intros r Hr. f_equal.
      destruct (Nat.eqb_spec r card) as [->|Hne].
      * rewrite Hid. symmetry. apply String.eqb_refl.
      * symmetry. apply String.eqb_neq. intros E. apply Hne.
        apply (NoDup_map_inj (cardIdOf P) (children P));
          [exact Hnd | exact Hr | exact Hin | congruence].
  - unfold createSessionCard in *.
    cbn [children set_children]. rewrite updateSessionCardDOM_children.
    cbn [children set_cardHeap].
    cbn [cardHeap set_children] in Hfr |- *.
    set (P2 := updateSessionCardDOM _ _ _) in *.
    assert (Hnew : exists c, cardHeap P2 !! length (cardHeap P) = Some c
                             /\ sessionId c = sessionIdOfRef P s).
    { pose proof (updateSessionCardDOM_rendered
                    (set_cardHeap P (cardHeap P ++
                       [blankCard (sessionIdOfRef P s) s]))
                    (length (cardHeap P)) s) as [_ Hf2].
      destruct (Hf2 (length (cardHeap P)) (blankCard (sessionIdOfRef P s) s))
        as (c' & Hc' & E & _).
      { cbn [cardHeap set_cardHeap]. rewrite lookup_app_r by lia.
        now rewrite Nat.sub_diag. }
      exists c'. split; [exact Hc' | exact E]. }
    destruct Hnew as (c & Hc & Hcid).
    split.
    + apply Forall_app. split.
      * apply List.Forall_forall. intros r Hr.
        apply (cardIdOf_frozen _ _ r Hfr). now apply Hval.
      * constructor; [eauto | constructor].
    + rewrite map_app. cbn [map]. f_equal.
      * rewrite (map_ext_in _ (cardIdOf P)).
        2:{ intros r Hr. apply (cardIdOf_frozen _ _ r Hfr). now apply Hval. }
        symmetry. apply filter_all. intros i Hi.
        apply in_map_iff in Hi as (r & <- & Hr).
        apply negb_true_iff, String.eqb_neq.
        apply findCard_None; [exact Hfind | exact Hr | now apply Hval].
      * unfold cardIdOf. cbn [cardHeap set_children]. now rewrite Hc, Hcid.
Qed.

Lemma sessionIdOfRef_heap P P' r :
  heap P' = heap P -> sessionIdOfRef P' r = sessionIdOfRef P r.
Proof. unfold sessionIdOfRef. now intros ->. Qed.

Lemma NoDup_move_end (i : string) ids :
  List.NoDup ids ->
  List.NoDup (List.filter (fun j => negb (String.eqb j i)) ids ++ [i]).
Proof.
  intros H. apply NoDup_ListNoDup, NoDup_app.
  split; [now apply NoDup_ListNoDup, List.NoDup_filter|]. split.
  - intros x Hx Hi. apply list_elem_of_singleton in Hi as ->.
    apply list_elem_of_In, filter_In in Hx as [_ Hx].
    now rewrite String.eqb_refl in Hx.
  - apply NoDup_singleton.
Qed.

Lemma fold_renderOne_shown L : forall P,
  Forall (fun r => is_Some (cardHeap P !! r)) (children P) ->
  List.NoDup (shownIds P) ->
  Forall (fun r => is_Some (cardHeap (fold_left renderOne L P) !! r))
         (children (fold_left renderOne L P))
  /\ shownIds (fold_left renderOne L P)
     = fold_left (fun ids i => List.filter (fun j => negb (String.eqb j i)) ids ++ [i])
                 (map (sessionIdOfRef P) L) (shownIds P).
Proof.
  induction L as [|s L IH]; intros P Hval Hnd; [now split|].
  cbn [fold_left map].
  destruct (renderOne_shown P s Hval Hnd) as [Hval' Hids].
  pose proof (renderOne_rendered P s) as [(Hheap & _) _].
  destruct (IH (renderOne P s) Hval') as [H1 H2].
  { rewrite Hids. now apply NoDup_move_end. }
  split; [exact H1|]. rewrite H2, Hids. f_equal.
  apply map_ext. intros r. now apply sessionIdOfRef_heap.
Qed.

Lemma fold_move_end Ls : forall A D : list string,
  List.NoDup Ls ->
  (forall x, In x A -> In x Ls) ->
  (forall x, In x D -> ~ In x Ls) ->
  fold_left (fun ids i => List.filter (fun j => negb (String.eqb j i)) ids ++ [i])
            Ls (A ++ D)
  = D ++ Ls.
Proof.
  induction Ls as [|s Ls IH]; intros A D Hnd HA HD.
  - destruct A as [|a A]; [now rewrite app_nil_r|]. destruct (HA a (or_introl eq_refl)).
  - cbn [fold_left]. apply List.NoDup_cons_iff in Hnd as [Hs Hnd].
    rewrite List.filter_app.
    rewrite (filter_all _ D).
    2:{ intros x Hx. apply negb_true_iff, String.eqb_neq. intros ->.
        apply (HD s Hx). now left. }
    rewrite <- app_assoc, IH; [now rewrite <- app_assoc | exact Hnd | |].
    + intros x Hx. apply filter_In in Hx as [Hx Hne].
      apply negb_true_iff, String.eqb_neq in Hne.
      destruct (HA x Hx) as [->|H]; [congruence | exact H].
    + intros x Hx Hin. apply in_app_or in Hx as [Hx|[<-|[]]].
      * apply (HD x Hx). now right.
      * now apply Hs.
Qed.

Lemma sortRefs_ids_NoDup P l :
  List.NoDup (map (sessionIdOfRef P) l) ->
  List.NoDup (map (sessionIdOfRef P) (sortRefs (compareRefs (heap P)) l)).
Proof.
  intros Hl. eapply Permutation_NoDup; [|exact Hl]. symmetry.
  apply Permutation_map. unfold sortRefs.
  rewrite sortRefs_fold_perm. now rewrite app_nil_r.
Qed.

Lemma renderSessions_shown P l :
  Forall (fun r => is_Some (cardHeap P !! r)) (children P) ->
  List.NoDup (shownIds P) ->
  List.NoDup (map (sessionIdOfRef P) l) ->
  shownIds (renderSessions P l)
  = map (sessionIdOfRef P) (sortRefs (compareRefs (heap P)) l)
  /\ Forall (fun r => is_Some (cardHeap (renderSessions P l) !! r))
            (children (renderSessions P l)).
Proof.
  intros Hval Hnd Hl. unfold renderSessions.
  set (newIds := map (sessionIdOfRef P) l).
  set (keep := fun r => match cardHeap P !! r with
                        | Some c => existsb (String.eqb (sessionId c)) newIds
                        | None => false
                        end).
  set (P0 := set_children P (List.filter keep (children P))).
  cbn [heap set_children].
  set (sorted := sortRefs (compareRefs (heap P)) l).
  assert (Hperm : Permutation sorted l).
  { unfold sorted, sortRefs. rewrite sortRefs_fold_perm. now rewrite app_nil_r. }
  assert (Hval0 : Forall (fun r => is_Some (cardHeap P0 !! r)) (children P0)).
  { apply List.Forall_forall. intros r Hr. cbn in Hr. apply filter_In in Hr as [Hr _].
    rewrite List.Forall_forall in Hval. now apply Hval. }
  assert (Hids0 : shownIds P0
                  = List.filter (fun i => existsb (String.eqb i) newIds) (shownIds P)).
  { unfold shownIds. cbn [children set_children P0].
    rewrite (map_ext (cardIdOf P0) (cardIdOf P)) by reflexivity.
    apply map_filter_agree. intros r Hr.
    rewrite List.Forall_forall in Hval. destruct (Hval r Hr) as [c Hc].
    unfold keep, cardIdOf. now rewrite Hc. }
  assert (Hnd0 : List.NoDup (shownIds P0)).
  { rewrite Hids0. now apply List.NoDup_filter. }
  destruct (fold_renderOne_shown sorted P0 Hval0 Hnd0) as [Hv Hs].
  split; [|exact Hv].
  change (shownIds (fold_left renderOne sorted P0) = map (sessionIdOfRef P) sorted).
  rewrite Hs. rewrite (map_ext (sessionIdOfRef P0) (sessionIdOfRef P)) by reflexivity.
  rewrite <- (app_nil_r (shownIds P0)).
  rewrite fold_move_end; [reflexivity | | | intros x []].
  - now apply sortRefs_ids_NoDup.
  - intros x Hx. rewrite Hids0 in Hx. apply filter_In in Hx as [_ Hx].
    apply existsb_exists in Hx as (y & Hy & E). apply String.eqb_eq in E. subst y.
    eapply Permutation_in; [|exact Hy]. symmetry. now apply Permutation_map.
Qed.

(** After [renderSessions] the list shows exactly one card per session, in
    the sorted order of the sessions, whatever cards it showed before: the
    cards of sessions that are gone are dropped, the others are moved, and
    a card is made for every session that had none. *)
Theorem renderSessions_one_card_per_session :
  forall P l,
    Forall (fun r => is_Some (cardHeap P !! r)) (children P) ->
    NoDup (shownIds P) ->
    NoDup (map (sessionIdOfRef P) l) ->
    shownIds (renderSessions P l)
    = map (sessionIdOfRef P) (sortRefs (compareRefs (heap P)) l)
    /\ NoDup (shownIds (renderSessions P l)).
Proof.
  intros P l Hval Hnd Hl. rewrite !NoDup_ListNoDup in *.
  destruct (renderSessions_shown P l Hval Hnd Hl) as [H _].
  split; [exact H|]. rewrite H. now apply sortRefs_ids_NoDup.
Qed.

Lemma renderSessions_one_card_per_session_witness :
  let other :=
    {| Background.id := "8:0"; Background.tabId := 8; Background.frameId := 0;
       Background.title := "Talk"; Background.url := "https://example.org/";
       Background.favIconUrl := None; Background.artworkUrl := None;
       Background.state := Background.state (song false 3);
       Background.lastActiveAt := 500 |} in
  let P := handleBackgroundMessage connected (SESSIONS_INIT [song true 10]) 0 in
  let Q := storeSession P other in
  shownIds P = ["7:0"]
  /\ shownIds (renderSessions Q [0; 1]%nat) = ["8:0"; "7:0"].
Proof.
  intros other P Q. split; [reflexivity|].
  assert (Hv : Forall (fun r => is_Some (cardHeap Q !! r)) (children Q)).
  { repeat constructor. eexists. reflexivity. }
  assert (Hn : NoDup (shownIds Q)).
  { apply NoDup_ListNoDup. repeat constructor. intros []. }
  assert (Hl : NoDup (map (sessionIdOfRef Q) [0; 1]%nat)).
  { apply NoDup_ListNoDup. repeat constructor; [|intros []].
    intros [H|[]]. discriminate H. }
  exact (proj1 (renderSessions_one_card_per_session Q [0; 1]%nat Hv Hn Hl)).
Defined.

End RenderExtras.

(** * An invariant of the popup *)

Section PopupInvariant.

Import JS Popup.
Import Background (map_get, map_set, map_delete, map_values).

Lemma list_kept_refl P : list_kept P P.
Proof.
  split; [reflexivity|]. split; [reflexivity|].
  split; [intros r c Hc; eauto | exact (heap_kept_refl P)].
Qed.

Lemma list_kept_trans P Q R : list_kept P Q -> list_kept Q R -> list_kept P R.
Proof.
  intros (s1 & c1 & i1 & h1) (s2 & c2 & i2 & h2).
  split; [congruence|]. split; [congruence|]. split.
  - intros r c Hc. destruct (i1 r c Hc) as (c' & Hc' & E).
    destruct (i2 r c' Hc') as (c'' & Hc'' & E'). exists c''. split; congruence.
  - eapply heap_kept_trans; eassumption.
Qed.

Lemma same_parts_list_kept P P' :
  heap P' = heap P -> sessions P' = sessions P ->
  cardHeap P' = cardHeap P -> children P' = children P -> list_kept P P'.
Proof.
  intros Hh Hs Hc Hch. split; [exact Hs|]. split; [exact Hch|]. split.
  - intros r c H. rewrite Hc. eauto.
  - intros r s H. rewrite Hh. eauto.
Qed.

Lemma insert_card_list_kept P card c c' :
  cardHeap P !! card = Some c -> sessionId c' = sessionId c ->
  list_kept P (set_cardHeap P (<[card := c']> (cardHeap P))).
Proof.
  intros Hc E. split; [reflexivity|]. split; [reflexivity|].
  split; [|exact (heap_kept_refl P)].
  intros r x Hx. cbn [cardHeap set_cardHeap].
  destruct (decide (r = card)) as [->|Hne].
  - exists c'. rewrite list_lookup_insert_eq by (eapply lookup_lt_Some; eassumption).
    split; congruence.
  - exists x. now rewrite list_lookup_insert_ne by congruence.
Qed.

Lemma rendered_list_kept P P' :
  rendered P P' -> children P' = children P -> list_kept P P'.
Proof.
  intros [(Hh & Hs & _) Hf] Hch. split; [exact Hs|]. split; [exact Hch|]. split.
  - intros r c Hc. destruct (Hf r c Hc) as (c' & Hc' & E & _). eauto.
  - intros r s H. rewrite Hh. eauto.
Qed.

Lemma updateSessionCardDOM_list_kept P card session :
  list_kept P (updateSessionCardDOM P card session).
Proof.
  apply rendered_list_kept;
    [apply updateSessionCardDOM_rendered | apply updateSessionCardDOM_children].
Qed.

Lemma sendControlCommand_list_kept P sid v :
  list_kept P (sendControlCommand P sid v).
Proof.
  unfold sendControlCommand. destruct (port P); [|apply list_kept_refl].
  now apply same_parts_list_kept.
Qed.

Lemma onMove_list_kept P card e : list_kept P (onMove P card e).
Proof.
  unfold onMove. destruct (cardHeap P !! card) as [c|] eqn:Hc; [|apply list_kept_refl].
  destruct (heap P !! captured c) as [s|]; [|apply list_kept_refl].
  now apply insert_card_list_kept with (c := c).
Qed.

Lemma startDrag_list_kept P card e : list_kept P (startDrag P card e).
Proof.
  unfold startDrag. destruct (cardHeap P !! card) as [c|] eqn:Hc; [|apply list_kept_refl].
  destruct (heap P !! captured c) as [s|]; [|apply list_kept_refl].
  destruct (negb _); [apply list_kept_refl|].
  eapply list_kept_trans; [|apply onMove_list_kept].
  eapply list_kept_trans; [|now apply same_parts_list_kept].
  eapply list_kept_trans; [|apply sendControlCommand_list_kept].
  now apply insert_card_list_kept with (c := c).
Qed.

Lemma onEnd_list_kept P k card : list_kept P (onEnd P k card).
Proof.
  unfold onEnd. destruct (cardHeap P !! card) as [c|] eqn:Hc; [|apply list_kept_refl].
  destruct (heap P !! captured c) as [s|]; [|apply list_kept_refl].
  eapply list_kept_trans; [|apply sendControlCommand_list_kept].
  eapply list_kept_trans; [|apply sendControlCommand_list_kept].
  eapply list_kept_trans; [|now apply same_parts_list_kept].
  now apply insert_card_list_kept with (c := c).
Qed.

Lemma documentMove_list_kept P e : list_kept P (documentMove P e).
Proof.
  unfold documentMove. generalize (docListeners P) as l. intros l. revert P.
  induction l as [|x l IH]; intros P; cbn [fold_left]; [apply list_kept_refl|].
  eapply list_kept_trans; [apply onMove_list_kept | apply IH].
Qed.

Lemma documentEnd_list_kept P : list_kept P (documentEnd P).
Proof.
  unfold documentEnd. generalize (docListeners P) as l. intros l. revert P.
  induction l as [|x l IH]; intros P; cbn [fold_left]; [apply list_kept_refl|].
  eapply list_kept_trans; [apply onEnd_list_kept | apply IH].
Qed.

Lemma handleToggle_list_kept P card now : list_kept P (handleToggle P card now).
Proof.
  unfold handleToggle.
  destruct (cardHeap P !! card) as [c|] eqn:Hc; [|apply list_kept_refl].
  destruct (heap P !! captured c) as [s|] eqn:Hs; [|apply list_kept_refl].
  eapply list_kept_trans; [|apply sendControlCommand_list_kept].
  eapply list_kept_trans; [|apply updateSessionCardDOM_list_kept].
  split; [reflexivity|]. split; [reflexivity|].
  split; [intros r x Hx; eauto|].
  intros r x Hx. cbn [heap set_heap set_optimisticStates].
  destruct (decide (r = captured c)) as [->|Hne].
  - rewrite list_lookup_insert_eq by (eapply lookup_lt_Some; eassumption).
    rewrite Hs in Hx. injection Hx as <-. eexists. split; [reflexivity|]. auto.
  - exists x. rewrite list_lookup_insert_ne by congruence. auto.
Qed.

Lemma popup_inv_kept P P' : list_kept P P' -> popup_inv P -> popup_inv P'.
Proof.
  intros (Hs & Hch & Hi & Hh) (I1 & I2 & I3 & I4).
  rewrite List.Forall_forall in I3.
  split; [now rewrite Hs|]. split; [|split].
  - intros k r Hkr. rewrite Hs in Hkr. destruct (I2 k r Hkr) as (s & Hr & E).
    destruct (Hh r s Hr) as (s' & Hr' & E' & _). exists s'. split; congruence.
  - rewrite Hch. apply List.Forall_forall. intros r Hr.
    destruct (I3 r Hr) as [c Hc]. destruct (Hi r c Hc) as (c' & Hc' & _). eauto.
  - unfold shownIds. rewrite Hch. rewrite (map_ext_in _ (cardIdOf P)); [exact I4|].
    intros r Hr. destruct (I3 r Hr) as [c Hc]. destruct (Hi r c Hc) as (c' & Hc' & E).
    unfold cardIdOf. now rewrite Hc, Hc'.
Qed.

Lemma storeSession_inv P s : popup_inv P -> popup_inv (storeSession P s).
Proof.
  intros (I1 & I2 & I3 & I4). unfold storeSession.
  split; [|split; [|split]]; cbn [sessions heap cardHeap children set_sessions set_heap].
  - now apply map_set_keys_unique.
  - intros k r Hkr. apply map_set_In in Hkr as [[-> ->]|Hkr].
    + exists s. split; [|reflexivity].
      rewrite lookup_app_r by lia. now rewrite Nat.sub_diag.
    + destruct (I2 k r Hkr) as (x & Hx & E). exists x. split; [|exact E].
      rewrite lookup_app_l by (eapply lookup_lt_Some; eassumption). exact Hx.
  - exact I3.
  - exact I4.
Qed.

Lemma set_sessions_inv P m :
  NoDup (map fst m) ->
  (forall k r, In (k, r) m -> exists s, heap P !! r = Some s /\ Background.id s = k) ->
  popup_inv P -> popup_inv (set_sessions P m).
Proof. intros H1 H2 (_ & _ & I3 & I4). repeat split; assumption. Qed.

Lemma sessions_ids P :
  (forall k r, In (k, r) (sessions P) ->
     exists s, heap P !! r = Some s /\ Background.id s = k) ->
  map (sessionIdOfRef P) (map_values (sessions P)) = map fst (sessions P).
Proof.
  unfold map_values. intros H. induction (sessions P) as [|[k r] m IH];
    [reflexivity|].
  cbn [map fst snd]. f_equal.
  - destruct (H k r (or_introl eq_refl)) as (s & Hs & E).
    unfold sessionIdOfRef. now rewrite Hs.
  - apply IH. intros k' r' Hin. apply H. now right.
Qed.

Lemma updateDisplay_inv P : popup_inv P -> popup_inv (updateDisplay P).
Proof.
  intros (I1 & I2 & I3 & I4). unfold updateDisplay.
  destruct (map_values (sessions P)) as [|r0 l0] eqn:El.
  { repeat split; assumption. }
  rewrite <- El. clear El r0 l0.
  set (Q := set_listHidden P false).
  pose proof (renderSessions_rendered Q (map_values (sessions P)))
    as [(Hh & Hs & _) _].
  assert (Hl : List.NoDup (map (sessionIdOfRef Q) (map_values (sessions P)))).
  { rewrite (map_ext (sessionIdOfRef Q) (sessionIdOfRef P)) by reflexivity.
    rewrite (sessions_ids P I2). now apply NoDup_ListNoDup. }
  destruct (renderSessions_shown Q (map_values (sessions P)) I3
              (proj1 (NoDup_ListNoDup _) I4) Hl) as [Hshown Hvalid].
  split; [|split; [|split]].
  - rewrite Hs. exact I1.
  - intros k r Hkr. rewrite Hs in Hkr. rewrite Hh. now apply I2.
  - exact Hvalid.
  - rewrite Hshown. apply NoDup_ListNoDup. now apply sortRefs_ids_NoDup.
Qed.

Lemma updateSessionCard_list_kept P session :
  list_kept P (updateSessionCard P session).
Proof.
  unfold updateSessionCard.
  destruct (heap P !! session); [|apply list_kept_refl].
  destruct (findCard P _); [apply updateSessionCardDOM_list_kept | apply list_kept_refl].
Qed.

Lemma handleBackgroundMessage_inv P message now :
  popup_inv P -> popup_inv (handleBackgroundMessage P message now).
Proof.
  intros I. destruct message as [l|session|sid]; cbn [handleBackgroundMessage].
  - apply updateDisplay_inv.
    assert (I0 : popup_inv (set_sessions P [])).
    { apply set_sessions_inv; [constructor | intros k r [] | exact I]. }
    revert I0. generalize (set_sessions P []) as Q. clear I.
    induction l as [|s l IH]; intros Q IQ; cbn [fold_left]; [exact IQ|].
    apply IH. now apply storeSession_inv.
  - assert (Hopt : forall Q o, popup_inv Q -> popup_inv (set_optimisticStates Q o)).
    { intros Q o IQ. destruct IQ as (J1 & J2 & J3 & J4). repeat split; assumption. }
    destruct (optimisticStates P !! Background.id session) as [o|];
      [destruct (now - opt_timestamp o <? 1000)|].
    + apply updateDisplay_inv.
      eapply popup_inv_kept; [apply updateSessionCard_list_kept|].
      now apply storeSession_inv.
    + apply updateDisplay_inv.
      eapply popup_inv_kept; [apply updateSessionCard_list_kept|].
      apply storeSession_inv. now apply Hopt.
    + apply updateDisplay_inv.
      eapply popup_inv_kept; [apply updateSessionCard_list_kept|].
      apply storeSession_inv. now apply Hopt.
  - destruct I as (I1 & I2 & I3 & I4).
    split; [|split; [|split]];
      cbn [sessions heap cardHeap children set_sessions set_optimisticStates].
    + now apply map_delete_keys_unique.
    + intros k r Hkr. apply map_delete_In in Hkr as [Hkr _]. now apply I2.
    + exact I3.
    + exact I4.
Qed.

Lemma step_inv P ev : popup_inv P -> popup_inv (step P ev).
Proof.
  intros I. destruct ev as [[message|card|card e|e|] now]; unfold step; cbn [fst snd].
  - now apply handleBackgroundMessage_inv.
  - eapply popup_inv_kept; [apply handleToggle_list_kept | exact I].
  - eapply popup_inv_kept; [apply startDrag_list_kept | exact I].
  - eapply popup_inv_kept; [apply documentMove_list_kept | exact I].
  - eapply popup_inv_kept; [apply documentEnd_list_kept | exact I].
Qed.

Lemma connected_inv : popup_inv connected.
Proof. split; [constructor|]. split; [intros k r []|]. split; constructor. Qed.

Lemma run_inv evs : forall P, popup_inv P -> popup_inv (run P evs).
Proof.
  unfold run. induction evs as [|ev evs IH]; intros P I; cbn [fold_left]; [exact I|].
  apply IH. now apply step_inv.
Qed.

(** Whatever messages, clicks and drags the popup handles after it has
    connected, its list never shows two cards for the same session id,
    every child of the list is a card element, and every entry of its map
    refers to a session object that carries the entry's id. *)
Theorem popup_never_duplicates_cards :
  forall evs, popup_inv (run connected evs).
Proof. intros evs. apply run_inv. exact connected_inv. Qed.

End PopupInvariant.

(** * From the registry to the list of cards *)

Section EndToEnd.

Import JS Popup.
Import Background (map_get, map_set, map_delete, map_values).

Lemma storeSession_keys l : forall Q,
  List.NoDup (map fst (sessions Q) ++ map Background.id l) ->
  map fst (sessions (fold_left storeSession l Q))
  = map fst (sessions Q) ++ map Background.id l.
Proof.
  induction l as [|s l IH]; intros Q Hnd; cbn [fold_left map].
  - now rewrite app_nil_r.
  - assert (Hk : map fst (sessions (storeSession Q s))
                 = map fst (sessions Q) ++ [Background.id s]).
    { unfold storeSession. cbn [sessions set_sessions set_heap].
      rewrite map_set_keys.
      destruct (Background.map_has (Background.id s) (sessions Q)) eqn:E;
        [|reflexivity].
      apply map_has_keys in E. exfalso.
      cbn [map] in Hnd. apply NoDup_remove_2 in Hnd. apply Hnd.
      apply in_or_app. now left. }
    rewrite IH; rewrite Hk, <- app_assoc; [reflexivity | exact Hnd].
Qed.

Lemma stored_ids (l : list (string * Background.Session)) :
  (forall k s, In (k, s) l -> Background.id s = k) ->
  map Background.id (map_values l) = map fst l.
Proof.
  unfold map_values. induction l as [|[k s] l IH]; intros H; [reflexivity|].
  cbn [map fst snd]. f_equal.
  - now apply H; left.
  - apply IH. intros k' s' Hin. apply H. now right.
Qed.

Lemma updateSessionCardDOM_hidden P card session :
  listHidden (updateSessionCardDOM P card session) = listHidden P.
Proof.
  unfold updateSessionCardDOM.
  destruct (cardHeap P !! card); [|reflexivity].
  destruct (heap P !! session); reflexivity.
Qed.

Lemma renderOne_hidden P s : listHidden (renderOne P s) = listHidden P.
Proof.
  unfold renderOne. destruct (findCard P _) as [card|].
  - now rewrite updateSessionCardDOM_hidden.
  - unfold createSessionCard. cbn [listHidden set_children].
    now rewrite updateSessionCardDOM_hidden.
Qed.

Lemma fold_renderOne_hidden L : forall Q,
  listHidden (fold_left renderOne L Q) = listHidden Q.
Proof.
  induction L as [|s L IH]; intros Q; cbn [fold_left]; [reflexivity|].
  now rewrite IH, renderOne_hidden.
Qed.

Lemma renderSessions_hidden P l : listHidden (renderSessions P l) = listHidden P.
Proof. unfold renderSessions. now rewrite fold_renderOne_hidden. Qed.

Lemma fold_storeSession_inv l : forall Q,
  popup_inv Q -> popup_inv (fold_left storeSession l Q).
Proof.
  induction l as [|s l IH]; intros Q IQ; cbn [fold_left]; [exact IQ|].
  apply IH. now apply storeSession_inv.
Qed.

(** When the popup connects, the coordinator posts its registry and the
    popup renders it: an empty registry hides the list; otherwise the list
    is visible and shows one card for each stored session id and no other
    card, whatever the popup showed before. *)
Theorem popup_shows_the_registry :
  forall m P now,
    Background.coordinator_inv m -> popup_inv P ->
    let P' := handleBackgroundMessage P
                (SESSIONS_INIT (Background.handlePopupConnection m)) now in
    match Background.sessions m with
    | [] => listHidden P' = true
    | _ => listHidden P' = false
           /\ Permutation (shownIds P') (map fst (Background.sessions m))
    end.
Proof.
  intros m P now (Hwf & Hku & _ & _) I P'.
  unfold Background.handlePopupConnection, Background.keys_unique in *.
  assert (Hid : map Background.id (map_values (Background.sessions m))
                = map fst (Background.sessions m)).
  { apply stored_ids. intros k s Hin. now apply (Hwf k s Hin). }
  subst P'. cbn [handleBackgroundMessage].
  set (Q := fold_left storeSession (map_values (Background.sessions m))
                      (set_sessions P [])).
  assert (IQ : popup_inv Q).
  { apply fold_storeSession_inv.
    apply set_sessions_inv; [constructor | intros k r [] | exact I]. }
  assert (HQ : map fst (sessions Q) = map fst (Background.sessions m)).
  { unfold Q. rewrite storeSession_keys; cbn [sessions set_sessions map app];
      rewrite Hid; [reflexivity | now apply NoDup_ListNoDup]. }
  destruct (Background.sessions m) as [|[k0 s0] rest] eqn:Em.
  - reflexivity.
  - destruct IQ as (I1 & I2 & I3 & I4).
    unfold updateDisplay.
    destruct (map_values (sessions Q)) as [|r0 l0] eqn:El.
    { unfold map_values in El. apply (f_equal (@length _)) in El, HQ.
      rewrite !length_map in *. cbn in HQ, El. lia. }
    rewrite <- El. clear El r0 l0.
    set (R := set_listHidden Q false).
    assert (Hl : List.NoDup (map (sessionIdOfRef R) (map_values (sessions Q)))).
    { rewrite (map_ext (sessionIdOfRef R) (sessionIdOfRef Q)) by reflexivity.
      rewrite (sessions_ids Q I2). now apply NoDup_ListNoDup. }
    destruct (renderSessions_shown R (map_values (sessions Q)) I3
                (proj1 (NoDup_ListNoDup _) I4) Hl) as [Hshown _].
    split.
    + pose proof (renderSessions_hidden R (map_values (sessions Q))) as Hh.
      exact Hh.
    + rewrite Hshown, <- HQ, <- (sessions_ids Q I2).
      rewrite (map_ext (sessionIdOfRef R) (sessionIdOfRef Q)) by reflexivity.
      apply Permutation_map. unfold sortRefs.
      rewrite sortRefs_fold_perm. now rewrite app_nil_r.
Qed.

Lemma popup_shows_the_registry_witness :
  let snapshot p :=
    {| Background.sd_title := "a"; Background.sd_artworkUrl := None;
       Background.sd_state :=
         Some {| Background.paused := p; Background.muted := false;
                 Background.volume := num 1; Background.currentTime := num 10;
                 Background.duration := num 50; Background.canSeek := true;
                 Background.ended := false |} |} in
  let tab := {| Background.tab_title := "t"; Background.tab_url := "u";
                Background.tab_favIconUrl := None |} in
  let ops := [Background.OpUpdate (snapshot true) 7 0 tab 1000;
              Background.OpUpdate (snapshot false) 9 0 tab 2000] in
  let m := Background.apply_ops Background.initial ops in
  let P' := handleBackgroundMessage connected
              (SESSIONS_INIT (Background.handlePopupConnection m)) 0 in
  listHidden P' = false /\ Permutation (shownIds P') ["7:0"; "9:0"].
Proof.
  intros snapshot tab ops m P'.
  assert (Hops : Forall Background.op_clock_positive ops).
  { repeat constructor. }
  exact (popup_shows_the_registry m connected 0
           (apply_ops_inv ops Background.initial Hops initial_inv) connected_inv).
Defined.

End EndToEnd.

(** * What the agent writes and the popup reads *)

Section RoundTrips.

Import JS Agent Popup.

Lemma splitFirst_first_separator t a :
  has_hyphen t = false ->
  splitFirst " - " (t +:+ " - " +:+ a) = Some (t, a).
Proof.
  induction t as [|c t IH]; intros H.
  - destruct a; reflexivity.
  - cbn [has_hyphen] in H. apply orb_false_iff in H as [Hc Ht].
    specialize (IH Ht).
    change (String c t +:+ " - " +:+ a) with (String c (t +:+ " - " +:+ a)).
    cbn [splitFirst]. rewrite IH.
    assert (Hp : String.prefix " - " (String c (t +:+ " - " +:+ a)) = false).
    { cbn [String.prefix]. destruct (ascii_dec " " c) as [_|_]; [|reflexivity].
      destruct t as [|d t].
      - reflexivity.
      - cbn [has_hyphen] in Ht. apply orb_false_iff in Ht as [Hd _].
        change (String d t +:+ " - " +:+ a) with (String d (t +:+ " - " +:+ a)).
        cbn [String.prefix].
        destruct (ascii_dec "-" d) as [<-|_]; [discriminate Hd | reflexivity]. }
    simpl in Hp |- *. rewrite Hp. reflexivity.
Qed.

(** The title that the agent builds for a Spotify page, track name then
    [" - "] then artist name (each replaced by its fallback when no text
    was found or the text is empty), is split back by the popup's card
    into the same track and artist whenever the track name holds no
    hyphen. *)
Theorem spotify_title_round_trip :
  forall page v,
    let track :=
      Background.str_or (default EmptyString (trackName page)) "Unknown Track" in
    let artist :=
      Background.str_or (default EmptyString (artistName page)) "Unknown Artist" in
    has_hyphen track = false ->
    parseMetadata (Background.sd_title (spotifySessionData page v))
    = (track, artist).
Proof.
  intros page v track artist H. cbn [spotifySessionData Background.sd_title].
  fold track. fold artist.
  unfold parseMetadata. rewrite (splitFirst_first_separator _ _ H).
  destruct track; reflexivity.
Qed.

Lemma spotify_title_round_trip_witness :
  let page :=
    {| elements := []; documentTitle := "Spotify"; metadata := None;
       isSpotify := true; trackName := Some "So What";
       artistName := Some "Miles Davis - Topic";
       pauseButton := true; playButton := false;
       progressTimeText := Some "1:05"; durationTimeText := Some "9:22" |} in
  parseMetadata (Background.sd_title (spotifySessionData page newVirtualElement))
  = ("So What", "Miles Davis - Topic").
Proof.
  intros page. exact (spotify_title_round_trip page newVirtualElement eq_refl).
Defined.

(** ** Time labels *)

Lemma pretty_char_digit d :
  (d < 10)%N ->
  is_digit (pretty_N_char d) = true
  /\ Z.of_nat (nat_of_ascii (pretty_N_char d) - 48) = Z.of_N d.
Proof.
  intros H.
  assert (Hd : (d = 0 \/ d = 1 \/ d = 2 \/ d = 3 \/ d = 4 \/ d = 5 \/ d = 6
                \/ d = 7 \/ d = 8 \/ d = 9)%N) by lia.
  repeat (destruct Hd as [->|Hd]); try subst d; split; reflexivity.
Qed.

Lemma digitsValue_pretty_go x :
  (0 < x)%N ->
  exists k, 0 <= k /\ forall s acc seen,
    digitsValue (pretty_N_go x s) acc seen
    = digitsValue s (acc * 10 ^ k + Z.of_N x) true.
Proof.
  induction (N.lt_wf_0 x) as [x _ IH]. intros Hx.
  assert (Hm : (x `mod` 10 < 10)%N) by (apply N.mod_lt; lia).
  destruct (pretty_char_digit _ Hm) as [Hd Hv].
  destruct (N.eq_dec (x / 10)%N 0%N) as [E|E].
  - exists 1. split; [lia|]. intros s acc seen.
    rewrite pretty_N_go_step, E, pretty_N_go_0 by exact Hx.
    cbn [digitsValue]. rewrite Hd, Hv. f_equal.
    assert (Hs : (x mod 10 = x)%N).
    { apply N.mod_small. apply N.div_small_iff in E; [exact E|discriminate]. }
    rewrite Hs, Z.pow_1_r. lia.
  - destruct (IH (x `div` 10)%N) as (k & Hk & IHk).
    { apply N.div_lt; lia. }
    { now apply N.neq_0_lt_0. }
    exists (k + 1). split; [lia|]. intros s acc seen.
    rewrite pretty_N_go_step, IHk by exact Hx.
    cbn [digitsValue]. rewrite Hd, Hv. f_equal.
    rewrite Z.pow_add_r, Z.pow_1_r by lia.
    pose proof (N.div_mod x 10%N ltac:(lia)) as Hdm.
    rewrite Hdm at 3. rewrite N2Z.inj_add, N2Z.inj_mul. simpl (Z.of_N 10). ring.
Qed.

Lemma digits_only_pretty_go x : forall s,
  digits_only s = true -> digits_only (pretty_N_go x s) = true.
Proof.
  induction (N.lt_wf_0 x) as [x _ IH]. intros s Hs.
  destruct (N.eq_dec x 0%N) as [->|E]; [now rewrite pretty_N_go_0|].
  rewrite pretty_N_go_step by lia.
  apply IH; [apply N.div_lt; lia|].
  cbn [digits_only]. rewrite Hs, andb_true_r.
  apply pretty_char_digit. apply N.mod_lt. lia.
Qed.

(** A non-negative integer printed in decimal reads back as itself. *)
Lemma pretty_Z_digits z :
  0 <= z ->
  digits_only (pretty z) = true /\ digitsValue (pretty z) 0 false = Some z.
Proof.
  intros Hz. destruct z as [|p|p]; [split; reflexivity| |lia].
  change (pretty (Z.pos p)) with (pretty_N_go (N.pos p) "").
  split; [now apply digits_only_pretty_go|].
  destruct (digitsValue_pretty_go (N.pos p)) as (k & _ & Hk); [lia|].
  rewrite Hk. cbn [digitsValue]. f_equal.
Qed.

Lemma digitsValue_seen c s acc seen :
  is_digit c = true ->
  digitsValue (String c s) acc seen = digitsValue (String c s) acc true.
Proof. intros H. cbn [digitsValue]. now rewrite H. Qed.

Lemma padStart2_digits p v :
  digits_only p = true -> digitsValue p 0 false = Some v ->
  digits_only (padStart2 p) = true /\ digitsValue (padStart2 p) 0 false = Some v.
Proof.
  intros Hp Hv. destruct p as [|c [|d p]]; [discriminate Hv| |now split].
  cbn [padStart2]. split; [exact Hp|].
  cbn [digits_only] in Hp. apply andb_true_iff in Hp as [Hc _].
  rewrite <- Hv. cbn [digitsValue]. rewrite Hc. reflexivity.
Qed.

Lemma digit_not_space c : is_digit c || is_colon c = true -> is_space c = false.
Proof.
  destruct c as [[] [] [] [] [] [] [] []]; try discriminate; reflexivity.
Qed.

Lemma digit_not_colon c : is_digit c = true -> Ascii.eqb c ":" = false.
Proof.
  destruct c as [[] [] [] [] [] [] [] []]; try discriminate; reflexivity.
Qed.

Lemma clock_text_clean s :
  clock_text s = true ->
  trimStart s = s /\ trimEnd s = s /\ keepDigitsAndColons s = s.
Proof.
  intros H. split; [|split].
  - destruct s as [|c s]; [reflexivity|]. cbn [clock_text] in H.
    apply andb_true_iff in H as [Hc _]. cbn [trimStart].
    now rewrite (digit_not_space c Hc).
  - induction s as [|c s IH]; [reflexivity|]. cbn [clock_text] in H.
    apply andb_true_iff in H as [Hc Hs]. cbn [trimEnd]. rewrite (IH Hs).
    rewrite (digit_not_space c Hc). now destruct s.
  - unfold keepDigitsAndColons.
    induction s as [|c s IH]; [reflexivity|]. cbn [clock_text] in H.
    apply andb_true_iff in H as [Hc Hs]. cbn [filter_chars].
    now rewrite Hc, (IH Hs).
Qed.

Lemma digits_clock_text a b :
  digits_only a = true -> digits_only b = true ->
  clock_text (a +:+ ":" +:+ b) = true.
Proof.
  intros Ha Hb. induction a as [|c a IH].
  - change (clock_text (String ":" b) = true). cbn [clock_text].
    change (is_digit ":" || is_colon ":") with true. cbn [andb].
    clear Ha. induction b as [|c b IHb]; [reflexivity|].
    cbn [digits_only] in Hb. apply andb_true_iff in Hb as [Hc Hb].
    cbn [clock_text]. now rewrite Hc, (IHb Hb).
  - cbn [digits_only] in Ha. apply andb_true_iff in Ha as [Hc Ha].
    change (clock_text (String c (a +:+ ":" +:+ b)) = true).
    cbn [clock_text]. now rewrite Hc, (IH Ha).
Qed.

Lemma split_digits b : digits_only b = true -> split ":" b = [b].
Proof.
  induction b as [|c b IH]; [reflexivity|]. cbn [digits_only]. intros H.
  apply andb_true_iff in H as [Hc Hb]. cbn [split].
  now rewrite (digit_not_colon c Hc), (IH Hb).
Qed.

Lemma split_two a b :
  digits_only a = true -> digits_only b = true ->
  split ":" (a +:+ ":" +:+ b) = [a; b].
Proof.
  intros Ha Hb. induction a as [|c a IH].
  - change (split ":" (String ":" b) = [EmptyString; b]). cbn [split].
    change (Ascii.eqb ":" ":") with true. cbv iota. now rewrite split_digits.
  - cbn [digits_only] in Ha. apply andb_true_iff in Ha as [Hc Ha].
    change (split ":" (String c (a +:+ ":" +:+ b)) = [String c a; b]).
    cbn [split]. now rewrite (digit_not_colon c Hc), (IH Ha).
Qed.

(** The text [m:ss] of two non-negative numbers parses to [60 m + ss]. *)
Lemma parseTimeString_clock m s :
  0 <= m -> 0 <= s ->
  parseTimeString (Some (pretty m +:+ ":" +:+ padStart2 (pretty s))) = m * 60 + s.
Proof.
  intros Hm Hs.
  destruct (pretty_Z_digits m Hm) as [Hm1 Hm2].
  destruct (pretty_Z_digits s Hs) as [Hs1 Hs2].
  destruct (padStart2_digits _ _ Hs1 Hs2) as [Hp1 Hp2].
  pose proof (digits_clock_text _ _ Hm1 Hp1) as Hc.
  destruct (clock_text_clean _ Hc) as (H1 & H2 & H3).
  pose proof (split_two _ _ Hm1 Hp1) as Hsp.
  remember (pretty m +:+ ":" +:+ padStart2 (pretty s)) as str eqn:Estr.
  assert (Hne : str <> EmptyString).
  { intros ->. discriminate Hsp. }
  destruct str as [|c str]; [congruence|].
  unfold parseTimeString, trim. rewrite H1, H2, H3, Hsp.
  unfold parseIntOr0. rewrite !parseInt10_digits by assumption.
  now rewrite Hm2, Hp2.
Qed.

Lemma Qfloor_div60 q : Qfloor (q / 60) = Qfloor q / 60.
Proof.
  destruct q as [a b]. unfold Qdiv, Qmult, Qinv, Qfloor. cbn.
  rewrite Z.mul_1_r, Pos2Z.inj_mul, Z.div_div by lia. reflexivity.
Qed.

Lemma Qfloor_sub_int q k : Qfloor (q - 60 * inject_Z k) = Qfloor q - 60 * k.
Proof.
  destruct q as [a b]. unfold Qminus, Qplus, Qopp, Qmult, inject_Z, Qfloor.
  cbn [Qnum Qden]. change (1 * 1)%positive with 1%positive.
  rewrite Pos.mul_1_r, Z.mul_1_r, Z.div_add by lia. lia.
Qed.

(** The time label that the popup prints for a number of seconds from
    [0] up to [2^53] (the range in which a JavaScript number holds every
    whole second, and in which the minutes are printed digit by digit) is
    read back by the agent's parser of time texts as the whole seconds of
    that number: [formatTime] and [parseTimeString] agree on the [m:ss]
    format, also when the minutes need more than two digits. *)
Theorem formatTime_parses_back :
  forall q, (0 <= q)%Q -> (q < inject_Z (2 ^ 53))%Q ->
    parseTimeString (Some (formatTime (Fin q))) = Qfloor q.
Proof.
  intros q Hq _. unfold formatTime.
  destruct (negb (truthy (Fin q)) || isNaN (Fin q)) eqn:E.
  - assert (Hz : q == 0).
    { unfold truthy, isNaN in E. rewrite orb_false_r in E.
      apply negb_true_iff, negb_false_iff in E. now apply Qeq_bool_eq. }
    rewrite (Qfloor_comp _ _ Hz). reflexivity.
  - assert (Hn : 0 <= Qfloor q).
    { change 0 with (Qfloor 0). now apply Qfloor_resp_le. }
    assert (Ht : Qtrunc (q / 60) = Qfloor q / 60).
    { unfold Qtrunc. rewrite Qfloor_div60.
      assert (Hle : Qle_bool 0 (q / 60) = true).
      { apply Qle_bool_iff. apply Qle_shift_div_l; [reflexivity|].
        now rewrite Qmult_0_l. }
      now rewrite Hle. }
    rewrite Ht, Qfloor_div60, Qfloor_sub_int.
    rewrite parseTimeString_clock.
    + lia.
    + apply Z.div_pos; lia.
    + pose proof (Z.mod_pos_bound (Qfloor q) 60 ltac:(lia)) as Hb.
      rewrite Z.mod_eq in Hb by lia. lia.
Qed.

Lemma formatTime_parses_back_witness :
  (0 <= 18377 # 5)%Q /\ (18377 # 5 < inject_Z (2 ^ 53))%Q
  /\ formatTime (Fin (18377 # 5)) = "61:15"
  /\ parseTimeString (Some (formatTime (Fin (18377 # 5)))) = 3675.
Proof.
  assert (H : (0 <= 18377 # 5)%Q) by (unfold Qle; simpl; lia).
  assert (H' : (18377 # 5 < inject_Z (2 ^ 53))%Q) by reflexivity.
  split; [exact H|]. split; [exact H'|]. split; [reflexivity|].
  exact (formatTime_parses_back (18377 # 5) H H').
Defined.

End RoundTrips.
